(** * NSF memory core: SenseAtom, RelationalGraph, decay and excitation

    A shallow embedding of
      - [src/memory/structures/SenseAtom.ts]  (classes SenseAtom, RelationalGraph),
      - [src/dist/memory/logic/excitationEngine.js] (processContextExcitation,
        detectPierwiastkiInQuery, activateTopWeightAtoms, and the
        DecayScheduler class that follows them),
      - [src/memory/neurosemantics/emotionalBoost.ts] (applyEmotionalBoost,
        calculateEmotionalBoost, applyOxidativeStress),
      - the table NS_WEIGHTS, the record NSF_CONSTANTS and
        NSUtils.calculateAverageWeight of NS_Definitions.

    Modelling conventions.
      - A JavaScript [number] that carries a weight, a rate or a strength is an
        exact rational ([Q]): rounding, NaN and the infinities of IEEE doubles
        are outside the model.  Timestamps and counters are integers ([Z]).
      - A JavaScript [Map<string, V>] is an association list in insertion
        order; a [Set<string>] is a list in insertion order.
      - Objects are mutated in place in the source.  Every atom object is held
        exactly once, in the graph's [atoms] map, so a mutation of an atom is
        a replacement of its entry; methods return the new [this].
      - [Date.now()] reads a clock: the state [Clock] holds an oracle giving
        the n-th reading and the number of readings taken so far.
      - The table NS_WEIGHTS is a plain object in the source; it is a finite
        map here.  The two agree on every name except those that an object
        inherits from [Object.prototype] ([inheritedNames]); the further
        properties that depend on a lookup assume [plainElements].
      - [console.log] output is not part of the state and is left out. *)

From Stdlib Require Import List String ZArith QArith Bool Lia Lqa.
From Stdlib Require Import Permutation Sorted.
Import ListNotations.

Local Open Scope string_scope.
Local Open Scope Z_scope.
Local Open Scope Q_scope.
Local Open Scope list_scope.

Set Implicit Arguments.

(** ** Numbers *)

Definition Qltb (x y : Q) : bool := negb (Qle_bool y x).
Definition Qgtb (x y : Q) : bool := Qltb y x.
Definition Qgeb (x y : Q) : bool := Qle_bool y x.

(** [Math.max] and [Math.min] on two arguments. *)
Definition Math_max (x y : Q) : Q := if Qle_bool x y then y else x.
Definition Math_min (x y : Q) : Q := if Qle_bool x y then x else y.

(** ** Map<string, V> in insertion order *)

Module JsMap.
Section WithValue.
Variable V : Type.

Definition t : Type := list (string * V).

Definition empty : t := [].

Fixpoint get (k : string) (m : t) : option V :=
  match m with
  | [] => None
  | (k', v) :: r => if String.eqb k k' then Some v else get k r
  end.

Definition has (k : string) (m : t) : bool :=
  match get k m with Some _ => true | None => false end.

(** [m.set(k, v)]: an existing key keeps its position, a new key goes last. *)
Fixpoint set (k : string) (v : V) (m : t) : t :=
  match m with
  | [] => [(k, v)]
  | (k', v') :: r =>
      if String.eqb k k' then (k', v) :: r else (k', v') :: set k v r
  end.

(** [m.delete(k)]; the boolean result of the method is [has k m]. *)
Definition delete (k : string) (m : t) : t :=
  filter (fun e => negb (String.eqb k (fst e))) m.

Definition size (m : t) : Z := Z.of_nat (List.length m).

Definition keys (m : t) : list string := map fst m.
Definition values (m : t) : list V := map snd m.
Definition entries (m : t) : list (string * V) := m.

(** [new Map(iterable)] *)
Definition of_entries (es : list (string * V)) : t :=
  fold_left (fun m e => set (fst e) (snd e) m) es empty.

(** [m.forEach(v => mutate v)] where the callback only touches [v]. *)
Definition map_values (f : V -> V) (m : t) : t :=
  map (fun e => (fst e, f (snd e))) m.

Definition wf (m : t) : Prop := NoDup (keys m).

Fixpoint nodupb (l : list string) : bool :=
  match l with
  | [] => true
  | x :: r => negb (existsb (String.eqb x) r) && nodupb r
  end.

Definition wfb (m : t) : bool := nodupb (keys m).
End WithValue.

Arguments empty {V}.
End JsMap.

(** ** Set<string> in insertion order *)

Module JsSet.
Definition t : Type := list string.

Definition empty : t := [].

Definition has (x : string) (s : t) : bool := existsb (String.eqb x) s.

Definition add (x : string) (s : t) : t := if has x s then s else s ++ [x].

Definition delete (x : string) (s : t) : t :=
  filter (fun y => negb (String.eqb x y)) s.

(** [new Set(array)] *)
Definition of_list (l : list string) : t :=
  fold_left (fun s x => add x s) l empty.

Definition to_list (s : t) : list string := s.
End JsSet.

(** ** The clock behind [Date.now()] *)

Record Clock : Type := mkClock {
  reading : nat -> Z;   (* the n-th value returned by Date.now() *)
  calls : nat           (* how many readings were taken so far *)
}.

(** Computations that may read the clock. *)
Definition Eff (A : Type) : Type := Clock -> A * Clock.

Definition ret {A} (a : A) : Eff A := fun c => (a, c).

Definition bind {A B} (m : Eff A) (k : A -> Eff B) : Eff B :=
  fun c => let (a, c') := m c in k a c'.

Notation "x <- m ;; k" := (bind m (fun x => k))
  (at level 61, m at next level, right associativity).
Notation "' pat <- m ;; k" := (bind m (fun x => match x with pat => k end))
  (at level 61, pat pattern, m at next level, right associativity).

Definition Date_now : Eff Z :=
  fun c => (reading c (calls c), mkClock (reading c) (S (calls c))).

(** ** ConnectionStrength, ConnectionType *)

Inductive ConnectionType : Type :=
  SEMANTIC | TEMPORAL | CAUSAL | EMOTIONAL | ASSOCIATIVE | HIERARCHICAL.

Module ConnectionStrength.
Record t : Type := mk {
  strength : Q;
  type : ConnectionType;
  createdAt : Z
}.
End ConnectionStrength.

Inductive AmygdalaLevel : Type := MINIMAL | LOW | MEDIUM | HIGH | EXTREME.

(** The object literal returned by [SenseAtom.toJSON] (and read back by
    [RelationalGraph.fromJSON]). *)
Module AtomData.
Record t : Type := mk {
  id : string;
  label : string;
  senseWeight : Q;
  detectedPierwiastki : option (list string);
  primaryPierwiastek : option string;
  lastAccessTime : Z;
  totalActivations : Z;
  amygdalaActivationLevel : option AmygdalaLevel;
  connections : list (string * ConnectionStrength.t);
  overallStrength : Q
}.
End AtomData.

(** ** class SenseAtom *)

Module SenseAtom.

(** The fields read or written by the graph, the decay scheduler and the
    excitation pass.  The optional fields that only [applyEmotionalBoost]
    writes (emotionalBoostApplied, emotionalProcessingTime, oxidativeStress)
    and the ones nothing writes (semanticVector, contextVector, source,
    confidence, priority) are left out.  [overallStrength] is the extra
    property that [Object.assign] puts on an imported atom. *)
Record t : Type := mk {
  id : string;
  label : string;
  createdAt : Z;
  senseWeight : Q;
  baseSenseWeight : Q;
  decayRate : Q;
  detectedPierwiastki : option (list string);
  primaryPierwiastek : option string;
  neuralPathways : list string;
  lastAccessTime : Z;
  consolidationTime : option Z;
  totalActivations : Z;
  amygdalaActivationLevel : option AmygdalaLevel;
  connections : JsMap.t ConnectionStrength.t;
  clusters : list string;
  tags : list string;
  overallStrength : option Q
}.

Definition set_senseWeight (w : Q) (a : t) : t :=
  mk (id a) (label a) (createdAt a) w (baseSenseWeight a) (decayRate a)
     (detectedPierwiastki a) (primaryPierwiastek a) (neuralPathways a)
     (lastAccessTime a) (consolidationTime a) (totalActivations a)
     (amygdalaActivationLevel a) (connections a) (clusters a) (tags a)
     (overallStrength a).

Definition set_baseSenseWeight (w : Q) (a : t) : t :=
  mk (id a) (label a) (createdAt a) (senseWeight a) w (decayRate a)
     (detectedPierwiastki a) (primaryPierwiastek a) (neuralPathways a)
     (lastAccessTime a) (consolidationTime a) (totalActivations a)
     (amygdalaActivationLevel a) (connections a) (clusters a) (tags a)
     (overallStrength a).

Definition set_decayRate (d : Q) (a : t) : t :=
  mk (id a) (label a) (createdAt a) (senseWeight a) (baseSenseWeight a) d
     (detectedPierwiastki a) (primaryPierwiastek a) (neuralPathways a)
     (lastAccessTime a) (consolidationTime a) (totalActivations a)
     (amygdalaActivationLevel a) (connections a) (clusters a) (tags a)
     (overallStrength a).

Definition set_lastAccessTime (n : Z) (a : t) : t :=
  mk (id a) (label a) (createdAt a) (senseWeight a) (baseSenseWeight a)
     (decayRate a) (detectedPierwiastki a) (primaryPierwiastek a)
     (neuralPathways a) n (consolidationTime a) (totalActivations a)
     (amygdalaActivationLevel a) (connections a) (clusters a) (tags a)
     (overallStrength a).

Definition set_consolidationTime (n : option Z) (a : t) : t :=
  mk (id a) (label a) (createdAt a) (senseWeight a) (baseSenseWeight a)
     (decayRate a) (detectedPierwiastki a) (primaryPierwiastek a)
     (neuralPathways a) (lastAccessTime a) n (totalActivations a)
     (amygdalaActivationLevel a) (connections a) (clusters a) (tags a)
     (overallStrength a).

Definition set_totalActivations (n : Z) (a : t) : t :=
  mk (id a) (label a) (createdAt a) (senseWeight a) (baseSenseWeight a)
     (decayRate a) (detectedPierwiastki a) (primaryPierwiastek a)
     (neuralPathways a) (lastAccessTime a) (consolidationTime a) n
     (amygdalaActivationLevel a) (connections a) (clusters a) (tags a)
     (overallStrength a).

Definition set_connections (m : JsMap.t ConnectionStrength.t) (a : t) : t :=
  mk (id a) (label a) (createdAt a) (senseWeight a) (baseSenseWeight a)
     (decayRate a) (detectedPierwiastki a) (primaryPierwiastek a)
     (neuralPathways a) (lastAccessTime a) (consolidationTime a)
     (totalActivations a) (amygdalaActivationLevel a) m (clusters a) (tags a)
     (overallStrength a).

Definition set_clusters (l : list string) (a : t) : t :=
  mk (id a) (label a) (createdAt a) (senseWeight a) (baseSenseWeight a)
     (decayRate a) (detectedPierwiastki a) (primaryPierwiastek a)
     (neuralPathways a) (lastAccessTime a) (consolidationTime a)
     (totalActivations a) (amygdalaActivationLevel a) (connections a) l
     (tags a) (overallStrength a).

(** [new SenseAtom(id, label, initialWeight = 1.0, pierwiastki?)]: an omitted
    argument is [None]. *)
Definition constructor (id label : string) (initialWeight : option Q)
    (pierwiastki : option (list string)) : Eff t :=
  created <- Date_now ;;
  let w := match initialWeight with Some w => w | None => 1.0 end in
  accessed <- Date_now ;;
  ret (mk id label created w w 0.05
          (Some (match pierwiastki with Some l => l | None => [] end))
          None [] accessed None 0%Z None JsMap.empty [] [] None).

Definition activate (this : t) : Eff t :=
  now <- Date_now ;;
  ret (set_totalActivations (totalActivations this + 1)%Z
         (set_lastAccessTime now this)).

(** [addConnection(targetId, strength, type = 'SEMANTIC')] *)
Definition addConnection (this : t) (targetId : string) (strength : Q)
    (type : option ConnectionType) : Eff t :=
  let type := match type with Some k => k | None => SEMANTIC end in
  now <- Date_now ;;
  ret (set_connections
         (JsMap.set targetId (ConnectionStrength.mk strength type now)
            (connections this)) this).

Definition removeConnection (this : t) (targetId : string) : bool * t :=
  (JsMap.has targetId (connections this),
   set_connections (JsMap.delete targetId (connections this)) this).

(** Truthiness of an optional number: [undefined] and [0] are falsy. *)
Definition truthy (n : option Z) : bool :=
  match n with Some v => negb (v =? 0)%Z | None => false end.

Section WithLog.
(** [Math.log], a library function on numbers. *)
Variable Math_log : Q -> Q.

Definition calculateOverallStrength (this : t) : Q :=
  let connectionBonus := inject_Z (JsMap.size (connections this)) * 0.1 in
  let activationBonus :=
    Math_log (inject_Z (totalActivations this) + 1) * 0.1 in
  let ageBonus := if truthy (consolidationTime this) then 0.2 else 0 in
  senseWeight this + connectionBonus + activationBonus + ageBonus.

Definition toJSON (this : t) : AtomData.t :=
  AtomData.mk (id this) (label this) (senseWeight this)
    (detectedPierwiastki this) (primaryPierwiastek this)
    (lastAccessTime this) (totalActivations this)
    (amygdalaActivationLevel this)
    (JsMap.entries (connections this))
    (calculateOverallStrength this).
End WithLog.

Definition shouldConsolidate (this : t) : bool :=
  let minActivations := 5%Z in
  let minWeight := 0.3 in
  let hasEmotionalSignificance :=
    match amygdalaActivationLevel this with
    | Some HIGH | Some EXTREME => true
    | _ => false
    end in
  ((totalActivations this >=? minActivations)%Z
     && Qgeb (senseWeight this) minWeight)
  || hasEmotionalSignificance
  || (JsMap.size (connections this) >=? 3)%Z.

(** [Object.assign(atom, atomData)]: every own property of the literal is
    copied; [connections] receives the array of entries and is replaced by
    [new Map(atomData.connections)] in the next statement of [fromJSON], so
    both steps are one here. *)
Definition assign (atom : t) (d : AtomData.t) : t :=
  mk (AtomData.id d) (AtomData.label d) (createdAt atom)
     (AtomData.senseWeight d) (baseSenseWeight atom) (decayRate atom)
     (AtomData.detectedPierwiastki d) (AtomData.primaryPierwiastek d)
     (neuralPathways atom) (AtomData.lastAccessTime d)
     (consolidationTime atom) (AtomData.totalActivations d)
     (AtomData.amygdalaActivationLevel d)
     (JsMap.of_entries (AtomData.connections d))
     (clusters atom) (tags atom) (Some (AtomData.overallStrength d)).

End SenseAtom.

(** ** class RelationalGraph *)

Module GraphStatistics.
Record t : Type := mk {
  totalAtoms : Z;
  totalConnections : Q;
  averageWeight : Q;
  consolidatedAtoms : Z;
  lastUpdate : Z
}.
End GraphStatistics.

(** The object literal returned by [RelationalGraph.toJSON]. *)
Module GraphData.
Record t : Type := mk {
  atoms : list AtomData.t;
  clusters : list (string * list string);   (* { name, atomIds } *)
  statistics : GraphStatistics.t
}.
End GraphData.

Module RelationalGraph.

Record t : Type := mk {
  atoms : JsMap.t SenseAtom.t;
  clusters : JsMap.t JsSet.t;
  statistics : GraphStatistics.t
}.

Definition set_atoms (m : JsMap.t SenseAtom.t) (g : t) : t :=
  mk m (clusters g) (statistics g).

Definition constructor : Eff t :=
  now <- Date_now ;;
  ret (mk JsMap.empty JsMap.empty (GraphStatistics.mk 0 0 0 0 now)).

(** The atom object found under key [k] is mutated by [f]. *)
Definition mutate (k : string) (f : SenseAtom.t -> Eff SenseAtom.t)
    (m : JsMap.t SenseAtom.t) : Eff (JsMap.t SenseAtom.t) :=
  match JsMap.get k m with
  | Some a => a' <- f a ;; ret (JsMap.set k a' m)
  | None => ret m
  end.

Definition sumQ (l : list Q) : Q := fold_left Qplus l 0.

Definition updateStatistics (this : t) : Eff t :=
  let st := statistics this in
  let all := JsMap.values (atoms this) in
  let totalAtoms := JsMap.size (atoms this) in
  let totalConnections :=
    sumQ (map (fun a => inject_Z (JsMap.size (SenseAtom.connections a))) all)
    / 2 in
  let averageWeight :=
    if (JsMap.size (atoms this) >? 0)%Z
    then sumQ (map SenseAtom.senseWeight all)
         / inject_Z (JsMap.size (atoms this))
    else GraphStatistics.averageWeight st in
  let consolidatedAtoms :=
    Z.of_nat (List.length (filter SenseAtom.shouldConsolidate all)) in
  now <- Date_now ;;
  ret (mk (atoms this) (clusters this)
         (GraphStatistics.mk totalAtoms totalConnections averageWeight
            consolidatedAtoms now)).

Definition addAtom (this : t) (atom : SenseAtom.t) : Eff t :=
  updateStatistics
    (set_atoms (JsMap.set (SenseAtom.id atom) atom (atoms this)) this).

Definition removeAtom (this : t) (id : string) : Eff (bool * t) :=
  match JsMap.get id (atoms this) with
  | None => ret (false, this)
  | Some _ =>
      (* remove every connection TO this atom *)
      let atoms1 :=
        JsMap.map_values
          (fun otherAtom => snd (SenseAtom.removeConnection otherAtom id))
          (atoms this) in
      (* remove the atom from the clusters *)
      let clusters1 := JsMap.map_values (JsSet.delete id) (clusters this) in
      let removed := JsMap.has id atoms1 in
      let this1 := mk (JsMap.delete id atoms1) clusters1 (statistics this) in
      if removed
      then this2 <- updateStatistics this1 ;; ret (true, this2)
      else ret (false, this1)
  end.

Definition getAtom (this : t) (id : string) : option SenseAtom.t :=
  JsMap.get id (atoms this).

Definition getAllAtoms (this : t) : list SenseAtom.t :=
  JsMap.values (atoms this).

Definition size (this : t) : Z := JsMap.size (atoms this).

(** [createConnection(sourceId, targetId, strength, type = 'SEMANTIC')] *)
Definition createConnection (this : t) (sourceId targetId : string)
    (strength : Q) (type : option ConnectionType) : Eff (bool * t) :=
  let type := match type with Some k => k | None => SEMANTIC end in
  match JsMap.get sourceId (atoms this), JsMap.get targetId (atoms this) with
  | Some _, Some _ =>
      atoms1 <- mutate sourceId
        (fun sourceAtom =>
           SenseAtom.addConnection sourceAtom targetId strength (Some type))
        (atoms this) ;;
      atoms2 <- mutate targetId
        (fun targetAtom =>
           SenseAtom.addConnection targetAtom sourceId strength (Some type))
        atoms1 ;;
      this' <- updateStatistics (set_atoms atoms2 this) ;;
      ret (true, this')
  | _, _ => ret (false, this)
  end.

Definition createCluster (this : t) (name : string) (atomIds : list string)
    : t :=
  let cluster := JsSet.of_list atomIds in
  let clusters1 := JsMap.set name cluster (clusters this) in
  (* add the cluster's name to every listed atom that exists *)
  let atoms1 :=
    fold_left
      (fun m id =>
         match JsMap.get id m with
         | Some atom =>
             JsMap.set id
               (SenseAtom.set_clusters (SenseAtom.clusters atom ++ [name])
                  atom) m
         | None => m
         end)
      atomIds (atoms this) in
  mk atoms1 clusters1 (statistics this).

(** The keys of [atom.connections] whose strength is below 0.1, as the first
    loop of [optimize] collects them. *)
Definition weakConnections (atom : SenseAtom.t) : list string :=
  map fst
    (filter (fun e => Qltb (ConnectionStrength.strength (snd e)) 0.1)
       (JsMap.entries (SenseAtom.connections atom))).

Definition removeWeakConnections (atom : SenseAtom.t) : SenseAtom.t :=
  fold_left
    (fun a targetId => snd (SenseAtom.removeConnection a targetId))
    (weakConnections atom) atom.

Definition isIsolatedLowWeight (atom : SenseAtom.t) : bool :=
  (JsMap.size (SenseAtom.connections atom) =? 0)%Z
  && Qltb (SenseAtom.senseWeight atom) 0.1
  && (SenseAtom.totalActivations atom <? 2)%Z.

(** [toRemove.forEach(id => this.removeAtom(id))] *)
Fixpoint removeAtoms (this : t) (ids : list string) : Eff t :=
  match ids with
  | [] => ret this
  | id :: rest =>
      '(_, this1) <- removeAtom this id ;;
      removeAtoms this1 rest
  end.

(** [optimize()]; the two counters it keeps are only logged. *)
Definition optimize (this : t) : Eff t :=
  (* remove the weak connections *)
  let atoms1 := JsMap.map_values removeWeakConnections (atoms this) in
  (* remove the isolated atoms of low weight *)
  let toRemove :=
    map SenseAtom.id (filter isIsolatedLowWeight (JsMap.values atoms1)) in
  this1 <- removeAtoms (set_atoms atoms1 this) toRemove ;;
  updateStatistics this1.

Section WithLog.
Variable Math_log : Q -> Q.

Definition toJSON (this : t) : GraphData.t :=
  GraphData.mk
    (map (SenseAtom.toJSON Math_log) (JsMap.values (atoms this)))
    (map (fun e => (fst e, JsSet.to_list (snd e)))
       (JsMap.entries (clusters this)))
    (statistics this).
End WithLog.

(** The body of [data.atoms.forEach(...)] in [fromJSON]. *)
Definition importAtom (graph : t) (atomData : AtomData.t) : Eff t :=
  atom <- SenseAtom.constructor (AtomData.id atomData)
            (AtomData.label atomData)
            (Some (AtomData.senseWeight atomData))
            (AtomData.detectedPierwiastki atomData) ;;
  (* restore the properties, then the connections *)
  let atom := SenseAtom.assign atom atomData in
  addAtom graph atom.

Fixpoint importAtoms (graph : t) (l : list AtomData.t) : Eff t :=
  match l with
  | [] => ret graph
  | atomData :: rest =>
      graph1 <- importAtom graph atomData ;;
      importAtoms graph1 rest
  end.

Definition fromJSON (data : GraphData.t) : Eff t :=
  graph <- constructor ;;
  graph1 <- importAtoms graph (GraphData.atoms data) ;;
  ret (fold_left
         (fun g clusterData =>
            createCluster g (fst clusterData) (snd clusterData))
         (GraphData.clusters data) graph1).

End RelationalGraph.

(** ** NS_Definitions: NS_WEIGHTS and NSF_CONSTANTS *)

Module NeuroSemanticWeight.
Record t : Type := mk {
  weight : Q;
  decayModifier : Q
}.
End NeuroSemanticWeight.

(** The table as the source lists it (area and description strings left
    out); a lookup that finds nothing is [undefined]. *)
Definition NS_WEIGHTS : JsMap.t NeuroSemanticWeight.t :=
  [ ("POZADANIE_SZCZYPTA",     NeuroSemanticWeight.mk 0.8  0.5);
    ("NAMIENTNOSC_POZADANIA",  NeuroSemanticWeight.mk 0.95 0.3);
    ("ISKRA_ZYCIA",            NeuroSemanticWeight.mk 1.0  0.0);
    ("CHECI_PRAGNIENIA",       NeuroSemanticWeight.mk 0.85 0.4);
    ("ALGORYTM_ZAKOCHANIA",    NeuroSemanticWeight.mk 0.9  0.1);
    ("NADZIEJA_WYTRWALOSCI",   NeuroSemanticWeight.mk 0.7  0.15);
    ("WIARA_JAKO_TAKA",        NeuroSemanticWeight.mk 0.65 0.1);
    ("CHECI_W_POJMOWANIU",     NeuroSemanticWeight.mk 0.75 0.2);
    ("PIERWIASTEK_MILOSCI",    NeuroSemanticWeight.mk 0.85 0.05);
    ("ALGORYTM_MILOSCI",       NeuroSemanticWeight.mk 0.8  0.1);
    ("SZCZYPTA_INTELIGENCJI",  NeuroSemanticWeight.mk 0.7  0.25);
    ("POSWIECENIE",            NeuroSemanticWeight.mk 0.9  0.1);
    ("SLOWO_CZY_CIALEM",       NeuroSemanticWeight.mk 0.6  0.2);
    ("SEKUNDNIK",              NeuroSemanticWeight.mk 0.95 0.0);
    ("ZROZUMIENIE",            NeuroSemanticWeight.mk 0.8  0.15);
    ("POMYSL",                 NeuroSemanticWeight.mk 0.75 0.3);
    ("BRAK_WIARY_I_NADZIEI",   NeuroSemanticWeight.mk 0.6  0.7);
    ("NIEUGIETA_BEZSILNOSC",   NeuroSemanticWeight.mk 0.7  0.6);
    ("PRAGNIENIE_JAKO_TAKIE",  NeuroSemanticWeight.mk 0.75 0.35);
    ("TRANSCENDENCJA_GRANIC",  NeuroSemanticWeight.mk 0.85 0.2);
    ("JEDNOSC_BYTU",           NeuroSemanticWeight.mk 0.9  0.1);
    ("MILOSC_BEZWARUNKOWA",    NeuroSemanticWeight.mk 0.95 0.05);
    ("INTUICJA_CZASOWA",       NeuroSemanticWeight.mk 0.65 0.3);
    ("ENERGIA_TWORCZA",        NeuroSemanticWeight.mk 0.8  0.25) ].

Module NSF_CONSTANTS.
Definition MIN_SENSE_WEIGHT : Q := 0.01.
Definition BASE_DECAY_RATE : Q := 0.05.
Definition CONSOLIDATION_THRESHOLD : Q := 0.1.
Definition SEKUNDNIK_INTERVAL : Z := 1000.
Definition MAX_ACTIVE_ATOMS : Z := 10000.
End NSF_CONSTANTS.

(** ** class DecayScheduler *)

Module DecayStatistics.
Record t : Type := mk {
  totalProcessed : Z;
  atomsDecayed : Z;
  atomsRemoved : Z;
  atomsConsolidated : Z;
  averageDecayRate : Q;
  lastDecayRun : Z;
  memoryOptimization : Q
}.
End DecayStatistics.

Module DecayConfig.
Record t : Type := mk {
  enableAdaptiveDecay : bool;
  consolidationThreshold : Q;
  removalThreshold : Q;
  emotionalProtection : bool;
  temporalBonus : bool;
  connectionPreservation : bool
}.
End DecayConfig.

Module DecayResult.
Record t : Type := mk {
  decayApplied : Q;
  decayAmount : Q;
  shouldRemove : bool;
  shouldConsolidate : bool;
  finalWeight : Q
}.
End DecayResult.

Module DecayScheduler.

(** [adaptiveRates] is filled by the constructor and never read; it is left
    out. *)
Record t : Type := mk {
  statistics : DecayStatistics.t;
  config : DecayConfig.t
}.

Definition constructor : t :=
  mk (DecayStatistics.mk 0 0 0 0 NSF_CONSTANTS.BASE_DECAY_RATE 0 0)
     (DecayConfig.mk true NSF_CONSTANTS.CONSOLIDATION_THRESHOLD
        NSF_CONSTANTS.MIN_SENSE_WEIGHT true true true).

Definition applyElementBasedDecay (atom : SenseAtom.t) (baseDecayRate : Q)
    : Q :=
  match SenseAtom.detectedPierwiastki atom with
  | None | Some [] => baseDecayRate
  | Some pierwiastki =>
      (* the lowest decayModifier: the strongest protection *)
      let minDecayModifier :=
        fold_left
          (fun acc pierwiastek =>
             match JsMap.get pierwiastek NS_WEIGHTS with
             | Some neuroData =>
                 Math_min acc (NeuroSemanticWeight.decayModifier neuroData)
             | None => acc
             end)
          pierwiastki 1.0 in
      baseDecayRate * minDecayModifier
  end.

Definition applyAdaptiveDecay (atom : SenseAtom.t) (baseDecayRate : Q)
    (currentTime : Z) : Q :=
  let timeSinceLastAccess := (currentTime - SenseAtom.lastAccessTime atom)%Z in
  let daysSinceAccess :=
    inject_Z timeSinceLastAccess / inject_Z (1000 * 60 * 60 * 24) in
  let adaptiveMultiplier :=
    if Qgtb daysSinceAccess 30 then 2.0
    else if Qgtb daysSinceAccess 7 then 1.5
    else if Qgtb daysSinceAccess 1 then 1.2
    else if Qltb daysSinceAccess 0.1 then 0.5
    else 1.0 in
  (* bonus for frequent activations *)
  let adaptiveMultiplier :=
    if (SenseAtom.totalActivations atom >? 10)%Z then adaptiveMultiplier * 0.8
    else if (SenseAtom.totalActivations atom >? 5)%Z
         then adaptiveMultiplier * 0.9
    else adaptiveMultiplier in
  baseDecayRate * adaptiveMultiplier.

Definition protectionMultipliers (level : AmygdalaLevel) : Q :=
  match level with
  | MINIMAL => 1.0
  | LOW => 0.9
  | MEDIUM => 0.7
  | HIGH => 0.5
  | EXTREME => 0.2
  end.

Definition applyEmotionalProtection (atom : SenseAtom.t) (baseDecayRate : Q)
    : Q :=
  match SenseAtom.amygdalaActivationLevel atom with
  | None => baseDecayRate
  | Some level => baseDecayRate * protectionMultipliers level
  end.

Definition applyTemporalBonus (atom : SenseAtom.t) (baseDecayRate : Q)
    (currentTime : Z) : Q :=
  let timeSinceAccess := (currentTime - SenseAtom.lastAccessTime atom)%Z in
  let hoursSinceAccess :=
    inject_Z timeSinceAccess / inject_Z (1000 * 60 * 60) in
  if Qltb hoursSinceAccess 1 then baseDecayRate * 0.3
  else if Qltb hoursSinceAccess 6 then baseDecayRate * 0.6
  else if Qltb hoursSinceAccess 24 then baseDecayRate * 0.8
  else baseDecayRate.

Definition applyConnectionProtection (atom : SenseAtom.t) (baseDecayRate : Q)
    : Q :=
  let connectionCount := JsMap.size (SenseAtom.connections atom) in
  if (connectionCount >=? 5)%Z then baseDecayRate * 0.6
  else if (connectionCount >=? 3)%Z then baseDecayRate * 0.8
  else baseDecayRate.

Definition criticalElements : list string :=
  ["ISKRA_ZYCIA"; "SEKUNDNIK"; "PIERWIASTEK_MILOSCI"].

Definition includes (l : list string) (x : string) : bool :=
  existsb (String.eqb x) l.

(** [isProtectedFromRemoval]: the clock is read only when the fourth test
    is reached with a truthy [consolidationTime]. *)
Definition isProtectedFromRemoval (atom : SenseAtom.t) : Eff bool :=
  (* 1. high emotional charge *)
  if match SenseAtom.amygdalaActivationLevel atom with
     | Some HIGH | Some EXTREME => true
     | _ => false
     end
  then ret true
  (* 2. critical elements *)
  else if match SenseAtom.detectedPierwiastki atom with
          | Some l => existsb (includes criticalElements) l
          | None => false
          end
  then ret true
  (* 3. hubs of the network *)
  else if (JsMap.size (SenseAtom.connections atom) >=? 5)%Z
  then ret true
  (* 4. recently consolidated *)
  else match SenseAtom.consolidationTime atom with
       | Some consolidationTime =>
           if SenseAtom.truthy (Some consolidationTime)
           then now <- Date_now ;;
                ret (now - consolidationTime <? 24 * 60 * 60 * 1000)%Z
           else ret false
       | None => ret false
       end.

Definition processAtomDecay (this : t) (atom : SenseAtom.t)
    : Eff (DecayResult.t * SenseAtom.t) :=
  currentTime <- Date_now ;;
  let cfg := config this in
  (* atom.decayRate || BASE_DECAY_RATE *)
  let decayRate :=
    if Qeq_bool (SenseAtom.decayRate atom) 0
    then NSF_CONSTANTS.BASE_DECAY_RATE
    else SenseAtom.decayRate atom in
  let decayRate := applyElementBasedDecay atom decayRate in
  let decayRate :=
    if DecayConfig.enableAdaptiveDecay cfg
    then applyAdaptiveDecay atom decayRate currentTime else decayRate in
  let decayRate :=
    if DecayConfig.emotionalProtection cfg
    then applyEmotionalProtection atom decayRate else decayRate in
  let decayRate :=
    if DecayConfig.temporalBonus cfg
    then applyTemporalBonus atom decayRate currentTime else decayRate in
  let decayRate :=
    if DecayConfig.connectionPreservation cfg
    then applyConnectionProtection atom decayRate else decayRate in
  (* apply the decay *)
  let decayAmount := SenseAtom.senseWeight atom * decayRate in
  let atom :=
    SenseAtom.set_senseWeight
      (Math_max (SenseAtom.senseWeight atom - decayAmount) 0) atom in
  (* the atom's fate *)
  shouldRemove <-
    (if Qltb (SenseAtom.senseWeight atom) (DecayConfig.removalThreshold cfg)
     then protected <- isProtectedFromRemoval atom ;; ret (negb protected)
     else ret false) ;;
  let shouldConsolidate :=
    SenseAtom.shouldConsolidate atom
    && Qgeb (SenseAtom.senseWeight atom)
         (DecayConfig.consolidationThreshold cfg) in
  ret (DecayResult.mk decayRate decayAmount shouldRemove shouldConsolidate
         (SenseAtom.senseWeight atom),
       atom).

Definition consolidateAtom (atom : SenseAtom.t) : Eff SenseAtom.t :=
  now <- Date_now ;;
  let atom := SenseAtom.set_consolidationTime (Some now) atom in
  let atom := SenseAtom.set_decayRate (SenseAtom.decayRate atom * 0.5) atom in
  ret (SenseAtom.set_baseSenseWeight (SenseAtom.senseWeight atom) atom).

(** What the first loop of [applyDecay] accumulates. *)
Record DecayLoop : Type := mkLoop {
  totalProcessed : Z;
  atomsDecayed : Z;
  totalDecayApplied : Q;
  atomsToRemove : list string;
  atomsToConsolidate : list string
}.

(** [relationalGraph.getAllAtoms().forEach(atom => ...)]: every atom is
    decayed in place and marked. *)
Fixpoint decayAll (this : t) (es : JsMap.t SenseAtom.t) (acc : DecayLoop)
    : Eff (JsMap.t SenseAtom.t * DecayLoop) :=
  match es with
  | [] => ret ([], acc)
  | (k, atom) :: rest =>
      '(decayResult, atom1) <- processAtomDecay this atom ;;
      let acc1 :=
        mkLoop
          (totalProcessed acc + 1)%Z
          (if Qgtb (DecayResult.decayApplied decayResult) 0
           then (atomsDecayed acc + 1)%Z else atomsDecayed acc)
          (totalDecayApplied acc + DecayResult.decayApplied decayResult)
          (if DecayResult.shouldRemove decayResult
           then atomsToRemove acc ++ [SenseAtom.id atom1]
           else atomsToRemove acc)
          (if DecayResult.shouldRemove decayResult
           then atomsToConsolidate acc
           else if DecayResult.shouldConsolidate decayResult
                then atomsToConsolidate acc ++ [SenseAtom.id atom1]
                else atomsToConsolidate acc) in
      '(rest1, acc2) <- decayAll this rest acc1 ;;
      ret ((k, atom1) :: rest1, acc2)
  end.

(** [atomsToRemove.forEach(id => { if (graph.removeAtom(id)) atomsRemoved++ })] *)
Fixpoint removeMarked (graph : RelationalGraph.t) (ids : list string)
    (atomsRemoved : Z) : Eff (RelationalGraph.t * Z) :=
  match ids with
  | [] => ret (graph, atomsRemoved)
  | id :: rest =>
      '(removed, graph1) <- RelationalGraph.removeAtom graph id ;;
      removeMarked graph1 rest
        (if removed then atomsRemoved + 1 else atomsRemoved)%Z
  end.

(** [atomsToConsolidate.forEach(id => ...)] *)
Fixpoint consolidateMarked (graph : RelationalGraph.t) (ids : list string)
    (atomsConsolidated : Z) : Eff (RelationalGraph.t * Z) :=
  match ids with
  | [] => ret (graph, atomsConsolidated)
  | id :: rest =>
      match RelationalGraph.getAtom graph id with
      | Some _ =>
          atoms1 <- RelationalGraph.mutate id consolidateAtom
                      (RelationalGraph.atoms graph) ;;
          consolidateMarked (RelationalGraph.set_atoms atoms1 graph) rest
            (atomsConsolidated + 1)%Z
      | None => consolidateMarked graph rest atomsConsolidated
      end
  end.

Definition applyDecay (this : t) (relationalGraph : RelationalGraph.t)
    : Eff (t * RelationalGraph.t) :=
  let initialSize := RelationalGraph.size relationalGraph in
  '(atoms1, loop) <-
    decayAll this (RelationalGraph.atoms relationalGraph)
      (mkLoop 0 0 0 [] []) ;;
  let graph1 := RelationalGraph.set_atoms atoms1 relationalGraph in
  '(graph2, atomsRemoved) <- removeMarked graph1 (atomsToRemove loop) 0%Z ;;
  '(graph3, atomsConsolidated) <-
    consolidateMarked graph2 (atomsToConsolidate loop) 0%Z ;;
  let averageDecayRate :=
    if (totalProcessed loop >? 0)%Z
    then totalDecayApplied loop / inject_Z (totalProcessed loop) else 0 in
  let memoryOptimization :=
    if (initialSize >? 0)%Z
    then inject_Z atomsRemoved / inject_Z initialSize * 100 else 0 in
  lastDecayRun <- Date_now ;;
  let this1 :=
    mk (DecayStatistics.mk (totalProcessed loop) (atomsDecayed loop)
          atomsRemoved atomsConsolidated averageDecayRate lastDecayRun
          memoryOptimization)
       (config this) in
  (* optimize the graph after the decay *)
  if (atomsRemoved >? 0)%Z
  then graph4 <- RelationalGraph.optimize graph3 ;; ret (this1, graph4)
  else ret (this1, graph3).

End DecayScheduler.

(** ** excitationEngine: the Excitation Pass *)

Module NsfPerformance.
Record t : Type := mk {
  avgCycleTime : Q;
  totalAtoms : Z;
  consolidatedAtoms : Z
}.
End NsfPerformance.

(** The module-level object [nsfState]. *)
Module NsfState.
Record t : Type := mk {
  isActive : bool;
  cycleCount : Z;
  currentQuery : option string;
  lastProcessingTime : Z;
  activeAtoms : JsSet.t;
  performance : NsfPerformance.t
}.

Definition initial : t :=
  mk false 0 None 0 JsSet.empty (NsfPerformance.mk 0 0 0).

Definition add_activeAtom (id : string) (s : t) : t :=
  mk (isActive s) (cycleCount s) (currentQuery s) (lastProcessingTime s)
     (JsSet.add id (activeAtoms s)) (performance s).
End NsfState.

Module ExcitationEngine.

(** [s.includes(sub)] on strings: [sub] occurs in [s]. *)
Fixpoint str_includes (s sub : string) : bool :=
  match s with
  | EmptyString => String.prefix sub EmptyString
  | String _ rest => String.prefix sub s || str_includes rest sub
  end.

(** The keyword dictionary of [detectPierwiastkiInQuery], in source order. *)
Definition keywordMap : list (string * list string) :=
  [ ("ALGORYTM_ZAKOCHANIA",   ["miłość"; "zakochanie"; "uczucie"; "romans"]);
    ("NADZIEJA_WYTRWALOSCI",  ["nadzieja"; "wytrwałość"; "determinacja"; "cel"]);
    ("SZCZYPTA_INTELIGENCJI", ["inteligencja"; "mądrość"; "analiza"; "logika"]);
    ("POSWIECENIE",           ["poświęcenie"; "altruizm"; "dla innych"; "ofiara"]);
    ("ZROZUMIENIE",           ["rozumiem"; "zrozumienie"; "pojmuję"; "jasne"]);
    ("POMYSL",                ["pomysł"; "idea"; "koncepcja"; "rozwiązanie"]);
    ("BRAK_WIARY_I_NADZIEI",  ["beznadzieja"; "rozpacz"; "nie wierzę"; "brak wiary"]);
    ("ISKRA_ZYCIA",           ["życie"; "energia"; "siła"; "iskra"]);
    ("SEKUNDNIK",             ["czas"; "rytm"; "cykl"; "takt"]) ].

(** Stable sort by descending weight: [arr.sort((a, b) => b.senseWeight -
    a.senseWeight)], on a list whose elements carry a weight. *)
Fixpoint insertByWeight {A : Type} (w : A -> Q) (x : A) (l : list A)
    : list A :=
  match l with
  | [] => [x]
  | y :: r =>
      if Qle_bool (w y) (w x) then x :: y :: r
      else y :: insertByWeight w x r
  end.

Definition sortByWeight {A : Type} (w : A -> Q) (l : list A) : list A :=
  fold_right (insertByWeight w) [] l.

Section WithLowerCase.
(** [String.prototype.toLowerCase], a library function on strings. *)
Variable toLowerCase : string -> string.

Definition detectPierwiastkiInQuery (query : string) : list string :=
  let queryLower := toLowerCase query in
  map fst
    (filter (fun e => existsb (str_includes queryLower) (snd e)) keywordMap).

(** The atom's elements that the query also has: [overlap]. *)
Definition overlap (detectedElements : list string) (atom : SenseAtom.t)
    : list string :=
  match SenseAtom.detectedPierwiastki atom with
  | Some l => filter (DecayScheduler.includes detectedElements) l
  | None => []
  end.

Definition qlength (l : list string) : Q := inject_Z (Z.of_nat (List.length l)).

(** The body of the loop of [processContextExcitation] on one atom:
    [Some] of the excited atom, or [None] when the atom is left alone. *)
Definition exciteAtom (detectedElements : list string) (atom : SenseAtom.t)
    : Eff (option SenseAtom.t) :=
  match overlap detectedElements atom with
  | [] => ret None
  | ov =>
      let excitationBoost := qlength ov / qlength detectedElements in
      let atom :=
        SenseAtom.set_senseWeight
          (SenseAtom.senseWeight atom * (1 + excitationBoost)) atom in
      now <- Date_now ;;
      ret (Some (SenseAtom.set_lastAccessTime now atom))
  end.

(** [relationalGraph.getAllAtoms().forEach(atom => ...)] *)
Fixpoint exciteAll (detectedElements : list string)
    (es : JsMap.t SenseAtom.t) (activatedAtoms : list SenseAtom.t)
    (nsfState : NsfState.t)
    : Eff (JsMap.t SenseAtom.t * list SenseAtom.t * NsfState.t) :=
  match es with
  | [] => ret ([], activatedAtoms, nsfState)
  | (k, atom) :: rest =>
      r <- exciteAtom detectedElements atom ;;
      match r with
      | Some atom1 =>
          '(rest1, activated1, nsf1) <-
            exciteAll detectedElements rest (activatedAtoms ++ [atom1])
              (NsfState.add_activeAtom (SenseAtom.id atom1) nsfState) ;;
          ret ((k, atom1) :: rest1, activated1, nsf1)
      | None =>
          '(rest1, activated1, nsf1) <-
            exciteAll detectedElements rest activatedAtoms nsfState ;;
          ret ((k, atom) :: rest1, activated1, nsf1)
      end
  end.

(** The [map] callback of [activateTopWeightAtoms] over the chosen atoms,
    each found in the graph under its key. *)
Fixpoint touchAll (top : list (string * SenseAtom.t))
    (atoms : JsMap.t SenseAtom.t) (nsfState : NsfState.t)
    : Eff (list SenseAtom.t * JsMap.t SenseAtom.t * NsfState.t) :=
  match top with
  | [] => ret ([], atoms, nsfState)
  | (k, atom) :: rest =>
      now <- Date_now ;;
      let atom1 := SenseAtom.set_lastAccessTime now atom in
      '(out, atoms1, nsf1) <-
        touchAll rest (JsMap.set k atom1 atoms)
          (NsfState.add_activeAtom (SenseAtom.id atom1) nsfState) ;;
      ret (atom1 :: out, atoms1, nsf1)
  end.

Definition activateTopWeightAtoms (relationalGraph : RelationalGraph.t)
    (count : nat) (nsfState : NsfState.t)
    : Eff (list SenseAtom.t * RelationalGraph.t * NsfState.t) :=
  let allAtoms := JsMap.entries (RelationalGraph.atoms relationalGraph) in
  let top :=
    firstn count
      (sortByWeight (fun e => SenseAtom.senseWeight (snd e)) allAtoms) in
  '(out, atoms1, nsf1) <-
    touchAll top (RelationalGraph.atoms relationalGraph) nsfState ;;
  ret (out, RelationalGraph.set_atoms atoms1 relationalGraph, nsf1).

(** [processContextExcitation(relationalGraph, query)]; [!query] holds for
    [null] and for the empty string. *)
Definition processContextExcitation (relationalGraph : RelationalGraph.t)
    (query : option string) (nsfState : NsfState.t)
    : Eff (list SenseAtom.t * RelationalGraph.t * NsfState.t) :=
  match query with
  | None | Some EmptyString =>
      (* spontaneous excitation of the atoms of highest weight *)
      activateTopWeightAtoms relationalGraph 3 nsfState
  | Some query =>
      let detectedElements := detectPierwiastkiInQuery query in
      '(atoms1, activatedAtoms, nsf1) <-
        exciteAll detectedElements (RelationalGraph.atoms relationalGraph)
          [] nsfState ;;
      ret (sortByWeight SenseAtom.senseWeight activatedAtoms,
           RelationalGraph.set_atoms atoms1 relationalGraph, nsf1)
  end.

End WithLowerCase.
End ExcitationEngine.

(** ** SenseAtom.getStrongConnections, RelationalGraph.getTopAtoms *)

Module StrongConnection.
Record t : Type := mk {
  id : string;
  strength : Q;
  type : ConnectionType
}.
End StrongConnection.

Module Queries.

(** [getStrongConnections(threshold = 0.5)] *)
Definition getStrongConnections (this : SenseAtom.t) (threshold : option Q)
    : list StrongConnection.t :=
  let threshold := match threshold with Some t => t | None => 0.5 end in
  let strong :=
    map (fun e =>
           StrongConnection.mk (fst e)
             (ConnectionStrength.strength (snd e))
             (ConnectionStrength.type (snd e)))
      (filter (fun e => Qgeb (ConnectionStrength.strength (snd e)) threshold)
         (JsMap.entries (SenseAtom.connections this))) in
  ExcitationEngine.sortByWeight StrongConnection.strength strong.

Section WithLog.
Variable Math_log : Q -> Q.

(** [getTopAtoms(count = 10)], for a count that is a natural number. *)
Definition getTopAtoms (this : RelationalGraph.t) (count : option nat)
    : list SenseAtom.t :=
  let count := match count with Some n => n | None => 10%nat end in
  firstn count
    (ExcitationEngine.sortByWeight
       (SenseAtom.calculateOverallStrength Math_log)
       (JsMap.values (RelationalGraph.atoms this))).
End WithLog.

End Queries.

(** ** emotionalBoost: the amygdala boost *)

Module AmygdalaResponse.
Record t : Type := mk {
  priority : string;
  processingSpeed : string;
  memoryConsolidation : string;
  attentionAllocation : string
}.
End AmygdalaResponse.

Module EmotionalBoostResult.
Record t : Type := mk {
  weightMultiplier : Q;
  finalDecayRate : Q;
  activationLevel : AmygdalaLevel;
  stabilization : string;
  processedElements : list string;
  emotionalIntensity : Q;
  amygdalaResponse : AmygdalaResponse.t
}.
End EmotionalBoostResult.

Module EmotionalBoost.

Definition countIf (f : string -> bool) (l : list string) : Z :=
  Z.of_nat (List.length (filter f l)).

Definition has (sub : string) (s : string) : bool :=
  ExcitationEngine.str_includes s sub.

Definition calculateEmotionalIntensity (elements : list string) : Q :=
  match elements with
  | [] => 0
  | _ =>
      let categories :=
        [ countIf (fun e => has "MILOSCI" e || has "ZAKOCHANIA" e) elements;
          countIf (fun e => has "POZADANIE" e || has "PRAGNIENIE" e) elements;
          countIf (fun e => has "TRANSCENDENCJA" e || has "JEDNOSC" e)
            elements;
          countIf (fun e => has "POSWIECENIE" e) elements;
          countIf (fun e => has "NADZIEJA" e || has "WIARA" e) elements;
          countIf (fun e => has "BRAK" e || has "BEZSILNOSC" e) elements ] in
      let intensity :=
        fold_left
          (fun acc count =>
             if (count >? 0)%Z then acc + inject_Z count * 0.2 else acc)
          categories 0 in
      let activeCategories :=
        List.length (filter (fun count => (count >? 0)%Z) categories) in
      let intensity :=
        if (2 <? activeCategories)%nat then intensity + 0.3 else intensity in
      Math_min intensity 1.0
  end.

Definition generateAmygdalaResponse (level : AmygdalaLevel)
    : AmygdalaResponse.t :=
  match level with
  | MINIMAL => AmygdalaResponse.mk "LOW" "SLOW" "WEAK" "BACKGROUND"
  | LOW => AmygdalaResponse.mk "NORMAL" "NORMAL" "MODERATE" "NORMAL"
  | MEDIUM => AmygdalaResponse.mk "ELEVATED" "FAST" "STRONG" "FOCUSED"
  | HIGH => AmygdalaResponse.mk "HIGH" "VERY_FAST" "VERY_STRONG" "INTENSE"
  | EXTREME => AmygdalaResponse.mk "CRITICAL" "IMMEDIATE" "MAXIMUM" "TOTAL"
  end.

(** What the loop of [calculateEmotionalBoost] accumulates. *)
Record Acc : Type := mkAcc {
  totalWeight : Q;
  minDecayModifier : Q;
  maxWeight : Q;
  processed : list string
}.

Definition accumulate (acc : Acc) (pierwiastek : string) : Acc :=
  match JsMap.get pierwiastek NS_WEIGHTS with
  | Some neuroData =>
      mkAcc (totalWeight acc + NeuroSemanticWeight.weight neuroData)
        (Math_min (minDecayModifier acc)
           (NeuroSemanticWeight.decayModifier neuroData))
        (Math_max (maxWeight acc) (NeuroSemanticWeight.weight neuroData))
        (processed acc ++ [pierwiastek])
  | None => acc
  end.

Definition isHighEmotional (p : string) : bool :=
  match JsMap.get p NS_WEIGHTS with
  | Some _ =>
      has "MILOSCI" p || has "ZAKOCHANIA" p || has "POZADANIE" p
      || has "ISKRA_ZYCIA" p || has "POSWIECENIE" p
  | None => false
  end.

Definition calculateEmotionalBoost (pierwiastki : list string)
    : EmotionalBoostResult.t :=
  let acc := fold_left accumulate pierwiastki (mkAcc 0 1.0 0 []) in
  let processedElements := processed acc in
  let avgWeight :=
    if (0 <? List.length processedElements)%nat
    then totalWeight acc / ExcitationEngine.qlength processedElements
    else 0 in
  let '(activationLevel, weightMultiplier) :=
    if Qgeb (maxWeight acc) 0.9 then (EXTREME, 1.0 + avgWeight * 1.5)
    else if Qgeb (maxWeight acc) 0.8 then (HIGH, 1.0 + avgWeight * 1.2)
    else if Qgeb (maxWeight acc) 0.6 then (MEDIUM, 1.0 + avgWeight * 0.8)
    else if Qgeb (maxWeight acc) 0.4 then (LOW, 1.0 + avgWeight * 0.5)
    else (MINIMAL, 1.0 + avgWeight * 0.2) in
  let highEmotionalElements := filter isHighEmotional processedElements in
  let weightMultiplier :=
    if (0 <? List.length highEmotionalElements)%nat
    then weightMultiplier
         + ExcitationEngine.qlength highEmotionalElements * 0.1
    else weightMultiplier in
  let stabilization :=
    if Qle_bool (minDecayModifier acc) 0.1 then "MAXIMUM"
    else if Qle_bool (minDecayModifier acc) 0.2 then "HIGH"
    else if Qle_bool (minDecayModifier acc) 0.4 then "MEDIUM"
    else if Qle_bool (minDecayModifier acc) 0.6 then "LOW"
    else "NEUTRAL" in
  EmotionalBoostResult.mk
    (Math_min weightMultiplier 3.0)
    (Math_max (minDecayModifier acc) (NSF_CONSTANTS.MIN_SENSE_WEIGHT / 10))
    activationLevel stabilization processedElements
    (calculateEmotionalIntensity processedElements)
    (generateAmygdalaResponse activationLevel).

(** The two properties that [applyEmotionalBoost] writes and the atom
    record leaves out. *)
Record Marks : Type := mkMarks {
  emotionalProcessingTime : Z;
  emotionalBoostApplied : bool
}.

Definition set_boost (w d : Q) (level : AmygdalaLevel) (a : SenseAtom.t)
    : SenseAtom.t :=
  SenseAtom.mk (SenseAtom.id a) (SenseAtom.label a) (SenseAtom.createdAt a)
    w (SenseAtom.baseSenseWeight a) d (SenseAtom.detectedPierwiastki a)
    (SenseAtom.primaryPierwiastek a) (SenseAtom.neuralPathways a)
    (SenseAtom.lastAccessTime a) (SenseAtom.consolidationTime a)
    (SenseAtom.totalActivations a) (Some level) (SenseAtom.connections a)
    (SenseAtom.clusters a) (SenseAtom.tags a) (SenseAtom.overallStrength a).

(** [applyEmotionalBoost(senseAtom, detectedPierwiastki)]: the atom after
    the call and, when the boost was applied, the marks. *)
Definition applyEmotionalBoost (senseAtom : SenseAtom.t)
    (detectedPierwiastki : option (list string))
    : Eff (SenseAtom.t * option Marks) :=
  match detectedPierwiastki with
  | None | Some [] => ret (senseAtom, None)
  | Some pierwiastki =>
      let boostResult := calculateEmotionalBoost pierwiastki in
      let w :=
        SenseAtom.senseWeight senseAtom
        * EmotionalBoostResult.weightMultiplier boostResult in
      let d :=
        Math_min (SenseAtom.decayRate senseAtom)
          (EmotionalBoostResult.finalDecayRate boostResult) in
      now <- Date_now ;;
      ret (set_boost w d (EmotionalBoostResult.activationLevel boostResult)
             senseAtom,
           Some (mkMarks now true))
  end.

(** [applyOxidativeStress(senseAtom, totalActivatedAtoms)]: the atom after
    the call and the [oxidativeStress] it was given, if any. *)
Definition applyOxidativeStress (senseAtom : SenseAtom.t)
    (totalActivatedAtoms : Z) : SenseAtom.t * option Q :=
  if Qgtb (inject_Z totalActivatedAtoms)
       (inject_Z NSF_CONSTANTS.MAX_ACTIVE_ATOMS * 0.8)
  then
    let stressFactor :=
      Math_min
        (inject_Z totalActivatedAtoms / inject_Z NSF_CONSTANTS.MAX_ACTIVE_ATOMS)
        2.0 in
    let stressReduction := 1.0 / stressFactor in
    (SenseAtom.set_senseWeight
       (SenseAtom.senseWeight senseAtom * stressReduction) senseAtom,
     Some stressFactor)
  else (senseAtom, None).

End EmotionalBoost.

(** ** NS_Definitions: NSUtils *)

Module NSUtils.


End NSUtils.

(** * Notions used to state the properties *)

(** [c'] is a later state of the clock [c]: the same oracle, at least as
    many readings taken. *)
Definition clock_le (c c' : Clock) : Prop :=
  reading c' = reading c /\ (calls c <= calls c')%nat.

(** [t] is a value that [Date.now()] returned between [c] and [c']. *)
Definition read_between (c c' : Clock) (t : Z) : Prop :=
  exists n, (calls c <= n < calls c')%nat /\ t = reading c n.

(** The graph as the class keeps it: the keys of a Map are distinct, an atom
    is stored under its own id ([addAtom] is the only insertion), and the
    keys of every adjacency map are distinct. *)
Definition atom_wfb (e : string * SenseAtom.t) : bool :=
  String.eqb (SenseAtom.id (snd e)) (fst e)
  && JsMap.wfb (SenseAtom.connections (snd e)).

Definition graph_wfb (g : RelationalGraph.t) : bool :=
  JsMap.wfb (RelationalGraph.atoms g)
  && forallb atom_wfb (RelationalGraph.atoms g).

(** Symmetric adjacency: every edge k -> t of strength s has its target in
    the graph, with a mirror edge t -> k of the same strength and kind. *)
Definition ConnectionType_eqb (x y : ConnectionType) : bool :=
  match x, y with
  | SEMANTIC, SEMANTIC | TEMPORAL, TEMPORAL | CAUSAL, CAUSAL
  | EMOTIONAL, EMOTIONAL | ASSOCIATIVE, ASSOCIATIVE
  | HIERARCHICAL, HIERARCHICAL => true
  | _, _ => false
  end.

Definition mirroredb (m : JsMap.t SenseAtom.t) (k : string)
    (e : string * ConnectionStrength.t) : bool :=
  match JsMap.get (fst e) m with
  | Some b =>
      match JsMap.get k (SenseAtom.connections b) with
      | Some conn' =>
          Qeq_bool (ConnectionStrength.strength conn')
            (ConnectionStrength.strength (snd e))
          && ConnectionType_eqb (ConnectionStrength.type conn')
               (ConnectionStrength.type (snd e))
      | None => false
      end
  | None => false
  end.

Definition adjacency_symmetricb (g : RelationalGraph.t) : bool :=
  let m := RelationalGraph.atoms g in
  forallb
    (fun ka => forallb (mirroredb m (fst ka)) (SenseAtom.connections (snd ka)))
    m.

(** The number of adjacency entries over all atoms. *)
Definition edgeCount (g : RelationalGraph.t) : Z :=
  fold_left Z.add
    (map (fun a => JsMap.size (SenseAtom.connections a))
       (RelationalGraph.getAllAtoms g)) 0%Z.

(** An atom whose elements meet the set derived from the query. *)
Definition intersects (detectedElements : list string) (atom : SenseAtom.t)
    : bool :=
  match SenseAtom.detectedPierwiastki atom with
  | Some l => existsb (DecayScheduler.includes detectedElements) l
  | None => false
  end.

(** How a map of atoms evolves through a pass: the entries whose key
    satisfies [keep] stay, in their order and under their keys, and each
    value is related to the new one by [R]; the other entries are gone. *)
Definition evolves (V : Type) (keep : string -> bool) (R : V -> V -> Prop)
    (m m' : JsMap.t V) : Prop :=
  Forall2 (fun e e' => fst e' = fst e /\ R (snd e) (snd e'))
    (filter (fun e => keep (fst e)) m) m'.

(** [a'] is [a] with another adjacency map. *)
Definition conn_only (a a' : SenseAtom.t) : Prop :=
  exists m, a' = SenseAtom.set_connections m a.

(** What the Decay Pass may do to an atom once its weight has decayed,
    between the clock states [c] and [c']: identity and weight stay; either
    the consolidation time and the decay rate stay as well, or the atom was
    consolidated and its consolidation time is a reading of the clock taken
    in between. *)
Definition kept (c c' : Clock) (a a' : SenseAtom.t) : Prop :=
  SenseAtom.id a' = SenseAtom.id a
  /\ SenseAtom.senseWeight a' = SenseAtom.senseWeight a
  /\ ((SenseAtom.consolidationTime a' = SenseAtom.consolidationTime a
       /\ SenseAtom.decayRate a' = SenseAtom.decayRate a)
      \/ exists t, read_between c c' t
                   /\ SenseAtom.consolidationTime a' = Some t).

(** The decay rate that [processAtomDecay] arrives at for an atom when the
    clock reads [currentTime]: the chain of modifiers, in the order of the
    source. *)
Definition effectiveDecayRate (this : DecayScheduler.t) (atom : SenseAtom.t)
    (currentTime : Z) : Q :=
  let cfg := DecayScheduler.config this in
  let decayRate :=
    if Qeq_bool (SenseAtom.decayRate atom) 0
    then NSF_CONSTANTS.BASE_DECAY_RATE
    else SenseAtom.decayRate atom in
  let decayRate := DecayScheduler.applyElementBasedDecay atom decayRate in
  let decayRate :=
    if DecayConfig.enableAdaptiveDecay cfg
    then DecayScheduler.applyAdaptiveDecay atom decayRate currentTime
    else decayRate in
  let decayRate :=
    if DecayConfig.emotionalProtection cfg
    then DecayScheduler.applyEmotionalProtection atom decayRate
    else decayRate in
  let decayRate :=
    if DecayConfig.temporalBonus cfg
    then DecayScheduler.applyTemporalBonus atom decayRate currentTime
    else decayRate in
  if DecayConfig.connectionPreservation cfg
  then DecayScheduler.applyConnectionProtection atom decayRate
  else decayRate.

(** The atom after its decay at the rate [rate]. *)
Definition decayedAtom (rate : Q) (atom : SenseAtom.t) : SenseAtom.t :=
  SenseAtom.set_senseWeight
    (Math_max
       (SenseAtom.senseWeight atom - SenseAtom.senseWeight atom * rate) 0)
    atom.

(** [a'] is what [processAtomDecay] makes of [a] when it reads the clock
    at some moment between [c] and [c']. *)
Definition decayed (this : DecayScheduler.t) (c c' : Clock)
    (a a' : SenseAtom.t) : Prop :=
  exists now,
    read_between c c' now
    /\ a' = decayedAtom (effectiveDecayRate this a now) a.

(** What one Decay Pass between [c] and [c'] does to an atom that stays in
    the graph: its weight decays, then it is kept as [kept] says. *)
Definition decay_pass (this : DecayScheduler.t) (c c' : Clock)
    (a a' : SenseAtom.t) : Prop :=
  exists a1, decayed this c c' a a1 /\ kept c c' a1 a'.

(** The atom that [fromJSON] builds from one exported atom when the clock
    is at [c]: a fresh atom from the constructor, overwritten by the
    exported properties. *)
Definition importedAtom (d : AtomData.t) (c : Clock) : SenseAtom.t :=
  SenseAtom.assign
    (fst (SenseAtom.constructor (AtomData.id d) (AtomData.label d)
            (Some (AtomData.senseWeight d)) (AtomData.detectedPierwiastki d)
            c))
    d.

(** What an imported atom has from the constructor alone, between the clock
    states [c] and [c'] of the import. *)
Definition constructor_defaults (c c' : Clock) (a : SenseAtom.t) : Prop :=
  SenseAtom.decayRate a = 0.05
  /\ SenseAtom.consolidationTime a = None
  /\ read_between c c' (SenseAtom.createdAt a).

(** [a'] carries the identity, the weight and the adjacency map of [a]. *)
Definition same_core (a a' : SenseAtom.t) : Prop :=
  SenseAtom.id a' = SenseAtom.id a
  /\ SenseAtom.senseWeight a' = SenseAtom.senseWeight a
  /\ SenseAtom.connections a' = SenseAtom.connections a.

(** What the Excitation Pass does to one atom between the clock states [c]
    and [c'], for the set [detectedElements] derived from the query: an atom
    whose elements meet the set has its weight multiplied by
    1 + overlap / derived and its access time refreshed, nothing else; any
    other atom is untouched. *)
Definition excitation_effect (detectedElements : list string)
    (c c' : Clock) (a a' : SenseAtom.t) : Prop :=
  if intersects detectedElements a
  then exists now,
         read_between c c' now
         /\ a' = SenseAtom.set_lastAccessTime now
                   (SenseAtom.set_senseWeight
                      (SenseAtom.senseWeight a
                       * (1 + ExcitationEngine.qlength
                                (ExcitationEngine.overlap detectedElements a)
                              / ExcitationEngine.qlength detectedElements))
                      a)
  else a' = a.

(** What [createConnection(A, B, ...)] may do to an atom: only its adjacency
    map changes, the entries to targets other than A and B are as before,
    and the adjacency map has no duplicate keys if it had none. *)
Definition adjacency_frame (A B : string) (a a' : SenseAtom.t) : Prop :=
  conn_only a a'
  /\ (forall t, t <> A -> t <> B ->
        JsMap.get t (SenseAtom.connections a')
        = JsMap.get t (SenseAtom.connections a))
  /\ (JsMap.wf (SenseAtom.connections a) ->
      JsMap.wf (SenseAtom.connections a')).

(** [a'] is [a] with an adjacency map that has lost entries and gained
    none. *)
Definition conn_sub (a a' : SenseAtom.t) : Prop :=
  conn_only a a'
  /\ incl (SenseAtom.connections a') (SenseAtom.connections a).

(** The names that every object inherits from [Object.prototype].  The
    table [NS_WEIGHTS] is a plain object: looking up one of these names in
    it finds the inherited property instead of [undefined]. *)
Definition inheritedNames : list string :=
  [ "constructor"; "toString"; "toLocaleString"; "valueOf";
    "hasOwnProperty"; "isPrototypeOf"; "propertyIsEnumerable"; "__proto__";
    "__defineGetter__"; "__defineSetter__"; "__lookupGetter__";
    "__lookupSetter__" ].

(** The elements of an atom are plain names: none of them is inherited, so
    that a lookup in [NS_WEIGHTS] finds an entry of the table or nothing. *)
Definition plainElements (elements : option (list string)) : bool :=
  match elements with
  | Some l =>
      forallb (fun p => negb (DecayScheduler.includes inheritedNames p)) l
  | None => true
  end.

(** [a'] is [a] with another list of clusters. *)
Definition clusters_only (a a' : SenseAtom.t) : Prop :=
  exists l, a' = SenseAtom.set_clusters l a.

(** What an atom keeps and loses, apart from its identity, weight and
    adjacency map, when it is exported and imported again: the exported
    properties are kept, the base weight becomes the weight, the neural
    pathways and the tags are emptied. *)
Definition imported_from (a a' : SenseAtom.t) : Prop :=
  SenseAtom.label a' = SenseAtom.label a
  /\ SenseAtom.detectedPierwiastki a' = SenseAtom.detectedPierwiastki a
  /\ SenseAtom.primaryPierwiastek a' = SenseAtom.primaryPierwiastek a
  /\ SenseAtom.lastAccessTime a' = SenseAtom.lastAccessTime a
  /\ SenseAtom.totalActivations a' = SenseAtom.totalActivations a
  /\ SenseAtom.amygdalaActivationLevel a'
     = SenseAtom.amygdalaActivationLevel a
  /\ SenseAtom.baseSenseWeight a' = SenseAtom.senseWeight a
  /\ SenseAtom.neuralPathways a' = []
  /\ SenseAtom.tags a' = [].

(** The statistics agree with the atoms of the graph: the number of atoms,
    half the number of adjacency entries, the number of atoms that
    [shouldConsolidate] accepts and, when there is an atom, the mean
    weight. *)
Definition statistics_agree (g : RelationalGraph.t) : Prop :=
  let st := RelationalGraph.statistics g in
  let all := RelationalGraph.getAllAtoms g in
  GraphStatistics.totalAtoms st = RelationalGraph.size g
  /\ GraphStatistics.totalConnections st == inject_Z (edgeCount g) / 2
  /\ GraphStatistics.consolidatedAtoms st
     = Z.of_nat (List.length (filter SenseAtom.shouldConsolidate all))
  /\ ((RelationalGraph.size g > 0)%Z ->
      GraphStatistics.averageWeight st
      = RelationalGraph.sumQ (map SenseAtom.senseWeight all)
        / inject_Z (RelationalGraph.size g)).

(** ** Sample data *)

(** A clock that starts at a fixed date and advances by one millisecond at
    every reading. *)
Definition exampleClock : Clock :=
  mkClock (fun n => 1700000000000 + Z.of_nat n)%Z 0.

(** A stand-in for [Math.log] where a sample needs one. *)
Definition exampleLog : Q -> Q := fun _ => 0.

(** Two atoms joined by one connection, built with the public methods. *)
Definition exampleProgram : Eff RelationalGraph.t :=
  g <- RelationalGraph.constructor ;;
  a <- SenseAtom.constructor "love_001" "Pierwsza miłość" (Some 2.5)
         (Some ["ALGORYTM_ZAKOCHANIA"; "PIERWIASTEK_MILOSCI"]) ;;
  g <- RelationalGraph.addAtom g a ;;
  b <- SenseAtom.constructor "cognition_001" "Rozwiązanie problemu"
         (Some 1.8) (Some ["SZCZYPTA_INTELIGENCJI"; "ZROZUMIENIE"]) ;;
  g <- RelationalGraph.addAtom g b ;;
  '(_, g) <- RelationalGraph.createConnection g "love_001" "cognition_001"
               0.8 (Some SEMANTIC) ;;
  ret (RelationalGraph.createCluster g "all" ["love_001"; "cognition_001"]).

Definition exampleGraph : RelationalGraph.t :=
  Eval vm_compute in fst (exampleProgram exampleClock).

(** An atom of weight 1.0 and decay rate 0.05, with no elements, no
    connections and no activations, last accessed at the epoch; the
    [exampleClock] reads more than 30 days later. *)
Definition oldAtom : SenseAtom.t :=
  SenseAtom.mk "old_001" "Dawne wspomnienie" 0%Z 1.0 1.0 0.05 (Some [])
    None [] 0%Z None 0%Z None JsMap.empty [] [] None.

Definition oldGraph : RelationalGraph.t :=
  RelationalGraph.mk [("old_001", oldAtom)] JsMap.empty
    (GraphStatistics.mk 1 0 1.0 0 0).

(** An atom of high emotional charge, which [shouldConsolidate] accepts at
    every pass, alone in a graph; and two Decay Passes in a row over it. *)
Definition emotionalAtom : SenseAtom.t :=
  SenseAtom.mk "emotion_001" "Namiętność" 0%Z 2.8 2.8 0.05
    (Some ["NAMIENTNOSC_POZADANIA"]) None [] 0%Z None 0%Z (Some HIGH)
    JsMap.empty [] [] None.

Definition emotionalGraph : RelationalGraph.t :=
  RelationalGraph.mk [("emotion_001", emotionalAtom)] JsMap.empty
    (GraphStatistics.mk 1 0 2.8 1 0).

Definition afterFirstPass
    : DecayScheduler.t * RelationalGraph.t * Clock :=
  DecayScheduler.applyDecay DecayScheduler.constructor emotionalGraph
    exampleClock.

Definition afterSecondPass
    : DecayScheduler.t * RelationalGraph.t * Clock :=
  DecayScheduler.applyDecay (fst (fst afterFirstPass))
    (snd (fst afterFirstPass)) (snd afterFirstPass).

(** Lower-casing of the ASCII letters only; enough for the samples, whose
    other characters are already in lower case. *)
Definition lowerAscii (ch : Ascii.ascii) : Ascii.ascii :=
  let n := Ascii.nat_of_ascii ch in
  if ((65 <=? n) && (n <=? 90))%nat then Ascii.ascii_of_nat (n + 32) else ch.

Fixpoint asciiLower (s : string) : string :=
  match s with
  | EmptyString => EmptyString
  | String ch rest => String (lowerAscii ch) (asciiLower rest)
  end.

(** One atom that carries the element of love, one that does not. *)
Definition loveGraph : RelationalGraph.t :=
  Eval vm_compute in
    fst ((g <- RelationalGraph.constructor ;;
          a <- SenseAtom.constructor "love_001" "Pierwsza miłość" (Some 2.5)
                 (Some ["ALGORYTM_ZAKOCHANIA"; "PIERWIASTEK_MILOSCI"]) ;;
          g <- RelationalGraph.addAtom g a ;;
          b <- SenseAtom.constructor "cognition_001" "Rozwiązanie problemu"
                 (Some 1.8) (Some ["SZCZYPTA_INTELIGENCJI"]) ;;
          RelationalGraph.addAtom g b) exampleClock).

Definition loveQuery : string := "Czym jest Miłość?".

(** A graph with a one-directional edge, built with the public methods:
    "a" and "b" are connected, then [addAtom] stores a fresh atom under "b".
    Both atoms have a low weight and no activations. *)
Definition oneWayGraph : RelationalGraph.t :=
  Eval vm_compute in
    fst ((g <- RelationalGraph.constructor ;;
          a <- SenseAtom.constructor "a" "pierwszy" (Some 0.05) None ;;
          g <- RelationalGraph.addAtom g a ;;
          b <- SenseAtom.constructor "b" "drugi" (Some 0.05) None ;;
          g <- RelationalGraph.addAtom g b ;;
          '(_, g) <- RelationalGraph.createConnection g "a" "b" 0.5 None ;;
          b' <- SenseAtom.constructor "b" "drugi, od nowa" (Some 0.05) None ;;
          RelationalGraph.addAtom g b') exampleClock).

(** A graph with symmetric edges only, built with the public methods: a
    weak edge x - y, a strong edge y - z; x and y have a low weight. *)
Definition symmetricGraph : RelationalGraph.t :=
  Eval vm_compute in
    fst ((g <- RelationalGraph.constructor ;;
          x <- SenseAtom.constructor "x" "słaby" (Some 0.05) None ;;
          g <- RelationalGraph.addAtom g x ;;
          y <- SenseAtom.constructor "y" "pośredni" (Some 0.05) None ;;
          g <- RelationalGraph.addAtom g y ;;
          z <- SenseAtom.constructor "z" "mocny" (Some 2.0) None ;;
          g <- RelationalGraph.addAtom g z ;;
          '(_, g) <- RelationalGraph.createConnection g "x" "y" 0.05 None ;;
          '(_, g) <- RelationalGraph.createConnection g "y" "z" 0.5
                       (Some CAUSAL) ;;
          ret g) exampleClock).

(** * Properties *)

(** ** Facts on maps in insertion order *)

Section JsMapFacts.
Variable V : Type.
Implicit Types (m : JsMap.t V) (k : string) (v : V).

Lemma JsMap_get_set_eq k v m : JsMap.get k (JsMap.set k v m) = Some v.
Proof.
  induction m as [|[k' v'] r IH]; simpl.
  - now rewrite String.eqb_refl.
  - destruct (String.eqb k k') eqn:E; simpl; rewrite E; auto.
Qed.

Lemma JsMap_get_set_neq k k' v m :
  k <> k' -> JsMap.get k' (JsMap.set k v m) = JsMap.get k' m.
Proof.
  intros Hne. induction m as [|[k0 v0] r IH]; simpl.
  - destruct (String.eqb k' k) eqn:E; auto.
    apply String.eqb_eq in E. congruence.
  - destruct (String.eqb k k0) eqn:E; simpl.
    + apply String.eqb_eq in E. subst k0.
      destruct (String.eqb k' k) eqn:E'; auto.
      apply String.eqb_eq in E'. congruence.
    + now rewrite IH.
Qed.

Lemma JsMap_get_delete_eq k m : JsMap.get k (JsMap.delete k m) = None.
Proof.
  induction m as [|[k' v'] r IH]; simpl; auto.
  destruct (String.eqb k k') eqn:E; simpl; auto. now rewrite E.
Qed.

Lemma JsMap_get_delete_neq k k' m :
  k <> k' -> JsMap.get k' (JsMap.delete k m) = JsMap.get k' m.
Proof.
  intros Hne. induction m as [|[k0 v0] r IH]; simpl; auto.
  destruct (String.eqb k k0) eqn:E; simpl.
  - apply String.eqb_eq in E. subst k0.
    destruct (String.eqb k' k) eqn:E'; auto.
    apply String.eqb_eq in E'. congruence.
  - now rewrite IH.
Qed.

Lemma JsMap_get_map_values (f : V -> V) k m :
  JsMap.get k (JsMap.map_values f m) = option_map f (JsMap.get k m).
Proof.
  induction m as [|[k' v'] r IH]; simpl; auto.
  destruct (String.eqb k k'); auto.
Qed.

Lemma JsMap_has_map_values (f : V -> V) k m :
  JsMap.has k (JsMap.map_values f m) = JsMap.has k m.
Proof.
  unfold JsMap.has. rewrite JsMap_get_map_values.
  now destruct (JsMap.get k m).
Qed.

Lemma JsMap_keys_map_values (f : V -> V) m :
  JsMap.keys (JsMap.map_values f m) = JsMap.keys m.
Proof.
  unfold JsMap.keys, JsMap.map_values. rewrite map_map. reflexivity.
Qed.

Lemma JsMap_get_In k v m : JsMap.get k m = Some v -> In (k, v) m.
Proof.
  induction m as [|[k' v'] r IH]; simpl; [discriminate|].
  destruct (String.eqb k k') eqn:E.
  - apply String.eqb_eq in E. intros [= ->]. subst. now left.
  - intros H. right. auto.
Qed.

Lemma JsMap_get_None_keys k m :
  JsMap.get k m = None <-> ~ In k (JsMap.keys m).
Proof.
  induction m as [|[k' v'] r IH]; simpl.
  - tauto.
  - destruct (String.eqb k k') eqn:E.
    + apply String.eqb_eq in E. subst. split; [discriminate|]. tauto.
    + apply String.eqb_neq in E. rewrite IH. split.
      * intros H [H1|H1]; [congruence | tauto].
      * tauto.
Qed.

Lemma JsMap_In_get k v m : JsMap.wf m -> In (k, v) m -> JsMap.get k m = Some v.
Proof.
  unfold JsMap.wf.
  induction m as [|[k' v'] r IH]; simpl; [tauto|].
  intros Hnd [H|H]; inversion Hnd; subst.
  - inversion H; subst. now rewrite String.eqb_refl.
  - destruct (String.eqb k k') eqn:E; auto.
    apply String.eqb_eq in E. subst k'.
    exfalso. apply H2. change k with (fst (k, v)). now apply in_map.
Qed.

Lemma JsMap_set_fresh k v m :
  JsMap.get k m = None -> JsMap.set k v m = m ++ [(k, v)].
Proof.
  induction m as [|[k' v'] r IH]; simpl; auto.
  destruct (String.eqb k k'); [discriminate|].
  intros H. now rewrite IH.
Qed.

Lemma JsMap_of_entries_app (es acc : JsMap.t V) :
  NoDup (JsMap.keys (acc ++ es)) ->
  fold_left (fun m e => JsMap.set (fst e) (snd e) m) es acc = acc ++ es.
Proof.
  revert acc. induction es as [|[k v] r IH]; intros acc Hnd; simpl.
  - now rewrite app_nil_r.
  - rewrite JsMap_set_fresh.
    + rewrite IH; rewrite <- app_assoc; auto.
    + apply JsMap_get_None_keys. unfold JsMap.keys in *.
      rewrite map_app in Hnd. simpl in Hnd.
      apply NoDup_remove_2 in Hnd. intros Hin. apply Hnd.
      apply in_or_app. now left.
Qed.

Lemma JsMap_of_entries_wf m : JsMap.wf m -> JsMap.of_entries m = m.
Proof.
  intros H. unfold JsMap.of_entries, JsMap.empty.
  now rewrite JsMap_of_entries_app.
Qed.

Lemma JsMap_nodupb_spec (l : list string) :
  JsMap.nodupb l = true <-> NoDup l.
Proof.
  induction l as [|x r IH]; simpl.
  - split; auto. constructor.
  - rewrite andb_true_iff, negb_true_iff, IH. split.
    + intros [H1 H2]. constructor; auto. intros Hin.
      assert (existsb (String.eqb x) r = true); [|congruence].
      apply existsb_exists. exists x. split; auto. apply String.eqb_refl.
    + intros H. inversion H; subst. split; auto.
      destruct (existsb (String.eqb x) r) eqn:E; auto.
      apply existsb_exists in E. destruct E as [y [Hy E]].
      apply String.eqb_eq in E. subst. contradiction.
Qed.

Lemma JsMap_wfb_spec m : JsMap.wfb m = true <-> JsMap.wf m.
Proof. apply JsMap_nodupb_spec. Qed.

End JsMapFacts.

Lemma JsMap_In_delete (V : Type) (k k' : string) (v : V) (m : JsMap.t V) :
  In (k', v) (JsMap.delete k m) <-> In (k', v) m /\ k <> k'.
Proof.
  unfold JsMap.delete. rewrite filter_In. simpl.
  rewrite negb_true_iff. rewrite String.eqb_neq. tauto.
Qed.

Lemma JsMap_In_map_values (V : Type) (f : V -> V) (k : string) (v : V)
    (m : JsMap.t V) :
  In (k, v) (JsMap.map_values f m) <-> exists v0, In (k, v0) m /\ v = f v0.
Proof.
  unfold JsMap.map_values. rewrite in_map_iff. split.
  - intros [[k0 v0] [E H]]. simpl in E. inversion E; subst. eauto.
  - intros [v0 [H ->]]. exists (k, v0). auto.
Qed.

Lemma JsMap_keys_delete (V : Type) (k : string) (m : JsMap.t V) :
  ~ In k (JsMap.keys (JsMap.delete k m)).
Proof. apply JsMap_get_None_keys. apply JsMap_get_delete_eq. Qed.

Lemma JsMap_has_get (V : Type) (k : string) (m : JsMap.t V) :
  JsMap.has k m = true <-> exists v, JsMap.get k m = Some v.
Proof.
  unfold JsMap.has. destruct (JsMap.get k m) as [v|]; split; eauto.
  - discriminate.
  - intros [v H]. discriminate.
Qed.

Lemma JsSet_not_In_delete (x : string) (s : JsSet.t) :
  ~ In x (JsSet.delete x s).
Proof.
  unfold JsSet.delete. rewrite filter_In. intros [_ H].
  now rewrite String.eqb_refl in H.
Qed.

(** ** The graph operations, step by step *)

Ltac eff := unfold bind, ret, Date_now in *; simpl in *.

Lemma updateStatistics_atoms g c :
  RelationalGraph.atoms (fst (RelationalGraph.updateStatistics g c))
  = RelationalGraph.atoms g
  /\ RelationalGraph.clusters (fst (RelationalGraph.updateStatistics g c))
     = RelationalGraph.clusters g
  /\ snd (RelationalGraph.updateStatistics g c)
     = mkClock (reading c) (S (calls c)).
Proof. repeat split. Qed.

Lemma removeAtom_absent g id c :
  JsMap.get id (RelationalGraph.atoms g) = None ->
  RelationalGraph.removeAtom g id c = (false, g, c).
Proof. intros H. unfold RelationalGraph.removeAtom. now rewrite H. Qed.

Lemma removeAtom_present g id c :
  JsMap.has id (RelationalGraph.atoms g) = true ->
  let r := RelationalGraph.removeAtom g id c in
  fst (fst r) = true
  /\ RelationalGraph.atoms (snd (fst r))
     = JsMap.delete id
         (JsMap.map_values
            (fun otherAtom => snd (SenseAtom.removeConnection otherAtom id))
            (RelationalGraph.atoms g))
  /\ RelationalGraph.clusters (snd (fst r))
     = JsMap.map_values (JsSet.delete id) (RelationalGraph.clusters g)
  /\ snd r = mkClock (reading c) (S (calls c)).
Proof.
  intros H. unfold RelationalGraph.removeAtom.
  assert (H' := H). unfold JsMap.has in H'.
  destruct (JsMap.get id (RelationalGraph.atoms g)) eqn:E; [|discriminate].
  rewrite JsMap_has_map_values, H. repeat split.
Qed.

Lemma createConnection_absent g sourceId targetId strength type c :
  JsMap.get sourceId (RelationalGraph.atoms g) = None
  \/ JsMap.get targetId (RelationalGraph.atoms g) = None ->
  RelationalGraph.createConnection g sourceId targetId strength type c
  = (false, g, c).
Proof.
  intros H. unfold RelationalGraph.createConnection.
  destruct H as [H|H]; rewrite H; auto.
  now destruct (JsMap.get sourceId (RelationalGraph.atoms g)).
Qed.

Lemma mutate_present k f m a c :
  JsMap.get k m = Some a ->
  RelationalGraph.mutate k f m c
  = (JsMap.set k (fst (f a c)) m, snd (f a c)).
Proof.
  intros H. unfold RelationalGraph.mutate. rewrite H. eff.
  now destruct (f a c).
Qed.

Lemma createConnection_present g sourceId targetId strength type c a b :
  JsMap.get sourceId (RelationalGraph.atoms g) = Some a ->
  JsMap.get targetId (RelationalGraph.atoms g) = Some b ->
  let r := RelationalGraph.createConnection g sourceId targetId strength
             (Some type) c in
  fst (fst r) = true
  /\ exists a' b' ca cb,
       JsMap.get sourceId (RelationalGraph.atoms (snd (fst r))) = Some a'
    /\ JsMap.get targetId (SenseAtom.connections a') = Some ca
    /\ ConnectionStrength.strength ca = strength
    /\ ConnectionStrength.type ca = type
    /\ JsMap.get targetId (RelationalGraph.atoms (snd (fst r))) = Some b'
    /\ JsMap.get sourceId (SenseAtom.connections b') = Some cb
    /\ ConnectionStrength.strength cb = strength
    /\ ConnectionStrength.type cb = type.
Proof.
  intros Ha Hb r. subst r. unfold RelationalGraph.createConnection.
  rewrite Ha, Hb. unfold bind.
  rewrite (@mutate_present _ _ _ _ _ Ha). cbv beta iota.
  set (a1 := fst (SenseAtom.addConnection a targetId strength (Some type) c)).
  set (c1 := snd (SenseAtom.addConnection a targetId strength (Some type) c)).
  set (m1 := JsMap.set sourceId a1 (RelationalGraph.atoms g)).
  assert (Ha1 : JsMap.get targetId (SenseAtom.connections a1)
                = Some (ConnectionStrength.mk strength type
                          (reading c (calls c)))).
  { subst a1. simpl. apply JsMap_get_set_eq. }
  assert (Hm1 : JsMap.get sourceId m1 = Some a1) by apply JsMap_get_set_eq.
  destruct (String.eqb sourceId targetId) eqn:E.
  - apply String.eqb_eq in E. subst targetId.
    rewrite (@mutate_present _ _ _ _ _ Hm1). cbv beta iota.
    split; [reflexivity|].
    eexists _, _, _, _. unfold RelationalGraph.updateStatistics. eff.
    rewrite !JsMap_get_set_eq.
    repeat split; simpl; try apply JsMap_get_set_eq; reflexivity.
  - apply String.eqb_neq in E.
    assert (Hb1 : JsMap.get targetId m1 = Some b).
    { subst m1. rewrite JsMap_get_set_neq; auto. }
    rewrite (@mutate_present _ _ _ _ _ Hb1). cbv beta iota.
    split; [reflexivity|].
    exists a1. eexists _, _, _. unfold RelationalGraph.updateStatistics. eff.
    rewrite JsMap_get_set_eq, JsMap_get_set_neq by congruence.
    repeat split; simpl; try apply JsMap_get_set_eq; try exact Ha1;
      try exact Hm1; reflexivity.
Qed.

(** ** Missing entities, edge creation, removal *)

(** C9. Creating a connection with an absent endpoint returns [false] and
    leaves the graph (hence every adjacency map) and the clock as they were;
    removing an absent identity returns [false] and leaves the graph as it
    was.  Both are plain results of total functions: nothing is thrown. *)
Theorem missing_entity_returns_false :
  forall (g : RelationalGraph.t) (sourceId targetId id : string)
         (strength : Q) (type : option ConnectionType) (c : Clock),
    JsMap.has sourceId (RelationalGraph.atoms g) = false
    \/ JsMap.has targetId (RelationalGraph.atoms g) = false ->
    JsMap.has id (RelationalGraph.atoms g) = false ->
    RelationalGraph.createConnection g sourceId targetId strength type c
    = (false, g, c)
    /\ RelationalGraph.removeAtom g id c = (false, g, c).
Proof.
  intros g sourceId targetId id strength type c Hc Hr. split.
  - apply createConnection_absent. unfold JsMap.has in Hc.
    destruct Hc as [H|H]; [left|right];
      match type of H with
      | context [JsMap.get ?k ?m] => now destruct (JsMap.get k m)
      end.
  - apply removeAtom_absent. unfold JsMap.has in Hr.
    now destruct (JsMap.get id (RelationalGraph.atoms g)).
Qed.

Lemma missing_entity_returns_false_witness :
  RelationalGraph.createConnection exampleGraph "love_001" "ghost" 0.5
    (Some CAUSAL) exampleClock
  = (false, exampleGraph, exampleClock)
  /\ RelationalGraph.removeAtom exampleGraph "ghost" exampleClock
     = (false, exampleGraph, exampleClock).
Proof.
  apply (@missing_entity_returns_false exampleGraph "love_001" "ghost"
           "ghost" 0.5 (Some CAUSAL) exampleClock).
  - right. reflexivity.
  - reflexivity.
Defined.

(** C2. After a successful [createConnection(A, B, S, K)] on two present
    identities, A's adjacency map has an edge to B with strength S and kind
    K, and B's adjacency map has an edge to A with the same S and K. *)
Theorem createConnection_symmetric :
  forall (g : RelationalGraph.t) (A B : string) (S : Q)
         (K : ConnectionType) (c : Clock),
    JsMap.has A (RelationalGraph.atoms g) = true ->
    JsMap.has B (RelationalGraph.atoms g) = true ->
    let r := RelationalGraph.createConnection g A B S (Some K) c in
    fst (fst r) = true
    /\ exists a' b' ca cb,
         JsMap.get A (RelationalGraph.atoms (snd (fst r))) = Some a'
      /\ JsMap.get B (SenseAtom.connections a') = Some ca
      /\ ConnectionStrength.strength ca = S
      /\ ConnectionStrength.type ca = K
      /\ JsMap.get B (RelationalGraph.atoms (snd (fst r))) = Some b'
      /\ JsMap.get A (SenseAtom.connections b') = Some cb
      /\ ConnectionStrength.strength cb = S
      /\ ConnectionStrength.type cb = K.
Proof.
  intros g A B S K c HA HB.
  apply JsMap_has_get in HA. apply JsMap_has_get in HB.
  destruct HA as [a Ha]. destruct HB as [b Hb].
  exact (createConnection_present g A B S K c Ha Hb).
Qed.

Lemma createConnection_symmetric_witness :
  let r := RelationalGraph.createConnection exampleGraph "cognition_001"
             "love_001" 0.7 (Some EMOTIONAL) exampleClock in
  fst (fst r) = true
  /\ exists a' b' ca cb,
       JsMap.get "cognition_001" (RelationalGraph.atoms (snd (fst r)))
       = Some a'
    /\ JsMap.get "love_001" (SenseAtom.connections a') = Some ca
    /\ ConnectionStrength.strength ca = 0.7
    /\ ConnectionStrength.type ca = EMOTIONAL
    /\ JsMap.get "love_001" (RelationalGraph.atoms (snd (fst r))) = Some b'
    /\ JsMap.get "cognition_001" (SenseAtom.connections b') = Some cb
    /\ ConnectionStrength.strength cb = 0.7
    /\ ConnectionStrength.type cb = EMOTIONAL.
Proof.
  apply (@createConnection_symmetric exampleGraph "cognition_001" "love_001"
           0.7 EMOTIONAL exampleClock); reflexivity.
Defined.

(** C3. When X is present, [removeAtom(X)] returns [true]; afterwards X is
    not a key of the graph, no remaining atom has an adjacency entry whose
    target is X, and no cluster contains X. *)
Theorem removeAtom_no_dangling :
  forall (g : RelationalGraph.t) (X : string) (c : Clock),
    JsMap.has X (RelationalGraph.atoms g) = true ->
    let r := RelationalGraph.removeAtom g X c in
    fst (fst r) = true
    /\ ~ In X (JsMap.keys (RelationalGraph.atoms (snd (fst r))))
    /\ (forall k a, In (k, a) (RelationalGraph.atoms (snd (fst r))) ->
          ~ In X (JsMap.keys (SenseAtom.connections a)))
    /\ (forall name cluster,
          In (name, cluster) (RelationalGraph.clusters (snd (fst r))) ->
          ~ In X cluster).
Proof.
  intros g X c H r.
  destruct (removeAtom_present g X c H) as [Hret [Hat [Hcl _]]].
  fold r in Hret, Hat, Hcl. rewrite Hat, Hcl.
  split; [exact Hret|]. split; [apply JsMap_keys_delete|]. split.
  - intros k a Hin. apply JsMap_In_delete in Hin. destruct Hin as [Hin _].
    apply JsMap_In_map_values in Hin. destruct Hin as [a0 [_ ->]].
    simpl. apply JsMap_keys_delete.
  - intros name cluster Hin.
    apply JsMap_In_map_values in Hin. destruct Hin as [s0 [_ ->]].
    apply JsSet_not_In_delete.
Qed.

Lemma removeAtom_no_dangling_witness :
  let r := RelationalGraph.removeAtom exampleGraph "love_001" exampleClock in
  fst (fst r) = true
  /\ ~ In "love_001" (JsMap.keys (RelationalGraph.atoms (snd (fst r))))
  /\ (forall k a, In (k, a) (RelationalGraph.atoms (snd (fst r))) ->
        ~ In "love_001" (JsMap.keys (SenseAtom.connections a)))
  /\ (forall name cluster,
        In (name, cluster) (RelationalGraph.clusters (snd (fst r))) ->
        ~ In "love_001" cluster).
Proof.
  apply (@removeAtom_no_dangling exampleGraph "love_001" exampleClock).
  reflexivity.
Defined.

(** ** Evolution of a map through a pass *)

Lemma filter_twice (A : Type) (f g : A -> bool) (l : list A) :
  filter g (filter f l) = filter (fun x => f x && g x) l.
Proof.
  induction l as [|x r IH]; simpl; auto.
  destruct (f x); simpl; [destruct (g x)|]; congruence.
Qed.

Section Evolves.
Variable V : Type.
Implicit Types (m : JsMap.t V) (R : V -> V -> Prop) (keep : string -> bool).

Lemma evolves_refl R m :
  (forall v, R v v) -> evolves (fun _ => true) R m m.
Proof.
  intros HR. unfold evolves. induction m as [|e r IH]; simpl; auto.
Qed.

Lemma evolves_weaken keep R (R' : V -> V -> Prop) m m' :
  (forall v v', R v v' -> R' v v') ->
  evolves keep R m m' -> evolves keep R' m m'.
Proof.
  intros HR H. unfold evolves in *.
  induction H as [|e e' l l' [Hk Hv] _ IH]; constructor; auto.
Qed.

Lemma evolves_keep_ext keep (keep' : string -> bool) R m m' :
  (forall k, In k (JsMap.keys m) -> keep k = keep' k) ->
  evolves keep R m m' -> evolves keep' R m m'.
Proof.
  intros Hk H. unfold evolves in *.
  replace (filter (fun e => keep' (fst e)) m)
    with (filter (fun e => keep (fst e)) m); auto.
  apply filter_ext_in. intros e He. apply Hk.
  unfold JsMap.keys. now apply in_map.
Qed.

Lemma Forall2_filter_keys (Q : V -> V -> Prop) keep (l l' : JsMap.t V) :
  Forall2 (fun e e' => fst e' = fst e /\ Q (snd e) (snd e')) l l' ->
  Forall2 (fun e e' => fst e' = fst e /\ Q (snd e) (snd e'))
    (filter (fun e => keep (fst e)) l) (filter (fun e => keep (fst e)) l').
Proof.
  induction 1 as [|e e' l l' [Hk Hv] _ IH]; simpl; auto.
  rewrite Hk. destruct (keep (fst e)); auto.
Qed.

Lemma Forall2_compose (Q1 Q2 : V -> V -> Prop) (l1 l2 l3 : JsMap.t V) :
  Forall2 (fun e e' => fst e' = fst e /\ Q1 (snd e) (snd e')) l1 l2 ->
  Forall2 (fun e e' => fst e' = fst e /\ Q2 (snd e) (snd e')) l2 l3 ->
  Forall2 (fun e e' => fst e' = fst e
                       /\ exists v, Q1 (snd e) v /\ Q2 v (snd e')) l1 l3.
Proof.
  intros H. revert l3.
  induction H as [|e e' l l' [Hk Hv] _ IH]; intros l3 H2;
    inversion H2; subst; constructor.
  - destruct H1 as [Hk2 Hv2]. split; [congruence|eauto].
  - auto.
Qed.

Lemma evolves_trans keep1 keep2 R1 R2 m1 m2 m3 :
  evolves keep1 R1 m1 m2 -> evolves keep2 R2 m2 m3 ->
  evolves (fun k => keep1 k && keep2 k)
    (fun v v' => exists v1, R1 v v1 /\ R2 v1 v') m1 m3.
Proof.
  unfold evolves. intros H1 H2.
  apply Forall2_filter_keys with (keep := keep2) in H1.
  rewrite filter_twice in H1.
  eapply Forall2_compose; eassumption.
Qed.

Lemma evolves_map_values (f : V -> V) m :
  evolves (fun _ => true) (fun v v' => v' = f v) m (JsMap.map_values f m).
Proof.
  unfold evolves. induction m as [|e r IH]; simpl; auto.
Qed.

Lemma evolves_delete k m :
  evolves (fun k' => negb (String.eqb k k')) eq m (JsMap.delete k m).
Proof.
  unfold evolves, JsMap.delete.
  induction (filter (fun e => negb (String.eqb k (fst e))) m); auto.
Qed.

Lemma evolves_set k v v0 m :
  JsMap.get k m = Some v0 ->
  evolves (fun _ => true) (fun x x' => x' = x \/ (x = v0 /\ x' = v)) m
    (JsMap.set k v m).
Proof.
  unfold evolves. revert v0.
  induction m as [|[k' x] r IH]; simpl; intros v0; [discriminate|].
  destruct (String.eqb k k') eqn:E.
  - intros [= ->]. constructor; simpl; auto.
    clear. induction r; simpl; auto.
  - intros H. constructor; simpl; eauto.
Qed.

Lemma evolves_keys keep R m m' :
  evolves keep R m m' -> JsMap.keys m' = filter keep (JsMap.keys m).
Proof.
  unfold evolves, JsMap.keys. intros H.
  assert (E : map fst m' = map fst (filter (fun e => keep (fst e)) m)).
  { induction H as [|e e' l l' [Hk _] _ IH]; simpl; congruence. }
  rewrite E. clear. induction m as [|e r IH]; simpl; auto.
  destruct (keep (fst e)); simpl; congruence.
Qed.

Lemma evolves_wf keep R m m' :
  evolves keep R m m' -> JsMap.wf m -> JsMap.wf m'.
Proof.
  unfold JsMap.wf. intros H Hnd. rewrite (evolves_keys H).
  now apply NoDup_filter.
Qed.

Lemma evolves_In keep R m m' k v' :
  evolves keep R m m' -> In (k, v') m' ->
  exists v, In (k, v) m /\ keep k = true /\ R v v'.
Proof.
  unfold evolves. intros H Hin.
  assert (exists v, In (k, v) (filter (fun e => keep (fst e)) m) /\ R v v')
    as [v [Hv HR]].
  { induction H as [|e e' l l' [Hk Hv] _ IH]; [contradiction|].
    destruct Hin as [E|Hin].
    - subst e'. exists (snd e). simpl in *. subst k. split; auto. left.
      now destruct e.
    - destruct (IH Hin) as [v [Hv' HR']]. exists v. split; auto.
      now right. }
  apply filter_In in Hv. destruct Hv as [Hv Hk]. eauto.
Qed.

Lemma evolves_get_backward keep R m m' k v' :
  evolves keep R m m' -> JsMap.get k m' = Some v' ->
  exists v, JsMap.get k m = Some v /\ keep k = true /\ R v v'.
Proof.
  unfold evolves. revert m'.
  induction m as [|[k0 v0] r IH]; simpl; intros m' H Hg.
  - inversion H; subst. discriminate.
  - destruct (keep k0) eqn:Ek.
    + inversion H as [|e e' l l' [Hk Hv] Hrest]; subst. simpl in *.
      destruct e' as [k1 v1]. simpl in *. subst k1.
      destruct (String.eqb k k0) eqn:E.
      * apply String.eqb_eq in E. subst k0. inversion Hg; subst. eauto.
      * eauto.
    + destruct (IH m' H Hg) as [v [Hv [Hk HR]]].
      destruct (String.eqb k k0) eqn:E; eauto.
      apply String.eqb_eq in E. congruence.
Qed.

Lemma evolves_get_forward keep R m m' k v :
  evolves keep R m m' -> JsMap.get k m = Some v -> keep k = true ->
  exists v', JsMap.get k m' = Some v' /\ R v v'.
Proof.
  unfold evolves. revert m'.
  induction m as [|[k0 v0] r IH]; simpl; intros m' H Hg Hkeep;
    [discriminate|].
  destruct (String.eqb k k0) eqn:E.
  - apply String.eqb_eq in E. subst k0. rewrite Hkeep in H.
    inversion H as [|e e' l l' [Hk Hv] Hrest]; subst. simpl in *.
    destruct e' as [k1 v1]. simpl in *. subst k1.
    rewrite String.eqb_refl. inversion Hg; subst. eauto.
  - destruct (keep k0) eqn:Ek.
    + inversion H as [|e e' l l' [Hk Hv] Hrest]; subst. simpl in *.
      destruct e' as [k1 v1]. simpl in *. subst k1. rewrite E. eauto.
    + eauto.
Qed.

Lemma evolves_length keep R m m' :
  evolves keep R m m' -> (List.length m' <= List.length m)%nat.
Proof.
  intros H. unfold evolves in H. apply Forall2_length in H. rewrite <- H.
  apply filter_length_le.
Qed.

End Evolves.

(** ** The clock only moves forward *)

Lemma clock_le_refl c : clock_le c c.
Proof. split; auto. Qed.

Lemma clock_le_trans c1 c2 c3 :
  clock_le c1 c2 -> clock_le c2 c3 -> clock_le c1 c3.
Proof. intros [H1 H2] [H3 H4]. split; [congruence|lia]. Qed.

Lemma clock_le_tick c : clock_le c (mkClock (reading c) (S (calls c))).
Proof. split; simpl; auto. Qed.

Lemma read_between_widen c0 c c' c1 t :
  clock_le c0 c -> clock_le c' c1 ->
  read_between c c' t -> read_between c0 c1 t.
Proof.
  intros [H1 H2] [H3 H4] [n [Hn Ht]]. exists n. split; [lia|congruence].
Qed.

Lemma read_between_now c :
  read_between c (mkClock (reading c) (S (calls c))) (reading c (calls c)).
Proof. exists (calls c). simpl. split; [lia|reflexivity]. Qed.

Create HintDb clock.
#[local] Hint Resolve clock_le_refl clock_le_tick : clock.

Lemma updateStatistics_clock g c :
  clock_le c (snd (RelationalGraph.updateStatistics g c)).
Proof. apply clock_le_tick. Qed.

Lemma removeAtom_clock g id c :
  clock_le c (snd (RelationalGraph.removeAtom g id c)).
Proof.
  unfold RelationalGraph.removeAtom.
  destruct (JsMap.get id (RelationalGraph.atoms g)); eff; auto with clock.
  destruct (JsMap.has id _); eff; auto with clock.
Qed.

Lemma isProtectedFromRemoval_clock a c :
  clock_le c (snd (DecayScheduler.isProtectedFromRemoval a c)).
Proof.
  unfold DecayScheduler.isProtectedFromRemoval.
  repeat match goal with
         | |- context [if ?b then _ else _] => destruct b
         | |- context [match ?x with _ => _ end] => destruct x
         end; eff; auto with clock.
Qed.

(** ** Decay of one atom *)


Lemma processAtomDecay_unfold this a c :
  DecayScheduler.processAtomDecay this a c
  = (let now := reading c (calls c) in
     let c1 := mkClock (reading c) (S (calls c)) in
     let rate := effectiveDecayRate this a now in
     let a' := decayedAtom rate a in
     let cfg := DecayScheduler.config this in
     let r :=
       if Qltb (SenseAtom.senseWeight a') (DecayConfig.removalThreshold cfg)
       then (negb (fst (DecayScheduler.isProtectedFromRemoval a' c1)),
             snd (DecayScheduler.isProtectedFromRemoval a' c1))
       else (false, c1) in
     (DecayResult.mk rate (SenseAtom.senseWeight a * rate) (fst r)
        (SenseAtom.shouldConsolidate a'
         && Qgeb (SenseAtom.senseWeight a')
              (DecayConfig.consolidationThreshold cfg))
        (SenseAtom.senseWeight a'),
      a', snd r)).
Proof.
  unfold DecayScheduler.processAtomDecay, effectiveDecayRate, decayedAtom.
  unfold bind at 1. unfold Date_now at 1. cbv beta iota zeta.
  unfold bind at 1.
  match goal with
  | |- context [if ?b then _ else ret false] => destruct b
  end.
  - unfold bind at 1.
    match goal with
    | |- context [DecayScheduler.isProtectedFromRemoval ?x ?k] =>
        destruct (DecayScheduler.isProtectedFromRemoval x k) as [p c']
    end.
    reflexivity.
  - reflexivity.
Qed.

Lemma processAtomDecay_clock this a c :
  clock_le c (snd (DecayScheduler.processAtomDecay this a c)).
Proof.
  rewrite processAtomDecay_unfold. cbv zeta. cbn [snd].
  match goal with
  | |- context [if ?b then _ else _] => destruct b
  end; cbn [snd]; auto with clock.
  eapply clock_le_trans;
    [apply clock_le_tick | apply isProtectedFromRemoval_clock].
Qed.

Lemma processAtomDecay_atom this a c :
  snd (fst (DecayScheduler.processAtomDecay this a c))
  = decayedAtom (effectiveDecayRate this a (reading c (calls c))) a.
Proof. rewrite processAtomDecay_unfold. reflexivity. Qed.


(** ** The relations between an atom and its later self *)

Lemma conn_only_refl a : conn_only a a.
Proof. exists (SenseAtom.connections a). now destruct a. Qed.

Lemma conn_only_trans a b d : conn_only a b -> conn_only b d -> conn_only a d.
Proof. intros [m ->] [m' ->]. now exists m'. Qed.

Lemma conn_only_removeConnection a k :
  conn_only a (snd (SenseAtom.removeConnection a k)).
Proof. eexists. reflexivity. Qed.

Lemma kept_refl c c' a : kept c c' a a.
Proof. repeat split. now left. Qed.

Lemma kept_widen c0 c c' c1 a a' :
  clock_le c0 c -> clock_le c' c1 -> kept c c' a a' -> kept c0 c1 a a'.
Proof.
  intros H0 H1 (Hid & Hw & [H|[t [Ht Hc]]]); repeat split; auto.
  right. exists t. split; auto. eapply read_between_widen; eauto.
Qed.

Lemma kept_trans c c' a b d :
  kept c c' a b -> kept c c' b d -> kept c c' a d.
Proof.
  intros (Hid & Hw & H1) (Hid' & Hw' & H2).
  split; [congruence|]. split; [congruence|].
  destruct H2 as [[H2 H3]|[t [Ht Hc]]].
  - destruct H1 as [[H1 H4]|[t [Ht Hc]]].
    + left. split; congruence.
    + right. exists t. split; auto. congruence.
  - right. eauto.
Qed.

Lemma conn_only_kept c c' a a' : conn_only a a' -> kept c c' a a'.
Proof. intros [m ->]. repeat split. now left. Qed.

Lemma consolidateAtom_kept a c :
  kept c (snd (DecayScheduler.consolidateAtom a c)) a
    (fst (DecayScheduler.consolidateAtom a c)).
Proof.
  repeat split. right. exists (reading c (calls c)). split; auto.
  apply read_between_now.
Qed.

(** ** The stages of the Decay Pass, as evolutions of the map of atoms *)

Lemma evolves_step (V : Type) keep1 keep2 keep3 (R1 R2 R3 : V -> V -> Prop)
    (m1 m2 m3 : JsMap.t V) :
  evolves keep1 R1 m1 m2 -> evolves keep2 R2 m2 m3 ->
  (forall v v1 v', R1 v v1 -> R2 v1 v' -> R3 v v') ->
  (forall k, In k (JsMap.keys m1) -> keep1 k && keep2 k = keep3 k) ->
  evolves keep3 R3 m1 m3.
Proof.
  intros H1 H2 HR Hk.
  eapply evolves_keep_ext; [exact Hk|].
  eapply evolves_weaken; [|eapply evolves_trans; eassumption].
  intros v v' [v1 [Ha Hb]]. eauto.
Qed.

Lemma removeAtom_evolves g id c :
  evolves (fun k => negb (String.eqb id k)) conn_only
    (RelationalGraph.atoms g)
    (RelationalGraph.atoms (snd (fst (RelationalGraph.removeAtom g id c)))).
Proof.
  destruct (JsMap.has id (RelationalGraph.atoms g)) eqn:E.
  - destruct (removeAtom_present g id c E) as (_ & -> & _).
    eapply evolves_step.
    + apply evolves_map_values.
    + apply evolves_delete.
    + intros v v1 v' -> <-. apply conn_only_removeConnection.
    + reflexivity.
  - assert (Hn : JsMap.get id (RelationalGraph.atoms g) = None).
    { unfold JsMap.has in E.
      now destruct (JsMap.get id (RelationalGraph.atoms g)). }
    rewrite (removeAtom_absent _ _ c Hn). simpl.
    eapply evolves_keep_ext; [|apply evolves_refl, conn_only_refl].
    intros k Hk. simpl. symmetry. apply negb_true_iff, String.eqb_neq.
    intros ->. apply JsMap_get_None_keys in Hn. contradiction.
Qed.

Lemma includes_cons x y l :
  DecayScheduler.includes (y :: l) x
  = String.eqb x y || DecayScheduler.includes l x.
Proof. reflexivity. Qed.

Lemma removeMarked_evolves ids : forall g n c,
  let r := DecayScheduler.removeMarked g ids n c in
  evolves (fun k => negb (DecayScheduler.includes ids k)) conn_only
    (RelationalGraph.atoms g) (RelationalGraph.atoms (fst (fst r)))
  /\ clock_le c (snd r).
Proof.
  induction ids as [|id rest IH]; intros g n c; simpl.
  - split; [apply evolves_refl, conn_only_refl | apply clock_le_refl].
  - unfold bind.
    pose proof (removeAtom_evolves g id c) as He.
    pose proof (removeAtom_clock g id c) as Hc.
    destruct (RelationalGraph.removeAtom g id c) as [[removed g1] c1].
    simpl in He, Hc.
    destruct (IH g1 (if removed then (n + 1)%Z else n) c1) as [He' Hc'].
    split; [|eapply clock_le_trans; eassumption].
    eapply evolves_step; [exact He | exact He' | |].
    + intros v v1 v'. apply conn_only_trans.
    + intros k _. simpl. rewrite negb_orb.
      now rewrite (String.eqb_sym k id).
Qed.

Lemma removeAtoms_evolves ids : forall g c,
  let r := RelationalGraph.removeAtoms g ids c in
  evolves (fun k => negb (DecayScheduler.includes ids k)) conn_only
    (RelationalGraph.atoms g) (RelationalGraph.atoms (fst r))
  /\ clock_le c (snd r).
Proof.
  induction ids as [|id rest IH]; intros g c; simpl.
  - split; [apply evolves_refl, conn_only_refl | apply clock_le_refl].
  - unfold bind.
    pose proof (removeAtom_evolves g id c) as He.
    pose proof (removeAtom_clock g id c) as Hc.
    destruct (RelationalGraph.removeAtom g id c) as [[removed g1] c1].
    simpl in He, Hc.
    destruct (IH g1 c1) as [He' Hc'].
    split; [|eapply clock_le_trans; eassumption].
    eapply evolves_step; [exact He | exact He' | |].
    + intros v v1 v'. apply conn_only_trans.
    + intros k _. simpl. rewrite negb_orb.
      now rewrite (String.eqb_sym k id).
Qed.

Lemma consolidateMarked_evolves ids : forall g n c,
  let r := DecayScheduler.consolidateMarked g ids n c in
  evolves (fun _ => true) (kept c (snd r))
    (RelationalGraph.atoms g) (RelationalGraph.atoms (fst (fst r)))
  /\ clock_le c (snd r).
Proof.
  induction ids as [|id rest IH]; intros g n c; simpl.
  - split; [apply evolves_refl, kept_refl | apply clock_le_refl].
  - unfold RelationalGraph.getAtom.
    destruct (JsMap.get id (RelationalGraph.atoms g)) as [a|] eqn:E.
    + unfold bind. rewrite (@mutate_present _ _ _ _ _ E). cbv beta iota.
      set (a1 := fst (DecayScheduler.consolidateAtom a c)).
      set (c1 := snd (DecayScheduler.consolidateAtom a c)).
      set (g1 := RelationalGraph.set_atoms _ g).
      destruct (IH g1 (n + 1)%Z c1) as [He Hc].
      assert (Hc1 : clock_le c c1) by apply clock_le_tick.
      split; [|eapply clock_le_trans; eassumption].
      eapply evolves_step;
        [apply (evolves_set id a1 _ E) | exact He | | reflexivity].
      intros v v1 v' Hv Hk.
      eapply kept_trans;
        [|eapply kept_widen; [exact Hc1 | apply clock_le_refl | exact Hk]].
      destruct Hv as [->|[-> ->]]; [apply kept_refl|].
      eapply kept_widen;
        [apply clock_le_refl | exact Hc | apply consolidateAtom_kept].
    + apply IH.
Qed.

Lemma removeWeakConnections_conn_only a :
  conn_only a (RelationalGraph.removeWeakConnections a).
Proof.
  unfold RelationalGraph.removeWeakConnections.
  generalize (RelationalGraph.weakConnections a) as l.
  assert (H : forall l b, conn_only a b ->
            conn_only a
              (fold_left
                 (fun x targetId => snd (SenseAtom.removeConnection x targetId))
                 l b)).
  { induction l as [|k r IH]; simpl; intros b Hb; auto.
    apply IH. eapply conn_only_trans; [exact Hb|].
    apply conn_only_removeConnection. }
  intros l. apply H, conn_only_refl.
Qed.

(** The identities that [optimize] removes. *)
Lemma optimize_evolves g c :
  let atoms1 :=
    JsMap.map_values RelationalGraph.removeWeakConnections
      (RelationalGraph.atoms g) in
  let toRemove :=
    map SenseAtom.id
      (filter RelationalGraph.isIsolatedLowWeight (JsMap.values atoms1)) in
  let r := RelationalGraph.optimize g c in
  evolves (fun k => negb (DecayScheduler.includes toRemove k)) conn_only
    (RelationalGraph.atoms g) (RelationalGraph.atoms (fst r))
  /\ clock_le c (snd r).
Proof.
  intros atoms1 toRemove. unfold RelationalGraph.optimize. fold atoms1.
  fold toRemove. unfold bind.
  destruct (removeAtoms_evolves toRemove (RelationalGraph.set_atoms atoms1 g)
              c) as [He Hc].
  destruct (RelationalGraph.removeAtoms (RelationalGraph.set_atoms atoms1 g)
              toRemove c) as [g1 c1].
  simpl in He, Hc. split.
  - eapply evolves_step;
      [apply evolves_map_values | exact He | | reflexivity].
    intros v v1 v' -> H. eapply conn_only_trans; [|exact H].
    apply removeWeakConnections_conn_only.
  - eapply clock_le_trans; [exact Hc | apply clock_le_tick].
Qed.

Lemma decayed_widen this c0 c c' c1 a a' :
  clock_le c0 c -> clock_le c' c1 ->
  decayed this c c' a a' -> decayed this c0 c1 a a'.
Proof.
  intros H0 H1 [now [Hn ->]]. exists now. split; auto.
  eapply read_between_widen; eauto.
Qed.

Lemma processAtomDecay_tick this a c :
  clock_le (mkClock (reading c) (S (calls c)))
    (snd (DecayScheduler.processAtomDecay this a c)).
Proof.
  rewrite processAtomDecay_unfold. cbv zeta. cbn [snd].
  match goal with
  | |- context [if ?b then _ else _] => destruct b
  end; cbn [snd]; auto with clock.
  apply isProtectedFromRemoval_clock.
Qed.

Lemma decayAll_evolves this es : forall acc c,
  let r := DecayScheduler.decayAll this es acc c in
  evolves (fun _ => true) (decayed this c (snd r)) es (fst (fst r))
  /\ clock_le c (snd r).
Proof.
  induction es as [|[k atom] rest IH]; intros acc c; simpl.
  - split; [constructor | apply clock_le_refl].
  - unfold bind.
    pose proof (processAtomDecay_tick this atom c) as Ht.
    pose proof (processAtomDecay_atom this atom c) as Ha.
    destruct (DecayScheduler.processAtomDecay this atom c)
      as [[res a1] c1].
    simpl in Ht, Ha.
    match goal with
    | |- context [DecayScheduler.decayAll this rest ?acc1 c1] =>
        destruct (IH acc1 c1) as [He Hc];
        destruct (DecayScheduler.decayAll this rest acc1 c1)
          as [[rest1 acc2] c2]
    end.
    simpl in He, Hc |- *.
    assert (Hc1 : clock_le c c1).
    { eapply clock_le_trans; [apply clock_le_tick | exact Ht]. }
    split; [|eapply clock_le_trans; eassumption].
    unfold evolves. simpl. constructor.
    + split; auto. simpl. exists (reading c (calls c)). split; auto.
      exists (calls c). split; auto.
      destruct Ht as [_ Ht]. destruct Hc as [_ Hc]. simpl in Ht. lia.
    + change (evolves (fun _ => true) (decayed this c c2) rest rest1).
      eapply evolves_weaken; [|exact He].
      intros v v'. apply decayed_widen; auto with clock.
Qed.

Lemma includes_In l x : DecayScheduler.includes l x = true -> In x l.
Proof.
  unfold DecayScheduler.includes. intros H. apply existsb_exists in H.
  destruct H as [y [Hy E]]. apply String.eqb_eq in E. now subst.
Qed.

Lemma In_includes l x : In x l -> DecayScheduler.includes l x = true.
Proof.
  unfold DecayScheduler.includes. intros H. apply existsb_exists.
  exists x. split; auto. apply String.eqb_refl.
Qed.

(** An identity is marked for removal only by an atom that carries it and
    whose decayed weight is under the removal threshold. *)
Lemma decayAll_marks this es : forall acc c id,
  let r := DecayScheduler.decayAll this es acc c in
  In id (DecayScheduler.atomsToRemove (snd (fst r))) ->
  In id (DecayScheduler.atomsToRemove acc)
  \/ exists k b now,
       In (k, b) es /\ SenseAtom.id b = id
       /\ read_between c (snd r) now
       /\ Qltb
            (SenseAtom.senseWeight
               (decayedAtom (effectiveDecayRate this b now) b))
            (DecayConfig.removalThreshold (DecayScheduler.config this))
          = true.
Proof.
  induction es as [|[k atom] rest IH]; intros acc c id; simpl.
  - auto.
  - unfold bind.
    pose proof (processAtomDecay_tick this atom c) as Ht.
    pose proof (processAtomDecay_unfold this atom c) as Hu.
    destruct (DecayScheduler.processAtomDecay this atom c)
      as [[res a1] c1].
    simpl in Ht.
    match goal with
    | |- context [DecayScheduler.decayAll this rest ?acc1 c1] =>
        pose proof (IH acc1 c1 id) as IH';
        pose proof (decayAll_evolves this rest acc1 c1) as [_ Hc];
        destruct (DecayScheduler.decayAll this rest acc1 c1)
          as [[rest1 acc2] c2]
    end.
    simpl in IH', Hc |- *. intros Hin.
    assert (Hc1 : clock_le c c1).
    { eapply clock_le_trans; [apply clock_le_tick | exact Ht]. }
    destruct (IH' Hin) as [H|[k' [b [now [Hb [Hid [Hr Hw]]]]]]].
    + cbv zeta in Hu. inversion Hu as [[Hres Ha1 Hc1']]. clear Hu.
      destruct (DecayResult.shouldRemove res) eqn:Esr; auto.
      apply in_app_or in H. destruct H as [H|[H|[]]]; auto.
      right. exists k, atom, (reading c (calls c)).
      split; [now left|]. split; [now rewrite <- H, Ha1|].
      split.
      * exists (calls c). split; auto.
        destruct Ht as [_ Ht]. destruct Hc as [_ Hc]. simpl in Ht. lia.
      * rewrite Hres in Esr. cbn [DecayResult.shouldRemove] in Esr.
        match type of Esr with
        | context [if ?b then _ else _] => destruct b
        end; [reflexivity | discriminate].
    + right. exists k', b, now. repeat split; auto.
      eapply read_between_widen; [exact Hc1 | apply clock_le_refl | exact Hr].
Qed.

(** One Decay Pass, as an evolution of the map of atoms.  A key is dropped
    only if an atom carrying it as its id has decayed under the removal
    threshold, or under the 0.1 of [optimize]. *)
Lemma applyDecay_evolves this g c this' g' c' :
  DecayScheduler.applyDecay this g c = (this', g', c') ->
  (exists keep,
     evolves keep (decay_pass this c c')
       (RelationalGraph.atoms g) (RelationalGraph.atoms g')
     /\ forall k, keep k = false ->
          exists k' b now,
            In (k', b) (RelationalGraph.atoms g) /\ SenseAtom.id b = k
            /\ read_between c c' now
            /\ (Qltb
                  (SenseAtom.senseWeight
                     (decayedAtom (effectiveDecayRate this b now) b))
                  (DecayConfig.removalThreshold (DecayScheduler.config this))
                = true
                \/ Qltb
                     (SenseAtom.senseWeight
                        (decayedAtom (effectiveDecayRate this b now) b))
                     0.1
                   = true))
  /\ clock_le c c'.
Proof.
  unfold DecayScheduler.applyDecay. unfold bind at 1.
  pose proof (decayAll_evolves this (RelationalGraph.atoms g)
                (DecayScheduler.mkLoop 0 0 0 [] []) c) as [H1 C1].
  pose proof (decayAll_marks this (RelationalGraph.atoms g)
                (DecayScheduler.mkLoop 0 0 0 [] []) c) as M1.
  destruct (DecayScheduler.decayAll this (RelationalGraph.atoms g)
              (DecayScheduler.mkLoop 0 0 0 [] []) c) as [[atoms1 loop] c1].
  simpl in H1, C1, M1. cbv beta iota. unfold bind at 1.
  set (g1 := RelationalGraph.set_atoms atoms1 g).
  pose proof (removeMarked_evolves (DecayScheduler.atomsToRemove loop) g1
                0%Z c1) as [H2 C2].
  destruct (DecayScheduler.removeMarked g1
              (DecayScheduler.atomsToRemove loop) 0%Z c1)
    as [[g2 atomsRemoved] c2].
  simpl in H2, C2. cbv beta iota. unfold bind at 1.
  pose proof (consolidateMarked_evolves
                (DecayScheduler.atomsToConsolidate loop) g2 0%Z c2)
    as [H3 C3].
  destruct (DecayScheduler.consolidateMarked g2
              (DecayScheduler.atomsToConsolidate loop) 0%Z c2)
    as [[g3 atomsConsolidated] c3].
  simpl in H3, C3. cbv beta iota. unfold bind at 1.
  unfold Date_now at 1. cbv beta iota.
  set (c4 := mkClock (reading c3) (S (calls c3))).
  assert (C4 : clock_le c3 c4) by apply clock_le_tick.
  assert (C02 : clock_le c c2) by exact (clock_le_trans C1 C2).
  assert (C03 : clock_le c c3) by exact (clock_le_trans C02 C3).
  (* the map after consolidation, seen from the start of the pass *)
  assert (H13 : forall cx,
            clock_le c3 cx ->
            evolves
              (fun k =>
                 negb (DecayScheduler.includes
                         (DecayScheduler.atomsToRemove loop) k))
              (decay_pass this c cx)
              (RelationalGraph.atoms g) (RelationalGraph.atoms g3)).
  { intros cx Hcx.
    assert (H23 : evolves
              (fun k =>
                 negb (DecayScheduler.includes
                         (DecayScheduler.atomsToRemove loop) k))
              (kept c cx) atoms1 (RelationalGraph.atoms g3)).
    { eapply evolves_step; [exact H2 | exact H3 | |].
      - intros v v1 v' Ha Hb.
        eapply kept_trans; [apply conn_only_kept, Ha|].
        eapply kept_widen; [exact C02 | exact Hcx | exact Hb].
      - intros k _. apply andb_true_r. }
    eapply evolves_step; [exact H1 | exact H23 | |].
    - intros v v1 v' Ha Hb. exists v1. split; [|exact Hb].
      eapply decayed_widen; [apply clock_le_refl | | exact Ha].
      exact (clock_le_trans C2 (clock_le_trans C3 Hcx)).
    - reflexivity. }
  (* why a key marked by the first loop is dropped *)
  assert (D1 : forall cx k,
            clock_le c3 cx ->
            negb (DecayScheduler.includes
                    (DecayScheduler.atomsToRemove loop) k) = false ->
            exists k' b now,
              In (k', b) (RelationalGraph.atoms g) /\ SenseAtom.id b = k
              /\ read_between c cx now
              /\ Qltb
                   (SenseAtom.senseWeight
                      (decayedAtom (effectiveDecayRate this b now) b))
                   (DecayConfig.removalThreshold
                      (DecayScheduler.config this))
                 = true).
  { intros cx k Hcx Hk. apply negb_false_iff, includes_In in Hk.
    destruct (M1 k Hk) as [[]|[k' [b [now [Hb [Hid [Hr Hw]]]]]]].
    exists k', b, now. repeat split; auto.
    eapply read_between_widen; [apply clock_le_refl | | exact Hr].
    exact (clock_le_trans C2 (clock_le_trans C3 Hcx)). }
  destruct (atomsRemoved >? 0)%Z.
  - unfold bind at 1.
    pose proof (optimize_evolves g3 c4) as [H5 C5].
    destruct (RelationalGraph.optimize g3 c4) as [g4 c5].
    simpl in H5, C5. unfold ret. intros E. inversion E; subst; clear E.
    assert (C35 : clock_le c3 c') by exact (clock_le_trans C4 C5).
    split; [|exact (clock_le_trans C03 C35)].
    eexists. split.
    + eapply evolves_step; [apply (H13 c' C35) | exact H5 | |].
      * intros v v1 v' [a1 [Ha Hb]] Hc. exists a1. split; auto.
        eapply kept_trans; [exact Hb | apply conn_only_kept, Hc].
      * reflexivity.
    + intros k Hk. cbv beta in Hk. apply andb_false_iff in Hk.
      destruct Hk as [Hk|Hk].
      * destruct (D1 c' k C35 Hk) as [k' [b [now H]]].
        exists k', b, now. intuition.
      * apply negb_false_iff, includes_In in Hk.
        apply in_map_iff in Hk. destruct Hk as [b' [Hid Hb']].
        apply filter_In in Hb'. destruct Hb' as [Hb' Hlow].
        unfold JsMap.values in Hb'. apply in_map_iff in Hb'.
        destruct Hb' as [[k3 b''] [Eb Hb']]. simpl in Eb. subst b''.
        apply JsMap_In_map_values in Hb'.
        destruct Hb' as [b3 [Hb3 ->]].
        destruct (removeWeakConnections_conn_only b3) as [mw Hmw].
        rewrite Hmw in Hid, Hlow.
        destruct (@evolves_In _ _ _ _ _ _ _ (H13 c' C35) Hb3)
          as [b0 [Hb0 [_ [b1 [[now [Hr ->]] (Hid1 & Hw1 & _)]]]]].
        exists k3, b0, now. split; auto.
        split; [simpl in Hid; rewrite <- Hid, Hid1; reflexivity|].
        split; auto. right.
        unfold RelationalGraph.isIsolatedLowWeight in Hlow.
        apply andb_true_iff in Hlow. destruct Hlow as [Hlow _].
        apply andb_true_iff in Hlow. destruct Hlow as [_ Hlow].
        simpl in Hlow. rewrite Hw1 in Hlow. exact Hlow.
  - unfold ret. intros E. inversion E; subst; clear E.
    split; [|exact (clock_le_trans C03 C4)].
    eexists. split; [apply (H13 c4 C4)|].
    intros k Hk. destruct (D1 c4 k C4 Hk) as [k' [b [now H]]].
    exists k', b, now. intuition.
Qed.

(** ** Comparisons on rationals *)

Lemma Qltb_true x y : x < y -> Qltb x y = true.
Proof.
  intros H. unfold Qltb. destruct (Qle_bool y x) eqn:E; auto.
  apply Qle_bool_iff in E. exfalso. exact (Qlt_not_le _ _ H E).
Qed.

Lemma Qltb_false x y : y <= x -> Qltb x y = false.
Proof.
  intros H. unfold Qltb. apply Qle_bool_iff in H. now rewrite H.
Qed.

Lemma Math_max_pos x : 0 < x -> Math_max x 0 = x.
Proof.
  intros H. unfold Math_max. destruct (Qle_bool x 0) eqn:E; auto.
  apply Qle_bool_iff in E. exfalso. exact (Qlt_not_le _ _ H E).
Qed.

Lemma ms_over_days (z : Z) :
  (z > 30 * (1000 * 60 * 60 * 24))%Z ->
  30 < inject_Z z / inject_Z (1000 * 60 * 60 * 24).
Proof.
  intros H. apply Qlt_shift_div_l; [reflexivity|].
  unfold Qlt, inject_Z. simpl. lia.
Qed.

Lemma ms_over_hours (z : Z) :
  (z > 30 * (1000 * 60 * 60 * 24))%Z ->
  24 <= inject_Z z / inject_Z (1000 * 60 * 60).
Proof.
  intros H. apply Qle_shift_div_l; [reflexivity|].
  unfold Qle, inject_Z. simpl. lia.
Qed.

(** ** Well-formed graphs *)

Lemma graph_wfb_spec g :
  graph_wfb g = true ->
  JsMap.wf (RelationalGraph.atoms g)
  /\ forall k a, In (k, a) (RelationalGraph.atoms g) ->
       SenseAtom.id a = k /\ JsMap.wf (SenseAtom.connections a).
Proof.
  unfold graph_wfb. rewrite andb_true_iff. intros [H1 H2]. split.
  - now apply JsMap_wfb_spec.
  - intros k a Hin. rewrite forallb_forall in H2.
    specialize (H2 _ Hin). unfold atom_wfb in H2. simpl in H2.
    apply andb_true_iff in H2. destruct H2 as [H2 H3]. split.
    + now apply String.eqb_eq.
    + now apply JsMap_wfb_spec.
Qed.

(** ** The month-old atom *)

Lemma month_old_rate a now :
  ~ SenseAtom.decayRate a == 0 ->
  SenseAtom.detectedPierwiastki a = Some [] ->
  SenseAtom.amygdalaActivationLevel a = None ->
  SenseAtom.connections a = JsMap.empty ->
  SenseAtom.totalActivations a = 0%Z ->
  (now - SenseAtom.lastAccessTime a > 30 * (1000 * 60 * 60 * 24))%Z ->
  effectiveDecayRate DecayScheduler.constructor a now
  = SenseAtom.decayRate a * 2.0.
Proof.
  intros Hd Ht Ha Hc Hn Hold.
  unfold effectiveDecayRate. cbn [DecayScheduler.config
    DecayScheduler.constructor DecayConfig.enableAdaptiveDecay
    DecayConfig.emotionalProtection DecayConfig.temporalBonus
    DecayConfig.connectionPreservation].
  assert (E0 : Qeq_bool (SenseAtom.decayRate a) 0 = false).
  { destruct (Qeq_bool (SenseAtom.decayRate a) 0) eqn:E; auto.
    apply Qeq_bool_iff in E. contradiction. }
  rewrite E0.
  unfold DecayScheduler.applyElementBasedDecay. rewrite Ht.
  unfold DecayScheduler.applyConnectionProtection. rewrite Hc.
  cbn [JsMap.size JsMap.empty List.length Z.of_nat Z.geb Z.compare].
  unfold DecayScheduler.applyTemporalBonus.
  pose proof (ms_over_hours Hold) as Hh.
  rewrite !Qltb_false;
    try (eapply Qle_trans; [|exact Hh]; unfold Qle; simpl; lia).
  unfold DecayScheduler.applyEmotionalProtection. rewrite Ha.
  unfold DecayScheduler.applyAdaptiveDecay. rewrite Hn.
  unfold Qgtb. rewrite (Qltb_true (ms_over_days Hold)).
  reflexivity.
Qed.

Lemma month_old_weight w d :
  w == 1 -> d == 0.05 -> Math_max (w - w * (d * 2.0)) 0 == 0.9.
Proof.
  intros Hw Hd. rewrite Math_max_pos.
  - rewrite Hw, Hd. reflexivity.
  - rewrite Hw, Hd. reflexivity.
Qed.

(** C7. An atom of weight 1.0 and decay coefficient 0.05, with an empty
    list of elements, no amygdala activation level, no connections and no
    activations, whose last access lies more than 30 days before every
    reading the pass takes of the clock, is still in the graph after one
    Decay Pass of the scheduler as constructed, and its weight is
    1.0 - 1.0 * (0.05 * 2.0) = 0.90: only the recency multiplier 2.0 is
    applied to the rate. *)
Theorem decay_month_old_atom :
  forall (g : RelationalGraph.t) (k : string) (a : SenseAtom.t) (c : Clock),
    graph_wfb g = true ->
    JsMap.get k (RelationalGraph.atoms g) = Some a ->
    SenseAtom.senseWeight a == 1.0 ->
    SenseAtom.decayRate a == 0.05 ->
    SenseAtom.detectedPierwiastki a = Some [] ->
    SenseAtom.amygdalaActivationLevel a = None ->
    SenseAtom.connections a = JsMap.empty ->
    SenseAtom.totalActivations a = 0%Z ->
    (forall n, (calls c <= n)%nat ->
       (reading c n - SenseAtom.lastAccessTime a
        > 30 * (1000 * 60 * 60 * 24))%Z) ->
    (forall now, read_between c
                   (snd (DecayScheduler.applyDecay DecayScheduler.constructor
                           g c)) now ->
       effectiveDecayRate DecayScheduler.constructor a now
       = SenseAtom.decayRate a * 2.0)
    /\ exists a',
         JsMap.get k
           (RelationalGraph.atoms
              (snd (fst (DecayScheduler.applyDecay DecayScheduler.constructor
                           g c))))
         = Some a'
         /\ SenseAtom.senseWeight a' == 1.0 - 1.0 * (0.05 * 2.0)
         /\ SenseAtom.senseWeight a' == 0.9.
Proof.
  intros g k a c Hwf Hget Hw Hd Ht Ha Hc Hn Hold.
  assert (Hd0 : ~ SenseAtom.decayRate a == 0).
  { intros H0. rewrite Hd in H0. discriminate H0. }
  assert (Hrate : forall c' now, read_between c c' now ->
            effectiveDecayRate DecayScheduler.constructor a now
            = SenseAtom.decayRate a * 2.0).
  { intros c' now [n [[Hn1 _] ->]].
    apply month_old_rate; auto. }
  assert (HW : forall c' now, read_between c c' now ->
            SenseAtom.senseWeight
              (decayedAtom
                 (effectiveDecayRate DecayScheduler.constructor a now) a)
            == 0.9).
  { intros c' now Hr. rewrite (Hrate c' now Hr). unfold decayedAtom. simpl.
    apply month_old_weight; [rewrite Hw; reflexivity | exact Hd]. }
  destruct (DecayScheduler.applyDecay DecayScheduler.constructor g c)
    as [[this' g'] c'] eqn:E.
  cbn [fst snd]. split; [apply Hrate|].
  destruct (applyDecay_evolves _ _ _ E) as [[keep [He Hdrop]] _].
  destruct (graph_wfb_spec g Hwf) as [Hnd Hid].
  destruct (keep k) eqn:Ek.
  - destruct (@evolves_get_forward _ _ _ _ _ _ _ He Hget Ek)
      as [a' [Hget' [a1 [[now [Hr ->]] (_ & Hw' & _)]]]].
    exists a'. split; [exact Hget'|]. rewrite Hw'.
    split; [|exact (HW c' now Hr)].
    rewrite (HW c' now Hr). reflexivity.
  - exfalso. destruct (Hdrop k Ek) as [k' [b [now [Hb [Hidb [Hr Hlow]]]]]].
    destruct (Hid _ _ Hb) as [Hkb _]. rewrite Hidb in Hkb. subst k'.
    rewrite (@JsMap_In_get _ _ _ _ Hnd Hb) in Hget. inversion Hget; subst b.
    pose proof (HW c' now Hr) as H9.
    destruct Hlow as [Hlow|Hlow]; rewrite Qltb_false in Hlow;
      try discriminate; rewrite H9; discriminate.
Qed.

Lemma decay_month_old_atom_witness :
  (forall now, read_between exampleClock
                 (snd (DecayScheduler.applyDecay DecayScheduler.constructor
                         oldGraph exampleClock)) now ->
     effectiveDecayRate DecayScheduler.constructor oldAtom now
     = SenseAtom.decayRate oldAtom * 2.0)
  /\ exists a',
       JsMap.get "old_001"
         (RelationalGraph.atoms
            (snd (fst (DecayScheduler.applyDecay DecayScheduler.constructor
                         oldGraph exampleClock))))
       = Some a'
       /\ SenseAtom.senseWeight a' == 1.0 - 1.0 * (0.05 * 2.0)
       /\ SenseAtom.senseWeight a' == 0.9.
Proof.
  apply (@decay_month_old_atom oldGraph "old_001" oldAtom exampleClock).
  - reflexivity.
  - reflexivity.
  - reflexivity.
  - reflexivity.
  - reflexivity.
  - reflexivity.
  - reflexivity.
  - reflexivity.
  - intros n _.
    cbn [reading exampleClock SenseAtom.lastAccessTime oldAtom]. lia.
Defined.

(** The same pass, run: the stored weight is the fraction 0.9. *)
Example decay_month_old_atom_run :
  option_map (fun a => Qred (SenseAtom.senseWeight a))
    (JsMap.get "old_001"
       (RelationalGraph.atoms
          (snd (fst (DecayScheduler.applyDecay DecayScheduler.constructor
                       oldGraph exampleClock)))))
  = Some (9 # 10).
Proof. vm_compute. reflexivity. Qed.

(** ** Promotion *)


(** ** Export and import *)

Lemma JsMap_Forall_set (V : Type) (P : V -> Prop) k v (m : JsMap.t V) :
  Forall P (JsMap.values m) -> P v ->
  Forall P (JsMap.values (JsMap.set k v m)).
Proof.
  intros H Hv. induction m as [|[k' x] r IH]; simpl.
  - constructor; auto.
  - inversion H; subst. destruct (String.eqb k k'); simpl; constructor; auto.
Qed.

Lemma JsMap_Forall_get (V : Type) (P : V -> Prop) k v (m : JsMap.t V) :
  Forall P (JsMap.values m) -> JsMap.get k m = Some v -> P v.
Proof.
  intros H Hg. apply JsMap_get_In in Hg. rewrite Forall_forall in H.
  apply H. unfold JsMap.values. change v with (snd (k, v)).
  now apply in_map.
Qed.

Lemma importAtom_unfold graph d c :
  RelationalGraph.importAtom graph d c
  = (RelationalGraph.mk
       (JsMap.set (AtomData.id d) (importedAtom d c)
          (RelationalGraph.atoms graph))
       (RelationalGraph.clusters graph)
       (RelationalGraph.statistics
          (fst (RelationalGraph.importAtom graph d c))),
     mkClock (reading c) (S (S (S (calls c))))).
Proof. reflexivity. Qed.

Lemma importedAtom_defaults d c :
  constructor_defaults c (mkClock (reading c) (S (S (S (calls c)))))
    (importedAtom d c).
Proof.
  repeat split. exists (calls c). simpl. split; [lia|reflexivity].
Qed.

Lemma constructor_defaults_widen c0 c c' c1 a :
  clock_le c0 c -> clock_le c' c1 ->
  constructor_defaults c c' a -> constructor_defaults c0 c1 a.
Proof.
  intros H0 H1 (Hd & Ht & Hr). repeat split; auto.
  eapply read_between_widen; eauto.
Qed.

Lemma importAtoms_defaults l : forall graph c0 c,
  clock_le c0 c ->
  Forall (constructor_defaults c0 c)
    (JsMap.values (RelationalGraph.atoms graph)) ->
  let r := RelationalGraph.importAtoms graph l c in
  Forall (constructor_defaults c0 (snd r))
    (JsMap.values (RelationalGraph.atoms (fst r)))
  /\ clock_le c (snd r).
Proof.
  induction l as [|d rest IH]; intros graph c0 c Hc H; simpl.
  - split; [exact H | apply clock_le_refl].
  - unfold bind. rewrite importAtom_unfold.
    set (c1 := mkClock (reading c) (S (S (S (calls c))))).
    assert (Hc1 : clock_le c c1) by (split; simpl; auto; lia).
    match goal with
    | |- context [RelationalGraph.importAtoms ?g1 rest c1] =>
        destruct (IH g1 c0 c1) as [H1 H2]
    end.
    + exact (clock_le_trans Hc Hc1).
    + simpl. apply JsMap_Forall_set.
      * eapply Forall_impl; [|exact H]. intros a.
        apply constructor_defaults_widen; auto with clock.
      * eapply constructor_defaults_widen;
          [exact Hc | apply clock_le_refl | apply importedAtom_defaults].
    + split; [exact H1 | exact (clock_le_trans Hc1 H2)].
Qed.

Lemma createCluster_atoms_fold (P : SenseAtom.t -> Prop) name ids :
  (forall a l, P a -> P (SenseAtom.set_clusters l a)) ->
  forall m,
    Forall P (JsMap.values m) ->
    Forall P
      (JsMap.values
         (fold_left
            (fun m id =>
               match JsMap.get id m with
               | Some atom =>
                   JsMap.set id
                     (SenseAtom.set_clusters
                        (SenseAtom.clusters atom ++ [name]) atom) m
               | None => m
               end) ids m)).
Proof.
  intros HP. induction ids as [|id rest IH]; intros m H; simpl; auto.
  apply IH. destruct (JsMap.get id m) as [atom|] eqn:E; auto.
  apply JsMap_Forall_set; auto. apply HP.
  eapply JsMap_Forall_get; eauto.
Qed.

Lemma createClusters_defaults c c' cl : forall g,
  Forall (constructor_defaults c c')
    (JsMap.values (RelationalGraph.atoms g)) ->
  Forall (constructor_defaults c c')
    (JsMap.values
       (RelationalGraph.atoms
          (fold_left
             (fun g clusterData =>
                RelationalGraph.createCluster g (fst clusterData)
                  (snd clusterData)) cl g))).
Proof.
  induction cl as [|[name ids] rest IH]; intros g H; simpl; auto.
  apply IH. unfold RelationalGraph.createCluster. simpl.
  apply createCluster_atoms_fold; auto.
Qed.

(** C10. Whatever the graph, every atom of the graph rebuilt by [fromJSON]
    from its [toJSON] export has the constructor's decay coefficient 0.05,
    no consolidation timestamp, and a creation time read from the clock
    during the import: the export carries none of the three fields. *)
Theorem import_resets_decay_and_consolidation :
  forall (Math_log : Q -> Q) (g : RelationalGraph.t) (c : Clock)
         (k : string) (a : SenseAtom.t),
    let r := RelationalGraph.fromJSON (RelationalGraph.toJSON Math_log g) c in
    In (k, a) (RelationalGraph.atoms (fst r)) ->
    SenseAtom.decayRate a = 0.05
    /\ SenseAtom.consolidationTime a = None
    /\ read_between c (snd r) (SenseAtom.createdAt a).
Proof.
  intros Math_log g c k a r Hin. subst r.
  unfold RelationalGraph.fromJSON in *. unfold bind at 1 in Hin.
  unfold bind at 1. unfold RelationalGraph.constructor in *.
  unfold bind at 1 in Hin. unfold bind at 1.
  unfold Date_now at 1 in Hin. unfold Date_now at 1. cbv beta iota in *.
  unfold ret at 1 in Hin. unfold ret at 1. unfold bind in *.
  set (c1 := mkClock (reading c) (S (calls c))) in *.
  set (g0 := RelationalGraph.mk JsMap.empty JsMap.empty _) in *.
  destruct (importAtoms_defaults
              (GraphData.atoms (RelationalGraph.toJSON Math_log g)) g0
              (clock_le_refl c1)) as [H1 H2]; [constructor|].
  destruct (RelationalGraph.importAtoms g0
              (GraphData.atoms (RelationalGraph.toJSON Math_log g)) c1)
    as [g1 c2].
  unfold ret in *. simpl in H1, H2, Hin |- *.
  pose proof (createClusters_defaults
                (GraphData.clusters (RelationalGraph.toJSON Math_log g))
                g1 H1) as H3.
  rewrite Forall_forall in H3.
  assert (Ha : In a (JsMap.values
                       (RelationalGraph.atoms
                          (fold_left
                             (fun g clusterData =>
                                RelationalGraph.createCluster g
                                  (fst clusterData) (snd clusterData))
                             (GraphData.clusters
                                (RelationalGraph.toJSON Math_log g)) g1)))).
  { unfold JsMap.values. change a with (snd (k, a)). now apply in_map. }
  destruct (H3 _ Ha) as (Hd & Ht & Hr). repeat split; auto.
  eapply read_between_widen; [apply clock_le_tick | apply clock_le_refl|].
  exact Hr.
Qed.

Lemma import_resets_decay_and_consolidation_witness :
  match
    JsMap.get "emotion_001"
      (RelationalGraph.atoms
         (fst (RelationalGraph.fromJSON
                 (RelationalGraph.toJSON exampleLog (snd (fst afterFirstPass)))
                 (snd afterFirstPass))))
  with
  | Some a =>
      SenseAtom.decayRate a = 0.05
      /\ SenseAtom.consolidationTime a = None
      /\ read_between (snd afterFirstPass)
           (snd (RelationalGraph.fromJSON
                   (RelationalGraph.toJSON exampleLog
                      (snd (fst afterFirstPass)))
                   (snd afterFirstPass)))
           (SenseAtom.createdAt a)
  | None => False
  end.
Proof.
  destruct (JsMap.get "emotion_001"
              (RelationalGraph.atoms
                 (fst (RelationalGraph.fromJSON
                         (RelationalGraph.toJSON exampleLog
                            (snd (fst afterFirstPass)))
                         (snd afterFirstPass)))))
    as [a|] eqn:G; [|vm_compute in G; discriminate G].
  apply (@import_resets_decay_and_consolidation exampleLog
           (snd (fst afterFirstPass)) (snd afterFirstPass) "emotion_001" a).
  apply JsMap_get_In. exact G.
Defined.

(** The exported atom had been consolidated (rate 0.025, a timestamp); the
    imported one is back to the defaults. *)
Example import_forgets_consolidation :
  option_map (fun a => (Qred (SenseAtom.decayRate a),
                        SenseAtom.consolidationTime a))
    (JsMap.get "emotion_001"
       (RelationalGraph.atoms (snd (fst afterFirstPass))))
  = Some (1 # 40, Some 1700000000001%Z)
  /\ option_map (fun a => (Qred (SenseAtom.decayRate a),
                           SenseAtom.consolidationTime a))
       (JsMap.get "emotion_001"
          (RelationalGraph.atoms
             (fst (RelationalGraph.fromJSON
                     (RelationalGraph.toJSON exampleLog
                        (snd (fst afterFirstPass)))
                     (snd afterFirstPass)))))
     = Some (1 # 20, None).
Proof. split; vm_compute; reflexivity. Qed.

Lemma same_core_refl a : same_core a a.
Proof. repeat split. Qed.

Lemma same_core_trans a b d : same_core a b -> same_core b d -> same_core a d.
Proof. intros (H1 & H2 & H3) (H4 & H5 & H6). repeat split; congruence. Qed.

Lemma importAtoms_app Math_log (es : JsMap.t SenseAtom.t) : forall graph c,
  NoDup (JsMap.keys (RelationalGraph.atoms graph ++ es)) ->
  Forall (fun e => SenseAtom.id (snd e) = fst e
                   /\ JsMap.wf (SenseAtom.connections (snd e))) es ->
  exists es',
    RelationalGraph.atoms
      (fst (RelationalGraph.importAtoms graph
              (map (SenseAtom.toJSON Math_log) (JsMap.values es)) c))
    = RelationalGraph.atoms graph ++ es'
    /\ Forall2 (fun e e' => fst e' = fst e /\ same_core (snd e) (snd e'))
         es es'.
Proof.
  induction es as [|[k a] rest IH]; intros graph c Hnd Hwf; simpl.
  - exists []. split; [now rewrite app_nil_r | constructor].
  - inversion Hwf as [|? ? [Hid Hconn] Hrest]; subst. simpl in Hid, Hconn.
    unfold bind. rewrite importAtom_unfold.
    set (d := SenseAtom.toJSON Math_log a).
    set (c1 := mkClock (reading c) (S (S (S (calls c))))).
    assert (Hfresh : JsMap.get k (RelationalGraph.atoms graph) = None).
    { apply JsMap_get_None_keys. unfold JsMap.keys in *.
      rewrite map_app in Hnd. simpl in Hnd. apply NoDup_remove_2 in Hnd.
      intros Hin. apply Hnd. apply in_or_app. now left. }
    assert (Ek : AtomData.id d = k) by exact Hid.
    rewrite Ek. rewrite (@JsMap_set_fresh _ _ _ _ Hfresh).
    match goal with
    | |- context [RelationalGraph.importAtoms ?g1 _ c1] =>
        destruct (IH g1 c1) as [es' [E F]]
    end.
    + cbn [RelationalGraph.atoms]. unfold JsMap.keys in *.
      rewrite !map_app in *. cbn [map fst] in *.
      rewrite <- app_assoc. exact Hnd.
    + exact Hrest.
    + exists ((k, importedAtom d c) :: es'). split.
      * rewrite E. simpl. now rewrite <- app_assoc.
      * constructor; [|exact F]. split; [reflexivity|].
        repeat split; simpl; auto.
        apply JsMap_of_entries_wf. exact Hconn.
Qed.

Lemma createCluster_evolves name ids : forall m,
  evolves (fun _ => true) same_core m
    (fold_left
       (fun m id =>
          match JsMap.get id m with
          | Some atom =>
              JsMap.set id
                (SenseAtom.set_clusters
                   (SenseAtom.clusters atom ++ [name]) atom) m
          | None => m
          end) ids m).
Proof.
  induction ids as [|id rest IH]; intros m; simpl.
  - apply evolves_refl, same_core_refl.
  - destruct (JsMap.get id m) as [atom|] eqn:E; [|apply IH].
    eapply evolves_step;
      [eapply evolves_set; exact E | apply IH | | reflexivity].
    intros v v1 v' [->|[-> ->]] H; [exact H|].
    eapply same_core_trans; [|exact H]. repeat split.
Qed.

Lemma createClusters_evolves cl : forall g,
  evolves (fun _ => true) same_core (RelationalGraph.atoms g)
    (RelationalGraph.atoms
       (fold_left
          (fun g clusterData =>
             RelationalGraph.createCluster g (fst clusterData)
               (snd clusterData)) cl g)).
Proof.
  induction cl as [|[name ids] rest IH]; intros g; simpl.
  - apply evolves_refl, same_core_refl.
  - eapply evolves_step
      with (m2 := RelationalGraph.atoms
                    (RelationalGraph.createCluster g name ids)).
    + unfold RelationalGraph.createCluster. simpl.
      apply createCluster_evolves.
    + apply (IH (RelationalGraph.createCluster g name ids)).
    + intros v v1 v'. apply same_core_trans.
    + reflexivity.
Qed.

Lemma evolves_all_get (V : Type) (R : V -> V -> Prop) (m m' : JsMap.t V) k :
  evolves (fun _ => true) R m m' ->
  match JsMap.get k m, JsMap.get k m' with
  | Some v, Some v' => R v v'
  | None, None => True
  | _, _ => False
  end.
Proof.
  intros H.
  destruct (JsMap.get k m) as [v|] eqn:E.
  - destruct (@evolves_get_forward _ _ _ _ _ _ _ H E eq_refl)
      as [v' [E' HR]].
    now rewrite E'.
  - destruct (JsMap.get k m') as [v'|] eqn:E'; auto.
    destruct (@evolves_get_backward _ _ _ _ _ _ _ H E') as [v [Ev _]].
    congruence.
Qed.

Lemma fromJSON_toJSON_evolves Math_log g c :
  graph_wfb g = true ->
  evolves (fun _ => true) same_core (RelationalGraph.atoms g)
    (RelationalGraph.atoms
       (fst (RelationalGraph.fromJSON (RelationalGraph.toJSON Math_log g) c))).
Proof.
  intros Hwf. destruct (graph_wfb_spec g Hwf) as [Hnd Hid].
  unfold RelationalGraph.fromJSON. unfold bind at 1.
  unfold RelationalGraph.constructor. unfold bind at 1.
  unfold Date_now at 1. cbv beta iota. unfold ret at 1. unfold bind.
  set (c1 := mkClock (reading c) (S (calls c))).
  set (g0 := RelationalGraph.mk JsMap.empty JsMap.empty _).
  destruct (@importAtoms_app Math_log (RelationalGraph.atoms g) g0 c1)
    as [es' [E F]].
  - exact Hnd.
  - apply Forall_forall. intros [k a] Hin. apply (Hid _ _ Hin).
  - simpl GraphData.atoms.
    destruct (RelationalGraph.importAtoms g0
                (map (SenseAtom.toJSON Math_log)
                   (JsMap.values (RelationalGraph.atoms g))) c1)
      as [g1 c2].
    unfold ret. cbn [fst] in E |- *.
    assert (E1 : RelationalGraph.atoms g1 = es') by exact E.
    eapply evolves_step
      with (keep1 := fun _ => true) (R1 := same_core)
           (m2 := RelationalGraph.atoms g1).
    + rewrite E1.
      assert (Hall : forall m : JsMap.t SenseAtom.t,
                filter (fun e => (fun _ : string => true) (fst e)) m = m).
      { induction m as [|e r IHm]; simpl; congruence. }
      unfold evolves. rewrite Hall. exact F.
    + apply (createClusters_evolves
               (GraphData.clusters (RelationalGraph.toJSON Math_log g)) g1).
    + intros v v1 v'. apply same_core_trans.
    + reflexivity.
Qed.

(** C4. For a graph as the class keeps it (distinct keys, every atom under
    its own id), [toJSON] followed by [fromJSON] gives a graph with the same
    number of atoms, under the same identities in the same order, in which
    every identity has the same weight and the same adjacency map (the same
    targets with the same strengths, kinds and creation times). *)
Theorem export_import_round_trip :
  forall (Math_log : Q -> Q) (g : RelationalGraph.t) (c : Clock),
    graph_wfb g = true ->
    let g' :=
      fst (RelationalGraph.fromJSON (RelationalGraph.toJSON Math_log g) c) in
    RelationalGraph.size g' = RelationalGraph.size g
    /\ JsMap.keys (RelationalGraph.atoms g')
       = JsMap.keys (RelationalGraph.atoms g)
    /\ (forall k,
          option_map SenseAtom.senseWeight
            (JsMap.get k (RelationalGraph.atoms g'))
          = option_map SenseAtom.senseWeight
              (JsMap.get k (RelationalGraph.atoms g)))
    /\ (forall k,
          option_map SenseAtom.connections
            (JsMap.get k (RelationalGraph.atoms g'))
          = option_map SenseAtom.connections
              (JsMap.get k (RelationalGraph.atoms g))).
Proof.
  intros Math_log g c Hwf g'.
  pose proof (fromJSON_toJSON_evolves Math_log g c Hwf) as He.
  fold g' in He.
  assert (Hk : JsMap.keys (RelationalGraph.atoms g')
               = JsMap.keys (RelationalGraph.atoms g)).
  { rewrite (evolves_keys He). apply filter_true. }
  split; [|split; [exact Hk|split]].
  - unfold RelationalGraph.size, JsMap.size. f_equal.
    apply (f_equal (@List.length string)) in Hk.
    unfold JsMap.keys in Hk. now rewrite !length_map in Hk.
  - intros k. pose proof (evolves_all_get k He) as H.
    destruct (JsMap.get k (RelationalGraph.atoms g)),
             (JsMap.get k (RelationalGraph.atoms g')); simpl;
      try contradiction; auto.
    destruct H as (_ & H & _). now rewrite H.
  - intros k. pose proof (evolves_all_get k He) as H.
    destruct (JsMap.get k (RelationalGraph.atoms g)),
             (JsMap.get k (RelationalGraph.atoms g')); simpl;
      try contradiction; auto.
    destruct H as (_ & _ & H). now rewrite H.
Qed.

Lemma export_import_round_trip_witness :
  let g' :=
    fst (RelationalGraph.fromJSON
           (RelationalGraph.toJSON exampleLog exampleGraph) exampleClock) in
  RelationalGraph.size g' = RelationalGraph.size exampleGraph
  /\ JsMap.keys (RelationalGraph.atoms g')
     = JsMap.keys (RelationalGraph.atoms exampleGraph)
  /\ (forall k,
        option_map SenseAtom.senseWeight
          (JsMap.get k (RelationalGraph.atoms g'))
        = option_map SenseAtom.senseWeight
            (JsMap.get k (RelationalGraph.atoms exampleGraph)))
  /\ (forall k,
        option_map SenseAtom.connections
          (JsMap.get k (RelationalGraph.atoms g'))
        = option_map SenseAtom.connections
            (JsMap.get k (RelationalGraph.atoms exampleGraph))).
Proof.
  apply (@export_import_round_trip exampleLog exampleGraph exampleClock).
  reflexivity.
Defined.

(** ** The Excitation Pass *)

Lemma filter_nil_existsb (A : Type) (f : A -> bool) (l : list A) :
  filter f l = [] <-> existsb f l = false.
Proof.
  induction l as [|x r IH]; simpl; [tauto|].
  destruct (f x); simpl; [split; discriminate | exact IH].
Qed.

Lemma overlap_intersects detected a :
  ExcitationEngine.overlap detected a = [] <-> intersects detected a = false.
Proof.
  unfold ExcitationEngine.overlap, intersects.
  destruct (SenseAtom.detectedPierwiastki a); [|tauto].
  apply filter_nil_existsb.
Qed.

Lemma exciteAtom_unfold detected a c :
  ExcitationEngine.exciteAtom detected a c
  = if intersects detected a
    then (Some
            (SenseAtom.set_lastAccessTime (reading c (calls c))
               (SenseAtom.set_senseWeight
                  (SenseAtom.senseWeight a
                   * (1 + ExcitationEngine.qlength
                            (ExcitationEngine.overlap detected a)
                          / ExcitationEngine.qlength detected)) a)),
          mkClock (reading c) (S (calls c)))
    else (None, c).
Proof.
  unfold ExcitationEngine.exciteAtom.
  destruct (intersects detected a) eqn:E.
  - destruct (ExcitationEngine.overlap detected a) eqn:Eo.
    + apply overlap_intersects in Eo. congruence.
    + reflexivity.
  - apply overlap_intersects in E. now rewrite E.
Qed.

Lemma excitation_effect_widen detected c0 c c' c1 a a' :
  clock_le c0 c -> clock_le c' c1 ->
  excitation_effect detected c c' a a' ->
  excitation_effect detected c0 c1 a a'.
Proof.
  unfold excitation_effect. intros H0 H1.
  destruct (intersects detected a); auto.
  intros [now [Hr ->]]. exists now. split; auto.
  eapply read_between_widen; eauto.
Qed.

Lemma exciteAll_evolves detected es :
  forall activated nsf c es' act' nsf' c',
    ExcitationEngine.exciteAll detected es activated nsf c
    = (es', act', nsf', c') ->
    Forall2 (fun e e' => fst e' = fst e
                         /\ excitation_effect detected c c' (snd e) (snd e'))
      es es'
    /\ clock_le c c'.
Proof.
  induction es as [|[k atom] rest IH];
    intros activated nsf c es' act' nsf' c'; simpl.
  - unfold ret. intros E. inversion E; subst.
    split; [constructor | apply clock_le_refl].
  - unfold bind at 1. rewrite exciteAtom_unfold.
    destruct (intersects detected atom) eqn:Ei.
    + set (c1 := mkClock (reading c) (S (calls c))).
      unfold bind.
      match goal with
      | |- context [ExcitationEngine.exciteAll detected rest ?act ?st c1] =>
          pose proof (IH act st c1) as IH1;
          destruct (ExcitationEngine.exciteAll detected rest act st c1)
            as [[[rest1 act1] nsf1] c2]
      end.
      destruct (IH1 _ _ _ _ eq_refl) as [He Hc].
      unfold ret. intros E. inversion E; subst.
      assert (Hc1 : clock_le c c1) by apply clock_le_tick.
      split; [|exact (clock_le_trans Hc1 Hc)].
      constructor.
      * split; [reflexivity|]. simpl. unfold excitation_effect.
        rewrite Ei. exists (reading c (calls c)). split; [|reflexivity].
        exists (calls c). split; [|reflexivity].
        destruct Hc as [_ Hc]. simpl in Hc. lia.
      * eapply Forall2_impl; [|exact He]. intros e e' [Hk Hx].
        split; auto.
        eapply excitation_effect_widen;
          [exact Hc1 | apply clock_le_refl | exact Hx].
    + unfold bind.
      match goal with
      | |- context [ExcitationEngine.exciteAll detected rest ?act ?st c] =>
          pose proof (IH act st c) as IH1;
          destruct (ExcitationEngine.exciteAll detected rest act st c)
            as [[[rest1 act1] nsf1] c2]
      end.
      destruct (IH1 _ _ _ _ eq_refl) as [He Hc].
      unfold ret. intros E. inversion E; subst.
      split; [|exact Hc].
      constructor; [|exact He].
      split; [reflexivity|]. simpl. unfold excitation_effect.
      now rewrite Ei.
Qed.

Lemma evolves_all_intro (V : Type) (R : V -> V -> Prop) (m m' : JsMap.t V) :
  Forall2 (fun e e' => fst e' = fst e /\ R (snd e) (snd e')) m m' ->
  evolves (fun _ => true) R m m'.
Proof.
  intros H. unfold evolves.
  replace (filter (fun e : string * V => (fun _ : string => true) (fst e)) m)
    with m; [exact H|].
  clear. induction m as [|e r IH]; simpl; congruence.
Qed.

Lemma detect_love toLowerCase query :
  ExcitationEngine.str_includes (toLowerCase query) "miłość" = true ->
  In "ALGORYTM_ZAKOCHANIA"
    (ExcitationEngine.detectPierwiastkiInQuery toLowerCase query).
Proof.
  intros H. unfold ExcitationEngine.detectPierwiastkiInQuery.
  unfold ExcitationEngine.keywordMap.
  cbn [filter snd existsb]. rewrite H. cbn [orb map fst]. now left.
Qed.

Lemma qlength_pos l : l <> [] -> 0 < ExcitationEngine.qlength l.
Proof.
  destruct l as [|x r]; [congruence|]. intros _.
  unfold ExcitationEngine.qlength, Qlt. simpl. lia.
Qed.

Lemma boost_increases w n d :
  0 < w -> 0 < n -> 0 < d -> w < w * (1 + n / d).
Proof.
  intros Hw Hn Hd.
  assert (H : 0 < n / d) by (apply Qlt_shift_div_l; [exact Hd | lra]).
  nra.
Qed.

(** C8. For a non-empty query, the Excitation Pass treats every atom of the
    graph as [excitation_effect] says: an atom whose elements meet the set
    derived from the query has its weight multiplied by
    1 + overlap / derived and its access time set to a reading of the clock
    taken during the pass, and nothing else changes; every other atom is
    left exactly as it was.  In particular, when the lower-cased query
    contains "miłość", an atom carrying ALGORYTM_ZAKOCHANIA is boosted (its
    weight grows when it was positive) and an atom whose elements do not
    meet the derived set is unchanged. *)
Theorem excitation_boosts_matching_atoms :
  forall (toLowerCase : string -> string) (g : RelationalGraph.t)
         (query : string) (nsf : NsfState.t) (c : Clock),
    query <> EmptyString ->
    let detected := ExcitationEngine.detectPierwiastkiInQuery toLowerCase
                      query in
    let r := ExcitationEngine.processContextExcitation toLowerCase g
               (Some query) nsf c in
    let g' := snd (fst (fst r)) in
    Forall2
      (fun e e' =>
         fst e' = fst e
         /\ excitation_effect detected c (snd r) (snd e) (snd e'))
      (RelationalGraph.atoms g) (RelationalGraph.atoms g')
    /\ (ExcitationEngine.str_includes (toLowerCase query) "miłość" = true ->
        forall kL aL l kU aU,
          JsMap.get kL (RelationalGraph.atoms g) = Some aL ->
          SenseAtom.detectedPierwiastki aL = Some l ->
          In "ALGORYTM_ZAKOCHANIA" l ->
          JsMap.get kU (RelationalGraph.atoms g) = Some aU ->
          intersects detected aU = false ->
          exists aL',
            JsMap.get kL (RelationalGraph.atoms g') = Some aL'
            /\ JsMap.get kU (RelationalGraph.atoms g') = Some aU
            /\ SenseAtom.senseWeight aL'
               = SenseAtom.senseWeight aL
                 * (1 + ExcitationEngine.qlength
                          (ExcitationEngine.overlap detected aL)
                        / ExcitationEngine.qlength detected)
            /\ (0 < SenseAtom.senseWeight aL ->
                SenseAtom.senseWeight aL < SenseAtom.senseWeight aL')).
Proof.
  intros toLowerCase g query nsf c Hq detected r g'.
  assert (Hall : Forall2
            (fun e e' =>
               fst e' = fst e
               /\ excitation_effect detected c (snd r) (snd e) (snd e'))
            (RelationalGraph.atoms g) (RelationalGraph.atoms g')).
  { subst g' r. destruct query as [|ch rest]; [congruence|].
    unfold ExcitationEngine.processContextExcitation. fold detected.
    unfold bind.
    destruct (ExcitationEngine.exciteAll detected (RelationalGraph.atoms g)
                [] nsf c) as [[[atoms1 act1] nsf1] c1] eqn:E.
    unfold ret. cbn [fst snd RelationalGraph.atoms RelationalGraph.set_atoms].
    exact (proj1 (exciteAll_evolves _ _ _ _ _ E)). }
  split; [exact Hall|].
  intros Hlove kL aL l kU aU HgL Hl Hin HgU HU.
  apply evolves_all_intro in Hall.
  destruct (@evolves_get_forward _ _ _ _ _ _ _ Hall HgL eq_refl)
    as [aL' [HgL' HeL]].
  destruct (@evolves_get_forward _ _ _ _ _ _ _ Hall HgU eq_refl)
    as [aU' [HgU' HeU]].
  unfold excitation_effect in HeL, HeU. rewrite HU in HeU. subst aU'.
  assert (Hd : In "ALGORYTM_ZAKOCHANIA" detected)
    by (apply detect_love; exact Hlove).
  assert (HiL : intersects detected aL = true).
  { unfold intersects. rewrite Hl. apply existsb_exists.
    exists "ALGORYTM_ZAKOCHANIA". split; [exact Hin|].
    now apply In_includes. }
  rewrite HiL in HeL. destruct HeL as [now [_ ->]].
  exists (SenseAtom.set_lastAccessTime now
            (SenseAtom.set_senseWeight
               (SenseAtom.senseWeight aL
                * (1 + ExcitationEngine.qlength
                         (ExcitationEngine.overlap detected aL)
                       / ExcitationEngine.qlength detected)) aL)).
  split; [exact HgL'|]. split; [exact HgU'|]. split; [reflexivity|].
  intros Hw. cbn [SenseAtom.senseWeight SenseAtom.set_lastAccessTime
                  SenseAtom.set_senseWeight].
  apply boost_increases; [exact Hw| |].
  - apply qlength_pos. intros Ho. apply overlap_intersects in Ho. congruence.
  - apply qlength_pos. intros Ho. rewrite Ho in Hd. contradiction.
Qed.

Lemma excitation_boosts_matching_atoms_witness :
  let g' :=
    snd (fst (fst (ExcitationEngine.processContextExcitation asciiLower
                     loveGraph (Some loveQuery) NsfState.initial
                     exampleClock))) in
  exists aL aU aL',
    JsMap.get "love_001" (RelationalGraph.atoms loveGraph) = Some aL
    /\ JsMap.get "cognition_001" (RelationalGraph.atoms loveGraph) = Some aU
    /\ JsMap.get "love_001" (RelationalGraph.atoms g') = Some aL'
    /\ JsMap.get "cognition_001" (RelationalGraph.atoms g') = Some aU
    /\ SenseAtom.senseWeight aL < SenseAtom.senseWeight aL'.
Proof.
  intros g'.
  assert (EL : exists aL,
             JsMap.get "love_001" (RelationalGraph.atoms loveGraph) = Some aL
             /\ SenseAtom.detectedPierwiastki aL
                = Some ["ALGORYTM_ZAKOCHANIA"; "PIERWIASTEK_MILOSCI"]
             /\ 0 < SenseAtom.senseWeight aL).
  { eexists. repeat split. }
  assert (EU : exists aU,
             JsMap.get "cognition_001" (RelationalGraph.atoms loveGraph)
             = Some aU
             /\ intersects
                  (ExcitationEngine.detectPierwiastkiInQuery asciiLower
                     loveQuery) aU = false).
  { eexists. split; [reflexivity|]. vm_compute. reflexivity. }
  destruct EL as [aL [HgL [Hl Hw]]]. destruct EU as [aU [HgU HU]].
  assert (Hq : loveQuery <> EmptyString) by discriminate.
  assert (Hlove : ExcitationEngine.str_includes (asciiLower loveQuery)
                    "miłość" = true) by (vm_compute; reflexivity).
  destruct (proj2 (@excitation_boosts_matching_atoms asciiLower loveGraph
                     loveQuery NsfState.initial exampleClock Hq)
              Hlove "love_001" aL _ "cognition_001" aU HgL Hl
              (or_introl eq_refl) HgU HU)
    as [aL' [HgL' [HgU' [_ Hgrow]]]].
  exists aL, aU, aL'. repeat split; auto.
Defined.

(** The same pass, run: the weight 2.5 of the love atom becomes 5, the
    weight 1.8 of the other atom stays. *)
Example excitation_love_run :
  map (fun e => (fst e, Qred (SenseAtom.senseWeight (snd e))))
    (RelationalGraph.atoms
       (snd (fst (fst (ExcitationEngine.processContextExcitation asciiLower
                         loveGraph (Some loveQuery) NsfState.initial
                         exampleClock)))))
  = [("love_001", 5 # 1); ("cognition_001", 9 # 5)].
Proof. vm_compute. reflexivity. Qed.

(** ** optimize *)

(** C5, as stated, fails.  In [oneWayGraph] the atom "a" still has an edge
    to "b" while the atom stored under "b" has none.  The first [optimize]
    removes "b" only, and with it the last edge of "a"; the second one
    removes "a": 1 atom after one run, 0 after two. *)
Lemma optimize_twice_counterexample :
  ~ (forall (g : RelationalGraph.t) (c : Clock),
       let r1 := RelationalGraph.optimize g c in
       let r2 := RelationalGraph.optimize (fst r1) (snd r1) in
       RelationalGraph.size (fst r2) = RelationalGraph.size (fst r1)
       /\ edgeCount (fst r2) = edgeCount (fst r1)).
Proof.
  intros H. destruct (H oneWayGraph exampleClock) as [Hsize _].
  vm_compute in Hsize. discriminate Hsize.
Qed.

Example optimize_twice_run :
  let r1 := RelationalGraph.optimize oneWayGraph exampleClock in
  let r2 := RelationalGraph.optimize (fst r1) (snd r1) in
  JsMap.keys (RelationalGraph.atoms oneWayGraph) = ["a"; "b"]
  /\ JsMap.keys (RelationalGraph.atoms (fst r1)) = ["a"]
  /\ JsMap.keys (RelationalGraph.atoms (fst r2)) = [].
Proof. vm_compute. repeat split. Qed.

Lemma JsMap_delete_absent (V : Type) k (m : JsMap.t V) :
  ~ In k (JsMap.keys m) -> JsMap.delete k m = m.
Proof.
  intros H. unfold JsMap.delete. apply forallb_filter_id.
  apply forallb_forall. intros [k' v] Hin. simpl.
  apply negb_true_iff, String.eqb_neq. intros ->. apply H.
  unfold JsMap.keys. change k' with (fst (k', v)). now apply in_map.
Qed.

Lemma set_connections_same a :
  SenseAtom.set_connections (SenseAtom.connections a) a = a.
Proof. now destruct a. Qed.

Lemma fold_removeConnection l : forall a,
  fold_left (fun x targetId => snd (SenseAtom.removeConnection x targetId)) l a
  = SenseAtom.set_connections
      (filter (fun e => negb (DecayScheduler.includes l (fst e)))
         (SenseAtom.connections a)) a.
Proof.
  induction l as [|t r IH]; intros a; simpl.
  - rewrite forallb_filter_id; [now rewrite set_connections_same|].
    apply forallb_forall. reflexivity.
  - rewrite IH. unfold SenseAtom.removeConnection. cbn [snd].
    assert (E : filter
                  (fun e => negb (DecayScheduler.includes r (fst e)))
                  (JsMap.delete t (SenseAtom.connections a))
                = filter
                    (fun e => negb (DecayScheduler.includes (t :: r) (fst e)))
                    (SenseAtom.connections a)).
    { unfold JsMap.delete. rewrite filter_twice.
      apply filter_ext. intros [k v]. simpl.
      rewrite negb_orb. now rewrite (String.eqb_sym k t). }
    destruct a. cbn in *. now rewrite E.
Qed.

Lemma Qltb_compat x y z : x == y -> Qltb x z = Qltb y z.
Proof.
  intros H. unfold Qltb. f_equal.
  destruct (Qle_bool z x) eqn:E1, (Qle_bool z y) eqn:E2; auto.
  - apply Qle_bool_iff in E1. rewrite H in E1. apply Qle_bool_iff in E1.
    congruence.
  - apply Qle_bool_iff in E2. rewrite <- H in E2. apply Qle_bool_iff in E2.
    congruence.
Qed.

Lemma adjacency_symmetricb_spec g :
  adjacency_symmetricb g = true ->
  forall k a t conn,
    In (k, a) (RelationalGraph.atoms g) ->
    In (t, conn) (SenseAtom.connections a) ->
    exists b conn',
      JsMap.get t (RelationalGraph.atoms g) = Some b
      /\ JsMap.get k (SenseAtom.connections b) = Some conn'
      /\ ConnectionStrength.strength conn' == ConnectionStrength.strength conn.
Proof.
  unfold adjacency_symmetricb. intros H k a t conn Ha Hc.
  rewrite forallb_forall in H. specialize (H _ Ha). simpl in H.
  rewrite forallb_forall in H. specialize (H _ Hc).
  unfold mirroredb in H. simpl in H.
  destruct (JsMap.get t (RelationalGraph.atoms g)) as [b|]; [|discriminate].
  destruct (JsMap.get k (SenseAtom.connections b)) as [conn'|] eqn:E;
    [|discriminate].
  apply andb_true_iff in H. destruct H as [H _].
  apply Qeq_bool_iff in H. exists b, conn'. auto.
Qed.

Lemma weakConnections_In a t :
  In t (RelationalGraph.weakConnections a) <->
  exists conn, In (t, conn) (SenseAtom.connections a)
               /\ Qltb (ConnectionStrength.strength conn) 0.1 = true.
Proof.
  unfold RelationalGraph.weakConnections, JsMap.entries.
  rewrite in_map_iff. split.
  - intros [[t' conn] [E H]]. simpl in E. subst t'.
    apply filter_In in H. simpl in H. eauto.
  - intros [conn [H1 H2]]. exists (t, conn). split; auto.
    apply filter_In. auto.
Qed.

Lemma removeWeakConnections_unfold a :
  RelationalGraph.removeWeakConnections a
  = SenseAtom.set_connections
      (filter
         (fun e => negb (DecayScheduler.includes
                           (RelationalGraph.weakConnections a) (fst e)))
         (SenseAtom.connections a)) a.
Proof. apply fold_removeConnection. Qed.

Lemma removeWeakConnections_strong a t conn :
  In (t, conn) (SenseAtom.connections (RelationalGraph.removeWeakConnections a))
  -> In (t, conn) (SenseAtom.connections a)
     /\ Qltb (ConnectionStrength.strength conn) 0.1 = false.
Proof.
  rewrite removeWeakConnections_unfold. simpl. intros H.
  apply filter_In in H. destruct H as [H1 H2]. split; auto. simpl in H2.
  destruct (Qltb (ConnectionStrength.strength conn) 0.1) eqn:E; auto.
  apply negb_true_iff in H2.
  assert (Hin : In t (RelationalGraph.weakConnections a))
    by (apply weakConnections_In; eauto).
  apply In_includes in Hin. congruence.
Qed.

Lemma removeWeakConnections_keeps a t conn :
  JsMap.wf (SenseAtom.connections a) ->
  In (t, conn) (SenseAtom.connections a) ->
  Qltb (ConnectionStrength.strength conn) 0.1 = false ->
  In (t, conn)
    (SenseAtom.connections (RelationalGraph.removeWeakConnections a)).
Proof.
  intros Hwf Hin Hs. rewrite removeWeakConnections_unfold. simpl.
  apply filter_In. split; auto. simpl. apply negb_true_iff.
  destruct (DecayScheduler.includes (RelationalGraph.weakConnections a) t)
    eqn:E; auto.
  apply includes_In, weakConnections_In in E.
  destruct E as [conn2 [H2 Hw]].
  pose proof (@JsMap_In_get _ _ _ _ Hwf Hin) as G1.
  pose proof (@JsMap_In_get _ _ _ _ Hwf H2) as G2.
  rewrite G1 in G2. inversion G2; subst. congruence.
Qed.

Lemma removeWeakConnections_no_weak a :
  RelationalGraph.weakConnections (RelationalGraph.removeWeakConnections a)
  = [].
Proof.
  destruct (RelationalGraph.weakConnections
              (RelationalGraph.removeWeakConnections a)) as [|t r] eqn:E;
    auto.
  assert (H : In t (RelationalGraph.weakConnections
                      (RelationalGraph.removeWeakConnections a)))
    by (rewrite E; now left).
  apply weakConnections_In in H. destruct H as [conn [H1 H2]].
  apply removeWeakConnections_strong in H1. destruct H1 as [_ H1].
  congruence.
Qed.

Lemma removeWeakConnections_fixed a :
  RelationalGraph.weakConnections a = [] ->
  RelationalGraph.removeWeakConnections a = a.
Proof.
  intros H. unfold RelationalGraph.removeWeakConnections. now rewrite H.
Qed.

(** When none of the identities to remove is the target of an edge, removing
    them only drops their entries. *)
Lemma removeAtoms_isolated ids : forall g c,
  (forall id k b, In id ids -> In (k, b) (RelationalGraph.atoms g) ->
     ~ In id (JsMap.keys (SenseAtom.connections b))) ->
  RelationalGraph.atoms (fst (RelationalGraph.removeAtoms g ids c))
  = filter (fun e => negb (DecayScheduler.includes ids (fst e)))
      (RelationalGraph.atoms g).
Proof.
  induction ids as [|id rest IH]; intros g c Hiso; simpl.
  - symmetry. apply forallb_filter_id. apply forallb_forall. reflexivity.
  - unfold bind.
    assert (E : RelationalGraph.atoms
                  (snd (fst (RelationalGraph.removeAtom g id c)))
                = JsMap.delete id (RelationalGraph.atoms g)).
    { destruct (JsMap.has id (RelationalGraph.atoms g)) eqn:Eh.
      - destruct (removeAtom_present g id c Eh) as (_ & -> & _).
        f_equal. unfold JsMap.map_values.
        rewrite <- (map_id (RelationalGraph.atoms g)) at 2.
        apply map_ext_in. intros [k b] Hin. simpl. f_equal.
        rewrite JsMap_delete_absent; [apply set_connections_same|].
        apply (Hiso id k b); [now left | exact Hin].
      - assert (Hn : JsMap.get id (RelationalGraph.atoms g) = None).
        { unfold JsMap.has in Eh.
          now destruct (JsMap.get id (RelationalGraph.atoms g)). }
        rewrite (removeAtom_absent _ _ c Hn). simpl. symmetry.
        apply JsMap_delete_absent. now apply JsMap_get_None_keys. }
    destruct (RelationalGraph.removeAtom g id c) as [[removed g1] c1].
    simpl in E. cbv beta iota. rewrite IH.
    + rewrite E. unfold JsMap.delete. rewrite filter_twice.
      apply filter_ext. intros [k b]. simpl.
      rewrite negb_orb. now rewrite (String.eqb_sym k id).
    + intros id' k b Hid' Hin. rewrite E in Hin.
      apply JsMap_In_delete in Hin. destruct Hin as [Hin _].
      apply (Hiso id' k b); [now right | exact Hin].
Qed.

(** A graph whose edges are all strong and that has no isolated atom of low
    weight is left as it is. *)
Lemma optimize_fixed g c :
  (forall k a, In (k, a) (RelationalGraph.atoms g) ->
     RelationalGraph.weakConnections a = []
     /\ RelationalGraph.isIsolatedLowWeight a = false) ->
  RelationalGraph.atoms (fst (RelationalGraph.optimize g c))
  = RelationalGraph.atoms g.
Proof.
  intros H. unfold RelationalGraph.optimize. unfold bind.
  assert (E1 : JsMap.map_values RelationalGraph.removeWeakConnections
                 (RelationalGraph.atoms g) = RelationalGraph.atoms g).
  { unfold JsMap.map_values.
    rewrite <- (map_id (RelationalGraph.atoms g)) at 2.
    apply map_ext_in. intros [k a] Hin. simpl. f_equal.
    apply removeWeakConnections_fixed. apply (H k a Hin). }
  rewrite E1.
  assert (E2 : filter RelationalGraph.isIsolatedLowWeight
                 (JsMap.values (RelationalGraph.atoms g)) = []).
  { apply filter_nil_existsb.
    destruct (existsb RelationalGraph.isIsolatedLowWeight
                (JsMap.values (RelationalGraph.atoms g))) eqn:E; auto.
    apply existsb_exists in E. destruct E as [a [Ha Hl]].
    unfold JsMap.values in Ha. apply in_map_iff in Ha.
    destruct Ha as [[k a'] [Ea Ha]]. simpl in Ea. subst a'.
    destruct (H k a Ha) as [_ Hf]. congruence. }
  rewrite E2. simpl. now destruct g.
Qed.

Lemma isIsolatedLowWeight_no_connections a :
  RelationalGraph.isIsolatedLowWeight a = true ->
  SenseAtom.connections a = [].
Proof.
  unfold RelationalGraph.isIsolatedLowWeight, JsMap.size. intros H.
  apply andb_true_iff in H. destruct H as [H _].
  apply andb_true_iff in H. destruct H as [H _].
  destruct (SenseAtom.connections a); auto.
  apply Z.eqb_eq in H. cbn [List.length] in H. lia.
Qed.

Lemma removeWeakConnections_id a :
  SenseAtom.id (RelationalGraph.removeWeakConnections a) = SenseAtom.id a.
Proof. now rewrite removeWeakConnections_unfold. Qed.

(** On a graph with symmetric edges, [optimize] keeps the strong edges of
    every atom and drops exactly the atoms that are then isolated, of low
    weight and hardly activated. *)
Lemma optimize_result g c :
  graph_wfb g = true ->
  adjacency_symmetricb g = true ->
  RelationalGraph.atoms (fst (RelationalGraph.optimize g c))
  = filter (fun e => negb (RelationalGraph.isIsolatedLowWeight (snd e)))
      (JsMap.map_values RelationalGraph.removeWeakConnections
         (RelationalGraph.atoms g)).
Proof.
  intros Hwf Hsym. destruct (graph_wfb_spec g Hwf) as [Hnd Hid].
  pose proof (adjacency_symmetricb_spec g Hsym) as Hs.
  unfold RelationalGraph.optimize. unfold bind.
  set (m1 := JsMap.map_values RelationalGraph.removeWeakConnections
               (RelationalGraph.atoms g)).
  set (toRemove := map SenseAtom.id
                     (filter RelationalGraph.isIsolatedLowWeight
                        (JsMap.values m1))).
  (* the atoms of [m1] and where they come from *)
  assert (Hm1 : forall k b, In (k, b) m1 ->
            exists b0, In (k, b0) (RelationalGraph.atoms g)
                       /\ b = RelationalGraph.removeWeakConnections b0).
  { intros k b Hin. now apply JsMap_In_map_values in Hin. }
  assert (Hnd1 : JsMap.wf m1).
  { unfold JsMap.wf, m1. now rewrite JsMap_keys_map_values. }
  (* an identity to remove is the key of an atom without connections *)
  assert (Hrem : forall id, In id toRemove ->
            exists a0, In (id, a0) (RelationalGraph.atoms g)
                       /\ SenseAtom.connections
                            (RelationalGraph.removeWeakConnections a0) = []).
  { intros id Hin. apply in_map_iff in Hin. destruct Hin as [a [Ea Ha]].
    apply filter_In in Ha. destruct Ha as [Ha Hlow].
    unfold JsMap.values in Ha. apply in_map_iff in Ha.
    destruct Ha as [[k a'] [E Ha]]. simpl in E. subst a'.
    destruct (Hm1 k a Ha) as [a0 [Ha0 ->]].
    rewrite removeWeakConnections_id in Ea.
    destruct (Hid k a0 Ha0) as [Hk _]. exists a0. split.
    - congruence.
    - now apply isIsolatedLowWeight_no_connections. }
  assert (Hiso : forall id k b, In id toRemove -> In (k, b) m1 ->
            ~ In id (JsMap.keys (SenseAtom.connections b))).
  { intros id k b Hin Hb Hkey.
    destruct (Hrem id Hin) as [a0 [Ha0 Hempty]].
    destruct (Hm1 k b Hb) as [b0 [Hb0 ->]].
    unfold JsMap.keys in Hkey. apply in_map_iff in Hkey.
    destruct Hkey as [[t conn] [E Hc]]. simpl in E. subst t.
    apply removeWeakConnections_strong in Hc. destruct Hc as [Hc Hstrong].
    destruct (Hs k b0 id conn Hb0 Hc) as [a' [conn' [G1 [G2 Heq]]]].
    rewrite (@JsMap_In_get _ _ _ _ Hnd Ha0) in G1. inversion G1; subst a'.
    apply JsMap_get_In in G2.
    destruct (Hid id a0 Ha0) as [_ Hwfa].
    assert (Hin' : In (k, conn')
                     (SenseAtom.connections
                        (RelationalGraph.removeWeakConnections a0))).
    { apply removeWeakConnections_keeps; auto.
      now rewrite (Qltb_compat _ Heq). }
    rewrite Hempty in Hin'. contradiction. }
  pose proof (removeAtoms_isolated toRemove (RelationalGraph.set_atoms m1 g)
                c Hiso) as E.
  destruct (RelationalGraph.removeAtoms (RelationalGraph.set_atoms m1 g)
              toRemove c) as [g1 c1].
  simpl in E |- *. rewrite E.
  apply filter_ext_in. intros [k a] Hin. simpl. f_equal.
  destruct (Hm1 k a Hin) as [a0 [Ha0 Ea]].
  destruct (RelationalGraph.isIsolatedLowWeight a) eqn:El.
  - apply In_includes. unfold toRemove. apply in_map_iff. exists a. split.
    + rewrite Ea, removeWeakConnections_id. apply (Hid k a0 Ha0).
    + apply filter_In. split; auto. unfold JsMap.values.
      change a with (snd (k, a)). now apply in_map.
  - destruct (DecayScheduler.includes toRemove k) eqn:Ei; auto.
    apply includes_In in Ei. apply in_map_iff in Ei.
    destruct Ei as [a' [Ea' Ha']]. apply filter_In in Ha'.
    destruct Ha' as [Ha' Hl']. unfold JsMap.values in Ha'.
    apply in_map_iff in Ha'. destruct Ha' as [[k' a''] [E' Ha']].
    simpl in E'. subst a''.
    destruct (Hm1 k' a' Ha') as [a0' [Ha0' Ea0']].
    assert (k' = k).
    { rewrite Ea0', removeWeakConnections_id in Ea'.
      destruct (Hid k' a0' Ha0') as [Hk' _]. congruence. }
    subst k'.
    pose proof (@JsMap_In_get _ _ _ _ Hnd1 Hin) as G1.
    pose proof (@JsMap_In_get _ _ _ _ Hnd1 Ha') as G2.
    rewrite G1 in G2. inversion G2; subst. congruence.
Qed.

Lemma edgeCount_atoms g g' :
  RelationalGraph.atoms g' = RelationalGraph.atoms g ->
  RelationalGraph.size g' = RelationalGraph.size g
  /\ edgeCount g' = edgeCount g.
Proof.
  intros E. unfold RelationalGraph.size, edgeCount,
    RelationalGraph.getAllAtoms. now rewrite E.
Qed.

(** C5, amended.  On a graph with symmetric edges (every edge has its
    target in the graph, with a mirror edge of the same strength), a
    second [optimize] changes nothing in the atoms: the same atoms with the
    same edges, hence the same node count and the same edge count as after
    the first one. *)
Theorem optimize_twice_on_symmetric_graph :
  forall (g : RelationalGraph.t) (c : Clock),
    graph_wfb g = true ->
    adjacency_symmetricb g = true ->
    let r1 := RelationalGraph.optimize g c in
    let r2 := RelationalGraph.optimize (fst r1) (snd r1) in
    RelationalGraph.atoms (fst r2) = RelationalGraph.atoms (fst r1)
    /\ RelationalGraph.size (fst r2) = RelationalGraph.size (fst r1)
    /\ edgeCount (fst r2) = edgeCount (fst r1).
Proof.
  intros g c Hwf Hsym r1 r2.
  assert (E : RelationalGraph.atoms (fst r2) = RelationalGraph.atoms (fst r1)).
  { subst r2. apply optimize_fixed. intros k a Hin.
    subst r1. rewrite (optimize_result g c Hwf Hsym) in Hin.
    apply filter_In in Hin. destruct Hin as [Hin Hlow]. simpl in Hlow.
    apply JsMap_In_map_values in Hin. destruct Hin as [a0 [_ ->]].
    split; [apply removeWeakConnections_no_weak|].
    now apply negb_true_iff in Hlow. }
  split; [exact E|]. now apply edgeCount_atoms.
Qed.

Lemma optimize_twice_on_symmetric_graph_witness :
  let r1 := RelationalGraph.optimize symmetricGraph exampleClock in
  let r2 := RelationalGraph.optimize (fst r1) (snd r1) in
  RelationalGraph.atoms (fst r2) = RelationalGraph.atoms (fst r1)
  /\ RelationalGraph.size (fst r2) = RelationalGraph.size (fst r1)
  /\ edgeCount (fst r2) = edgeCount (fst r1).
Proof.
  apply (@optimize_twice_on_symmetric_graph symmetricGraph exampleClock).
  - reflexivity.
  - reflexivity.
Defined.

(** The first run on [symmetricGraph] drops the weak edge x - y and then the
    atom x; two atoms and two adjacency entries are left. *)
Example optimize_symmetric_run :
  let r1 := RelationalGraph.optimize symmetricGraph exampleClock in
  JsMap.keys (RelationalGraph.atoms symmetricGraph) = ["x"; "y"; "z"]
  /\ edgeCount symmetricGraph = 4%Z
  /\ JsMap.keys (RelationalGraph.atoms (fst r1)) = ["y"; "z"]
  /\ edgeCount (fst r1) = 2%Z.
Proof. vm_compute. repeat split. Qed.

(** * Further properties of the code *)

(** ** Sorting by descending weight *)

Section SortByWeight.
Variable A : Type.
Variable w : A -> Q.

Lemma In_firstn (n : nat) (l : list A) x : In x (firstn n l) -> In x l.
Proof.
  revert n. induction l as [|y r IH]; intros [|n]; simpl; try tauto.
  intros [H|H]; eauto.
Qed.

Lemma In_skipn (n : nat) (l : list A) x : In x (skipn n l) -> In x l.
Proof.
  revert n. induction l as [|y r IH]; intros [|n]; simpl; try tauto.
  intros H. right. eauto.
Qed.

Lemma insertByWeight_perm x l :
  Permutation (ExcitationEngine.insertByWeight w x l) (x :: l).
Proof.
  induction l as [|y r IH]; simpl; auto.
  destruct (Qle_bool (w y) (w x)); auto.
  eapply perm_trans; [apply perm_skip, IH|]. apply perm_swap.
Qed.

Lemma sortByWeight_perm l :
  Permutation (ExcitationEngine.sortByWeight w l) l.
Proof.
  induction l as [|x r IH]; simpl; auto.
  eapply perm_trans; [apply insertByWeight_perm|]. now apply perm_skip.
Qed.

Lemma insertByWeight_sorted x l :
  StronglySorted (fun x y : A => w y <= w x) l ->
  StronglySorted (fun x y : A => w y <= w x) (ExcitationEngine.insertByWeight w x l).
Proof.
  induction 1 as [|y r Hs IH Hall]; simpl.
  - repeat constructor.
  - destruct (Qle_bool (w y) (w x)) eqn:E.
    + apply Qle_bool_iff in E. constructor.
      * now constructor.
      * constructor; [exact E|].
        eapply Forall_impl; [|exact Hall]. intros z Hz.
        simpl in *. eapply Qle_trans; eauto.
    + constructor; [exact IH|].
      assert (Hyx : w x <= w y).
      { destruct (Qlt_le_dec (w x) (w y)) as [H|H].
        - now apply Qlt_le_weak.
        - apply Qle_bool_iff in H. congruence. }
      eapply Permutation_Forall;
        [apply Permutation_sym, insertByWeight_perm|].
      constructor; auto.
Qed.

Lemma sortByWeight_sorted l :
  StronglySorted (fun x y : A => w y <= w x) (ExcitationEngine.sortByWeight w l).
Proof.
  induction l as [|x r IH]; simpl; [constructor|].
  now apply insertByWeight_sorted.
Qed.

Lemma sortByWeight_In l x :
  In x (ExcitationEngine.sortByWeight w l) <-> In x l.
Proof.
  split; apply Permutation_in;
    [|apply Permutation_sym]; apply sortByWeight_perm.
Qed.

Lemma sortByWeight_length l :
  List.length (ExcitationEngine.sortByWeight w l) = List.length l.
Proof. apply Permutation_length, sortByWeight_perm. Qed.

End SortByWeight.

(** ** getStrongConnections, getTopAtoms *)

(** X1. [getStrongConnections(threshold)] lists exactly the adjacency
    entries whose strength is at least the threshold (0.5 when none is
    given), each with its target, strength and kind, in descending order of
    strength. *)
Theorem getStrongConnections_sorted_and_exact :
  forall (a : SenseAtom.t) (threshold : option Q),
    let t := match threshold with Some t => t | None => 0.5 end in
    let r := Queries.getStrongConnections a threshold in
    StronglySorted
      (fun x y => StrongConnection.strength y <= StrongConnection.strength x)
      r
    /\ (forall s,
          In s r <->
          exists conn,
            In (StrongConnection.id s, conn) (SenseAtom.connections a)
            /\ t <= ConnectionStrength.strength conn
            /\ StrongConnection.strength s = ConnectionStrength.strength conn
            /\ StrongConnection.type s = ConnectionStrength.type conn)
    /\ (List.length r <= List.length (SenseAtom.connections a))%nat.
Proof.
  intros a threshold t r. subst r. unfold Queries.getStrongConnections.
  fold t. split; [apply sortByWeight_sorted|]. split.
  - intros s. rewrite sortByWeight_In, in_map_iff. split.
    + intros [[k conn] [E H]]. apply filter_In in H. destruct H as [H1 H2].
      subst s. simpl in *. exists conn. repeat split; auto.
      now apply Qle_bool_iff.
    + intros [conn [H1 [H2 [H3 H4]]]]. exists (StrongConnection.id s, conn).
      split.
      * destruct s. simpl in *. now subst.
      * apply filter_In. split; auto. simpl. now apply Qle_bool_iff.
  - rewrite sortByWeight_length, length_map. apply filter_length_le.
Qed.

(** X2. [getTopAtoms(count)] returns min(count, size) atoms of the graph, in
    descending order of their overall strength, and none of the atoms left
    out is stronger than one returned. *)
Theorem getTopAtoms_top :
  forall (Math_log : Q -> Q) (g : RelationalGraph.t) (count : nat),
    let strength := SenseAtom.calculateOverallStrength Math_log in
    let r := Queries.getTopAtoms Math_log g (Some count) in
    List.length r = Nat.min count (List.length (RelationalGraph.atoms g))
    /\ StronglySorted (fun x y => strength y <= strength x) r
    /\ (forall a, In a r -> In a (RelationalGraph.getAllAtoms g))
    /\ exists rest,
         Permutation (r ++ rest) (RelationalGraph.getAllAtoms g)
         /\ forall x y, In x r -> In y rest -> strength y <= strength x.
Proof.
  intros Math_log g count strength r. subst r.
  unfold Queries.getTopAtoms, RelationalGraph.getAllAtoms.
  set (sorted := ExcitationEngine.sortByWeight
                   (SenseAtom.calculateOverallStrength Math_log)
                   (JsMap.values (RelationalGraph.atoms g))).
  assert (Hs : StronglySorted (fun x y => strength y <= strength x) sorted)
    by apply sortByWeight_sorted.
  assert (Hp : Permutation sorted (JsMap.values (RelationalGraph.atoms g)))
    by apply sortByWeight_perm.
  split; [|split; [|split]].
  - rewrite length_firstn. unfold sorted.
    rewrite sortByWeight_length. unfold JsMap.values.
    now rewrite length_map.
  - clear Hp. revert count.
    induction Hs as [|x l Hs IH Hall]; intros [|n]; simpl; try constructor.
    + apply IH.
    + rewrite Forall_forall in *. intros y Hy. apply Hall.
      eapply In_firstn; eauto.
  - intros a Ha. eapply Permutation_in; [exact Hp|].
    eapply In_firstn; eauto.
  - exists (skipn count sorted). rewrite firstn_skipn. split; [exact Hp|].
    clear Hp. revert count.
    induction Hs as [|z l Hs IH Hall]; intros [|n] x y; simpl; try tauto.
    intros [->|Hx] Hy.
    + rewrite Forall_forall in Hall. apply Hall.
      eapply In_skipn; eauto.
    + eapply IH; eauto.
Qed.

(** ** addAtom, the statistics, removeAtom, createConnection *)

Lemma JsMap_set_length (V : Type) k (v : V) (m : JsMap.t V) :
  List.length (JsMap.set k v m)
  = if JsMap.has k m then List.length m else S (List.length m).
Proof.
  unfold JsMap.has. induction m as [|[k' x] r IH]; simpl; auto.
  destruct (String.eqb k k'); simpl; auto.
  rewrite IH. now destruct (JsMap.get k r).
Qed.

Lemma JsMap_set_keys (V : Type) k (v : V) (m : JsMap.t V) :
  JsMap.keys (JsMap.set k v m)
  = if JsMap.has k m then JsMap.keys m else JsMap.keys m ++ [k].
Proof.
  unfold JsMap.has. induction m as [|[k' x] r IH]; simpl; auto.
  destruct (String.eqb k k'); simpl; auto.
  rewrite IH. now destruct (JsMap.get k r).
Qed.

(** X3. [addAtom] is an upsert: afterwards the atom is found under its id,
    every other identity is found as before, an id that was present keeps
    its place and the size, a new id goes last and the size grows by one;
    and the statistics count the atoms of the new graph. *)
Theorem addAtom_upsert :
  forall (g : RelationalGraph.t) (a : SenseAtom.t) (c : Clock),
    let g' := fst (RelationalGraph.addAtom g a c) in
    RelationalGraph.getAtom g' (SenseAtom.id a) = Some a
    /\ (forall k, k <> SenseAtom.id a ->
          RelationalGraph.getAtom g' k = RelationalGraph.getAtom g k)
    /\ JsMap.keys (RelationalGraph.atoms g')
       = (if JsMap.has (SenseAtom.id a) (RelationalGraph.atoms g)
          then JsMap.keys (RelationalGraph.atoms g)
          else JsMap.keys (RelationalGraph.atoms g) ++ [SenseAtom.id a])
    /\ RelationalGraph.size g'
       = (if JsMap.has (SenseAtom.id a) (RelationalGraph.atoms g)
          then RelationalGraph.size g else RelationalGraph.size g + 1)%Z
    /\ GraphStatistics.totalAtoms (RelationalGraph.statistics g')
       = RelationalGraph.size g'.
Proof.
  intros g a c g'. subst g'. unfold RelationalGraph.addAtom.
  unfold RelationalGraph.getAtom, RelationalGraph.size, JsMap.size.
  cbn [fst RelationalGraph.updateStatistics bind ret Date_now
       RelationalGraph.atoms RelationalGraph.set_atoms
       RelationalGraph.statistics GraphStatistics.totalAtoms].
  split; [apply JsMap_get_set_eq|].
  split; [intros k Hk; apply JsMap_get_set_neq; congruence|].
  split; [apply JsMap_set_keys|]. split; [|reflexivity].
  rewrite JsMap_set_length.
  destruct (JsMap.has (SenseAtom.id a) (RelationalGraph.atoms g)); lia.
Qed.

Lemma sumQ_acc (l : list Z) : forall acc : Q,
  fold_left Qplus (map inject_Z l) acc
  == acc + inject_Z (fold_left Z.add l 0%Z).
Proof.
  induction l as [|z r IH]; intros acc; simpl.
  - unfold inject_Z. ring.
  - rewrite IH.
    assert (E : forall r z,
              fold_left Z.add r z = (z + fold_left Z.add r 0)%Z).
    { clear. induction r as [|u r IHr]; intros z; simpl; [lia|].
      rewrite IHr. rewrite (IHr u). lia. }
    rewrite (E r z). rewrite inject_Z_plus. ring.
Qed.

Lemma updateStatistics_agree g c :
  statistics_agree (fst (RelationalGraph.updateStatistics g c)).
Proof.
  unfold statistics_agree, RelationalGraph.updateStatistics.
  cbn [fst bind ret Date_now RelationalGraph.atoms RelationalGraph.statistics
       RelationalGraph.size RelationalGraph.getAllAtoms
       GraphStatistics.totalAtoms GraphStatistics.totalConnections
       GraphStatistics.consolidatedAtoms GraphStatistics.averageWeight].
  split; [reflexivity|]. split; [|split; [reflexivity|]].
  - unfold edgeCount, RelationalGraph.sumQ, RelationalGraph.getAllAtoms.
    cbn [RelationalGraph.atoms]. rewrite <- map_map.
    pose proof (sumQ_acc
                  (map (fun x => JsMap.size (SenseAtom.connections x))
                     (JsMap.values (RelationalGraph.atoms g))) 0) as E.
    rewrite E. field.
  - intros H.
    replace (JsMap.size (RelationalGraph.atoms g) >? 0)%Z with true;
      [reflexivity|].
    symmetry. apply Z.gtb_lt. exact (Z.gt_lt _ _ H).
Qed.

Lemma createConnection_true_unfold g A B S K c :
  fst (fst (RelationalGraph.createConnection g A B S K c)) = true ->
  exists g0 c0,
    RelationalGraph.createConnection g A B S K c
    = (true, fst (RelationalGraph.updateStatistics g0 c0),
       snd (RelationalGraph.updateStatistics g0 c0)).
Proof.
  unfold RelationalGraph.createConnection.
  destruct (JsMap.get A (RelationalGraph.atoms g)) as [a|];
    [|discriminate].
  destruct (JsMap.get B (RelationalGraph.atoms g)) as [b|];
    [|discriminate].
  intros _. unfold bind at 1.
  destruct (RelationalGraph.mutate A _ (RelationalGraph.atoms g) c)
    as [atoms1 c1].
  unfold bind at 1.
  destruct (RelationalGraph.mutate B _ atoms1 c1) as [atoms2 c2].
  exists (RelationalGraph.set_atoms atoms2 g), c2. reflexivity.
Qed.

Lemma removeAtom_true_unfold g X c :
  fst (fst (RelationalGraph.removeAtom g X c)) = true ->
  exists g0,
    RelationalGraph.atoms g0
    = JsMap.delete X
        (JsMap.map_values
           (fun otherAtom => snd (SenseAtom.removeConnection otherAtom X))
           (RelationalGraph.atoms g))
    /\ RelationalGraph.statistics g0 = RelationalGraph.statistics g
    /\ RelationalGraph.removeAtom g X c
       = (true, fst (RelationalGraph.updateStatistics g0 c),
          snd (RelationalGraph.updateStatistics g0 c)).
Proof.
  unfold RelationalGraph.removeAtom.
  destruct (JsMap.get X (RelationalGraph.atoms g)) as [a|]; [|discriminate].
  destruct (JsMap.has X _) eqn:E; [|discriminate].
  intros _. eexists. split; [|split]; [| |reflexivity]; reflexivity.
Qed.

(** X4. After each method of the graph that changes it ([addAtom], a
    [createConnection] or a [removeAtom] that returns true, [optimize]) the
    statistics agree with the atoms: the number of atoms, half the number
    of adjacency entries, the number of atoms to consolidate, and the mean
    weight when the graph is not empty.  When [removeAtom] empties the
    graph the mean weight is not reset: it keeps its last value. *)
Theorem statistics_agree_after_mutation :
  forall (g : RelationalGraph.t) (c : Clock),
    (forall a, statistics_agree (fst (RelationalGraph.addAtom g a c)))
    /\ (forall A B S K,
          fst (fst (RelationalGraph.createConnection g A B S K c)) = true ->
          statistics_agree
            (snd (fst (RelationalGraph.createConnection g A B S K c))))
    /\ (forall X,
          fst (fst (RelationalGraph.removeAtom g X c)) = true ->
          let g' := snd (fst (RelationalGraph.removeAtom g X c)) in
          statistics_agree g'
          /\ (RelationalGraph.size g' = 0%Z ->
              GraphStatistics.averageWeight (RelationalGraph.statistics g')
              = GraphStatistics.averageWeight (RelationalGraph.statistics g)))
    /\ statistics_agree (fst (RelationalGraph.optimize g c)).
Proof.
  intros g c. split; [|split; [|split]].
  - intros a. apply updateStatistics_agree.
  - intros A B S K H.
    destruct (createConnection_true_unfold g A B S K c H) as [g0 [c0 ->]].
    apply updateStatistics_agree.
  - intros X H g'. subst g'.
    destruct (removeAtom_true_unfold g X c H) as [g0 [Ea [Es ->]]].
    split; [apply updateStatistics_agree|].
    cbn [fst snd]. unfold RelationalGraph.size.
    unfold RelationalGraph.updateStatistics.
    cbn [fst bind ret Date_now RelationalGraph.atoms
         RelationalGraph.statistics GraphStatistics.averageWeight].
    intros H0. rewrite H0. cbn [Z.gtb Z.compare]. now rewrite Es.
  - unfold RelationalGraph.optimize. unfold bind.
    destruct (RelationalGraph.removeAtoms _ _ c) as [g1 c1].
    apply updateStatistics_agree.
Qed.

Lemma filter_id_notin (l : list string) (X : string) :
  ~ In X l -> filter (fun k => negb (String.eqb X k)) l = l.
Proof.
  induction l as [|y r IH]; simpl; auto.
  intros H. destruct (String.eqb X y) eqn:E; simpl.
  - apply String.eqb_eq in E. subst y. tauto.
  - f_equal. apply IH. tauto.
Qed.

Lemma JsMap_keys_delete_filter (V : Type) (k : string) (m : JsMap.t V) :
  JsMap.keys (JsMap.delete k m)
  = filter (fun k' => negb (String.eqb k k')) (JsMap.keys m).
Proof.
  unfold JsMap.keys, JsMap.delete.
  induction m as [|[k0 v0] r IH]; simpl; auto.
  destruct (String.eqb k k0); simpl; now rewrite IH.
Qed.

Lemma JsSet_In_delete (X y : string) (s : JsSet.t) :
  y <> X -> (In y (JsSet.delete X s) <-> In y s).
Proof.
  intros Hne. unfold JsSet.delete. rewrite filter_In. split.
  - tauto.
  - intros H. split; auto. apply negb_true_iff, String.eqb_neq. congruence.
Qed.

(** X5. [removeAtom(X)] touches nothing but X: the other keys stay in their
    order; every other atom stays under its key and differs from its former
    self in its adjacency map only, where every entry to a target other
    than X is as before; every cluster stays under its name with the same
    members other than X.  This holds whether X is present or not. *)
Theorem removeAtom_frame :
  forall (g : RelationalGraph.t) (X : string) (c : Clock),
    let g' := snd (fst (RelationalGraph.removeAtom g X c)) in
    JsMap.keys (RelationalGraph.atoms g')
    = filter (fun k => negb (String.eqb X k))
        (JsMap.keys (RelationalGraph.atoms g))
    /\ (forall Y a,
          Y <> X -> RelationalGraph.getAtom g Y = Some a ->
          exists a',
            RelationalGraph.getAtom g' Y = Some a'
            /\ conn_only a a'
            /\ forall t, t <> X ->
                 JsMap.get t (SenseAtom.connections a')
                 = JsMap.get t (SenseAtom.connections a))
    /\ (forall name s,
          JsMap.get name (RelationalGraph.clusters g) = Some s ->
          exists s',
            JsMap.get name (RelationalGraph.clusters g') = Some s'
            /\ forall y, y <> X -> (In y s' <-> In y s)).
Proof.
  intros g X c g'. subst g'.
  destruct (JsMap.has X (RelationalGraph.atoms g)) eqn:E.
  - destruct (removeAtom_present g X c E) as (_ & Ha & Hc & _).
    unfold RelationalGraph.getAtom. rewrite Ha, Hc.
    split; [|split].
    + now rewrite JsMap_keys_delete_filter, JsMap_keys_map_values.
    + intros Y a HY G.
      exists (snd (SenseAtom.removeConnection a X)).
      rewrite JsMap_get_delete_neq by congruence.
      rewrite JsMap_get_map_values, G. split; [reflexivity|].
      split; [apply conn_only_removeConnection|].
      intros t Ht. simpl. apply JsMap_get_delete_neq. congruence.
    + intros name s G. exists (JsSet.delete X s).
      rewrite JsMap_get_map_values, G. split; [reflexivity|].
      intros y Hy. now apply JsSet_In_delete.
  - assert (Hn : JsMap.get X (RelationalGraph.atoms g) = None).
    { unfold JsMap.has in E.
      now destruct (JsMap.get X (RelationalGraph.atoms g)). }
    rewrite (removeAtom_absent _ _ c Hn). cbn [fst snd].
    split; [|split].
    + symmetry. apply filter_id_notin.
      now apply JsMap_get_None_keys.
    + intros Y a _ G. exists a. split; [exact G|].
      split; [apply conn_only_refl|reflexivity].
    + intros name s G. exists s. split; [exact G|tauto].
Qed.

Lemma JsMap_set_wf (V : Type) k (v : V) (m : JsMap.t V) :
  JsMap.wf m -> JsMap.wf (JsMap.set k v m).
Proof.
  unfold JsMap.wf. rewrite JsMap_set_keys. unfold JsMap.has.
  destruct (JsMap.get k m) eqn:E; auto.
  intros H. apply NoDup_app; auto.
  - repeat constructor. simpl. tauto.
  - intros x Hx [<-|[]]. revert Hx. now apply JsMap_get_None_keys.
Qed.

Lemma adjacency_frame_refl A B a : adjacency_frame A B a a.
Proof. split; [apply conn_only_refl|]. split; auto. Qed.

Lemma adjacency_frame_trans A B a b d :
  adjacency_frame A B a b -> adjacency_frame A B b d ->
  adjacency_frame A B a d.
Proof.
  intros (H1 & H2 & H3) (G1 & G2 & G3). split; [|split].
  - eapply conn_only_trans; eassumption.
  - intros t HA HB. rewrite G2, H2; auto.
  - auto.
Qed.

Lemma addConnection_frame A B a t S K c :
  t = A \/ t = B ->
  adjacency_frame A B a (fst (SenseAtom.addConnection a t S K c)).
Proof.
  intros Ht. unfold SenseAtom.addConnection. eff. split; [|split].
  - eexists. reflexivity.
  - intros t' HA HB. simpl. apply JsMap_get_set_neq.
    destruct Ht; congruence.
  - simpl. apply JsMap_set_wf.
Qed.

Lemma mutate_frame A B k f m c :
  (forall a c0, adjacency_frame A B a (fst (f a c0))) ->
  let m' := fst (RelationalGraph.mutate k f m c) in
  JsMap.keys m' = JsMap.keys m
  /\ forall Y a, JsMap.get Y m = Some a ->
       exists a', JsMap.get Y m' = Some a'
                  /\ adjacency_frame A B a a' /\ (Y <> k -> a' = a).
Proof.
  intros Hf m'. subst m'. destruct (JsMap.get k m) as [a0|] eqn:E.
  - rewrite (@mutate_present _ _ _ _ _ E). cbn [fst]. split.
    + rewrite JsMap_set_keys. unfold JsMap.has. now rewrite E.
    + intros Y a G. destruct (String.eqb k Y) eqn:EY.
      * apply String.eqb_eq in EY. subst Y.
        rewrite JsMap_get_set_eq. eexists. split; [reflexivity|].
        assert (a0 = a) by congruence. subst a0.
        split; [apply Hf|]. congruence.
      * apply String.eqb_neq in EY.
        rewrite JsMap_get_set_neq by exact EY.
        exists a. split; [exact G|].
        split; [apply adjacency_frame_refl|reflexivity].
  - unfold RelationalGraph.mutate. rewrite E. cbn [fst ret]. split; auto.
    intros Y a G. exists a. split; [exact G|].
    split; [apply adjacency_frame_refl|reflexivity].
Qed.

(** X6. [createConnection(A, B, S, K)], whether it succeeds or not, changes
    no key of the graph and no cluster; every atom stays under its key and
    differs from its former self in its adjacency map only; in that map the
    entries to targets other than A and B are as before and a repeated call
    overwrites the entry instead of adding a second one (no duplicate
    keys); an atom other than A and B is the same atom. *)
Theorem createConnection_frame :
  forall (g : RelationalGraph.t) (A B : string) (S : Q)
         (K : option ConnectionType) (c : Clock),
    let g' := snd (fst (RelationalGraph.createConnection g A B S K c)) in
    JsMap.keys (RelationalGraph.atoms g')
    = JsMap.keys (RelationalGraph.atoms g)
    /\ RelationalGraph.clusters g' = RelationalGraph.clusters g
    /\ forall Y a,
         RelationalGraph.getAtom g Y = Some a ->
         exists a',
           RelationalGraph.getAtom g' Y = Some a'
           /\ adjacency_frame A B a a'
           /\ (Y <> A -> Y <> B -> a' = a).
Proof.
  intros g A B S K c g'. subst g'. unfold RelationalGraph.getAtom.
  destruct (JsMap.get A (RelationalGraph.atoms g)) as [a0|] eqn:EA;
    [destruct (JsMap.get B (RelationalGraph.atoms g)) as [b0|] eqn:EB|].
  - remember (RelationalGraph.createConnection g A B S K c) as r eqn:Er.
    unfold RelationalGraph.createConnection in Er. rewrite EA, EB in Er.
    unfold bind in Er.
    set (f1 := fun sourceAtom : SenseAtom.t => _) in Er.
    pose proof (@mutate_frame A B A f1 (RelationalGraph.atoms g) c) as M1.
    destruct (RelationalGraph.mutate A f1 (RelationalGraph.atoms g) c)
      as [m1 c1].
    set (f2 := fun targetAtom : SenseAtom.t => _) in Er.
    pose proof (@mutate_frame A B B f2 m1 c1) as M2.
    destruct (RelationalGraph.mutate B f2 m1 c1) as [m2 c2].
    cbn [fst] in M1, M2.
    destruct M1 as [K1 F1].
    { intros a c0. subst f1. apply addConnection_frame. now right. }
    destruct M2 as [K2 F2].
    { intros a c0. subst f2. apply addConnection_frame. now left. }
    pose proof (updateStatistics_atoms (RelationalGraph.set_atoms m2 g) c2)
      as (U1 & U2 & _).
    destruct (RelationalGraph.updateStatistics
                (RelationalGraph.set_atoms m2 g) c2) as [g3 c3].
    subst r. cbn [fst snd ret] in *. rewrite U1, U2.
    cbn [RelationalGraph.atoms RelationalGraph.clusters
         RelationalGraph.set_atoms].
    split; [rewrite K2; exact K1|]. split; [reflexivity|].
    intros Y a G.
    destruct (F1 Y a G) as (a1 & G1 & R1 & I1).
    destruct (F2 Y a1 G1) as (a2 & G2 & R2 & I2).
    exists a2. split; [exact G2|].
    split; [eapply adjacency_frame_trans; eassumption|].
    intros HA HB. rewrite I2, I1; auto.
  - rewrite createConnection_absent by (now right). cbn [fst snd].
    split; [reflexivity|]. split; [reflexivity|].
    intros Y a G. exists a. split; [exact G|].
    split; [apply adjacency_frame_refl|reflexivity].
  - rewrite createConnection_absent by (now left). cbn [fst snd].
    split; [reflexivity|]. split; [reflexivity|].
    intros Y a G. exists a. split; [exact G|].
    split; [apply adjacency_frame_refl|reflexivity].
Qed.

(** ** createCluster *)

Lemma JsSet_has_In x s : JsSet.has x s = true <-> In x s.
Proof.
  unfold JsSet.has. rewrite existsb_exists. split.
  - intros [y [Hy E]]. apply String.eqb_eq in E. now subst y.
  - intros H. exists x. split; auto. apply String.eqb_refl.
Qed.

Lemma JsSet_add_spec x s :
  (NoDup s -> NoDup (JsSet.add x s))
  /\ forall y, In y (JsSet.add x s) <-> In y s \/ y = x.
Proof.
  unfold JsSet.add. destruct (JsSet.has x s) eqn:E.
  - apply JsSet_has_In in E. split; auto.
    intros y. split; [tauto|]. intros [H| ->]; auto.
  - assert (Hn : ~ In x s).
    { intros H. apply JsSet_has_In in H. congruence. }
    split.
    + intros H. apply NoDup_app; auto.
      * repeat constructor. simpl. tauto.
      * intros y Hy [<-|[]]. contradiction.
    + intros y. rewrite in_app_iff. simpl. intuition congruence.
Qed.

Lemma JsSet_fold_add_spec l : forall s,
  (NoDup s -> NoDup (fold_left (fun s x => JsSet.add x s) l s))
  /\ forall y, In y (fold_left (fun s x => JsSet.add x s) l s)
               <-> In y s \/ In y l.
Proof.
  induction l as [|x r IH]; intros s; simpl.
  - split; auto. intros y. tauto.
  - destruct (IH (JsSet.add x s)) as [N I].
    destruct (JsSet_add_spec x s) as [N0 I0]. split; auto.
    intros y. rewrite I, I0. intuition congruence.
Qed.

Lemma createCluster_fold_get name ids : forall m Y a,
  JsMap.get Y m = Some a ->
  JsMap.get Y
    (fold_left
       (fun m id =>
          match JsMap.get id m with
          | Some atom =>
              JsMap.set id
                (SenseAtom.set_clusters
                   (SenseAtom.clusters atom ++ [name]) atom) m
          | None => m
          end) ids m)
  = Some (SenseAtom.set_clusters
            (SenseAtom.clusters a
             ++ repeat name (count_occ string_dec ids Y)) a).
Proof.
  induction ids as [|id rest IH]; intros m Y a G.
  - simpl. rewrite app_nil_r, G. now destruct a.
  - cbn [fold_left count_occ]. destruct (string_dec id Y) as [->|Hne].
    + rewrite G. erewrite IH by apply JsMap_get_set_eq.
      cbn [repeat]. destruct a. cbn. now rewrite <- app_assoc.
    + apply IH. destruct (JsMap.get id m); auto.
      now rewrite JsMap_get_set_neq.
Qed.

Lemma createCluster_fold_keys name ids : forall m,
  JsMap.keys
    (fold_left
       (fun m id =>
          match JsMap.get id m with
          | Some atom =>
              JsMap.set id
                (SenseAtom.set_clusters
                   (SenseAtom.clusters atom ++ [name]) atom) m
          | None => m
          end) ids m)
  = JsMap.keys m.
Proof.
  induction ids as [|id rest IH]; intros m; simpl; auto.
  rewrite IH. destruct (JsMap.get id m) eqn:E; auto.
  rewrite JsMap_set_keys. unfold JsMap.has. now rewrite E.
Qed.

(** X7. [createCluster(name, atomIds)] stores under [name] the set of the
    listed identities, each once, whether or not an atom with that identity
    exists, and leaves the other clusters alone.  No atom is added or
    removed; an atom whose identity is listed n times has the name appended
    n times to its list of clusters, and nothing else changes in any atom.
    The statistics are not touched. *)
Theorem createCluster_effect :
  forall (g : RelationalGraph.t) (name : string) (atomIds : list string),
    let g' := RelationalGraph.createCluster g name atomIds in
    (exists s,
        JsMap.get name (RelationalGraph.clusters g') = Some s
        /\ NoDup s /\ forall x, In x s <-> In x atomIds)
    /\ (forall n, n <> name ->
          JsMap.get n (RelationalGraph.clusters g')
          = JsMap.get n (RelationalGraph.clusters g))
    /\ JsMap.keys (RelationalGraph.atoms g')
       = JsMap.keys (RelationalGraph.atoms g)
    /\ (forall Y a,
          RelationalGraph.getAtom g Y = Some a ->
          RelationalGraph.getAtom g' Y
          = Some (SenseAtom.set_clusters
                    (SenseAtom.clusters a
                     ++ repeat name (count_occ string_dec atomIds Y)) a))
    /\ RelationalGraph.statistics g' = RelationalGraph.statistics g.
Proof.
  intros g name atomIds g'. subst g'.
  unfold RelationalGraph.createCluster, RelationalGraph.getAtom.
  cbn [RelationalGraph.atoms RelationalGraph.clusters
       RelationalGraph.statistics].
  split; [|split; [|split; [|split]]].
  - exists (JsSet.of_list atomIds). split; [apply JsMap_get_set_eq|].
    unfold JsSet.of_list.
    destruct (JsSet_fold_add_spec atomIds JsSet.empty) as [N I].
    split; [apply N; constructor|].
    intros x. rewrite I. unfold JsSet.empty. simpl. tauto.
  - intros n Hn. apply JsMap_get_set_neq. congruence.
  - apply createCluster_fold_keys.
  - intros Y a G. now apply createCluster_fold_get.
  - reflexivity.
Qed.

(** ** optimize on any graph *)

Lemma Qltb_false_inv x y : Qltb x y = false -> y <= x.
Proof.
  unfold Qltb. intros H. apply negb_false_iff in H.
  now apply Qle_bool_iff.
Qed.

Lemma conn_sub_refl a : conn_sub a a.
Proof. split; [apply conn_only_refl | apply incl_refl]. Qed.

Lemma conn_sub_trans a b d : conn_sub a b -> conn_sub b d -> conn_sub a d.
Proof.
  intros [H1 H2] [G1 G2]. split.
  - eapply conn_only_trans; eassumption.
  - eapply incl_tran; eassumption.
Qed.

Lemma conn_sub_removeConnection a k :
  conn_sub a (snd (SenseAtom.removeConnection a k)).
Proof.
  split; [apply conn_only_removeConnection|].
  intros e He. simpl in He. unfold JsMap.delete in He.
  now apply filter_In in He.
Qed.

Lemma removeAtom_prunes g id c :
  evolves (fun k => negb (String.eqb id k)) conn_sub
    (RelationalGraph.atoms g)
    (RelationalGraph.atoms (snd (fst (RelationalGraph.removeAtom g id c)))).
Proof.
  destruct (JsMap.has id (RelationalGraph.atoms g)) eqn:E.
  - destruct (removeAtom_present g id c E) as (_ & -> & _).
    eapply evolves_step.
    + apply evolves_map_values.
    + apply evolves_delete.
    + intros v v1 v' -> <-. apply conn_sub_removeConnection.
    + reflexivity.
  - assert (Hn : JsMap.get id (RelationalGraph.atoms g) = None).
    { unfold JsMap.has in E.
      now destruct (JsMap.get id (RelationalGraph.atoms g)). }
    rewrite (removeAtom_absent _ _ c Hn). simpl.
    eapply evolves_keep_ext; [|apply evolves_refl, conn_sub_refl].
    intros k Hk. simpl. symmetry. apply negb_true_iff, String.eqb_neq.
    intros ->. apply JsMap_get_None_keys in Hn. contradiction.
Qed.

Lemma removeAtoms_prunes ids : forall g c,
  evolves (fun k => negb (DecayScheduler.includes ids k)) conn_sub
    (RelationalGraph.atoms g)
    (RelationalGraph.atoms (fst (RelationalGraph.removeAtoms g ids c))).
Proof.
  induction ids as [|id rest IH]; intros g c; simpl.
  - apply evolves_refl, conn_sub_refl.
  - unfold bind.
    pose proof (removeAtom_prunes g id c) as He.
    destruct (RelationalGraph.removeAtom g id c) as [[removed g1] c1].
    simpl in He.
    eapply evolves_step; [exact He | apply IH | |].
    + intros v v1 v'. apply conn_sub_trans.
    + intros k _. simpl. rewrite negb_orb.
      now rewrite (String.eqb_sym k id).
Qed.

Lemma removeWeakConnections_sub a :
  conn_sub a (RelationalGraph.removeWeakConnections a).
Proof.
  split; [apply removeWeakConnections_conn_only|].
  intros [t conn] H. now apply removeWeakConnections_strong in H.
Qed.

Lemma optimize_prunes_evolves g c :
  let atoms1 :=
    JsMap.map_values RelationalGraph.removeWeakConnections
      (RelationalGraph.atoms g) in
  let toRemove :=
    map SenseAtom.id
      (filter RelationalGraph.isIsolatedLowWeight (JsMap.values atoms1)) in
  evolves (fun k => negb (DecayScheduler.includes toRemove k))
    (fun a a' =>
       conn_sub a a'
       /\ forall t conn, In (t, conn) (SenseAtom.connections a') ->
            0.1 <= ConnectionStrength.strength conn)
    (RelationalGraph.atoms g)
    (RelationalGraph.atoms (fst (RelationalGraph.optimize g c))).
Proof.
  intros atoms1 toRemove. unfold RelationalGraph.optimize. fold atoms1.
  fold toRemove. unfold bind.
  pose proof (removeAtoms_prunes toRemove
                (RelationalGraph.set_atoms atoms1 g) c) as He.
  destruct (RelationalGraph.removeAtoms (RelationalGraph.set_atoms atoms1 g)
              toRemove c) as [g1 c1].
  simpl in He.
  eapply evolves_step;
    [apply evolves_map_values | exact He | | reflexivity].
  intros v v1 v' -> H. split.
  - eapply conn_sub_trans; [|exact H]. apply removeWeakConnections_sub.
  - intros t conn Hin. destruct H as [_ H]. apply H in Hin.
    apply removeWeakConnections_strong in Hin.
    now apply Qltb_false_inv.
Qed.

(** X8. [optimize()] on any graph: every atom of the result was in the
    graph under the same key and differs from its former self in its
    adjacency map only, which has lost entries and gained none; no entry of
    strength below 0.1 is left anywhere; the keys that remain keep their
    order and the graph does not grow. *)
Theorem optimize_prunes :
  forall (g : RelationalGraph.t) (c : Clock),
    let g' := fst (RelationalGraph.optimize g c) in
    (forall k a',
        In (k, a') (RelationalGraph.atoms g') ->
        exists a,
          In (k, a) (RelationalGraph.atoms g)
          /\ conn_sub a a'
          /\ forall t conn, In (t, conn) (SenseAtom.connections a') ->
               0.1 <= ConnectionStrength.strength conn)
    /\ (exists keep,
          JsMap.keys (RelationalGraph.atoms g')
          = filter keep (JsMap.keys (RelationalGraph.atoms g)))
    /\ (RelationalGraph.size g' <= RelationalGraph.size g)%Z.
Proof.
  intros g c g'. subst g'.
  pose proof (optimize_prunes_evolves g c) as He. cbv zeta in He.
  split; [|split].
  - intros k a' Hin.
    destruct (@evolves_In _ _ _ _ _ _ _ He Hin) as (a & Ha & _ & HR1 & HR2).
    exists a. auto.
  - eexists. eapply evolves_keys. exact He.
  - unfold RelationalGraph.size, JsMap.size.
    apply evolves_length in He. lia.
Qed.

(** X9. In a graph whose atoms are stored under their own identities, with
    no duplicate keys, [optimize()] never removes an atom whose weight is at
    least 0.1, or that has been activated at least twice, or that has a
    connection of strength at least 0.1. *)
Theorem optimize_keeps :
  forall (g : RelationalGraph.t) (c : Clock) (k : string) (a : SenseAtom.t),
    graph_wfb g = true ->
    RelationalGraph.getAtom g k = Some a ->
    (0.1 <= SenseAtom.senseWeight a
     \/ (2 <= SenseAtom.totalActivations a)%Z
     \/ exists t conn, In (t, conn) (SenseAtom.connections a)
                       /\ 0.1 <= ConnectionStrength.strength conn) ->
    exists a',
      RelationalGraph.getAtom (fst (RelationalGraph.optimize g c)) k = Some a'
      /\ conn_sub a a'.
Proof.
  intros g c k a Hwf G Hc. unfold RelationalGraph.getAtom in *.
  destruct (graph_wfb_spec g Hwf) as [Hnd Hat].
  pose proof (optimize_prunes_evolves g c) as He. cbv zeta in He.
  assert (Hiso : RelationalGraph.isIsolatedLowWeight
                   (RelationalGraph.removeWeakConnections a) = false).
  { unfold RelationalGraph.isIsolatedLowWeight.
    destruct Hc as [Hw|[Hn|[t [conn [Hin Hs]]]]].
    - destruct (removeWeakConnections_conn_only a) as [m ->].
      cbn [SenseAtom.senseWeight SenseAtom.set_connections].
      rewrite (Qltb_false Hw). now rewrite andb_false_r.
    - destruct (removeWeakConnections_conn_only a) as [m ->].
      cbn [SenseAtom.totalActivations SenseAtom.set_connections].
      apply andb_false_intro2. apply Z.ltb_ge. exact Hn.
    - assert (Hk : In (t, conn)
                     (SenseAtom.connections
                        (RelationalGraph.removeWeakConnections a))).
      { apply removeWeakConnections_keeps; auto.
        - apply (Hat k a). now apply JsMap_get_In.
        - now apply Qltb_false. }
      assert (E0 : (JsMap.size
                      (SenseAtom.connections
                         (RelationalGraph.removeWeakConnections a)) =? 0)%Z
                   = false).
      { apply Z.eqb_neq. unfold JsMap.size.
        destruct (SenseAtom.connections
                    (RelationalGraph.removeWeakConnections a));
          [contradiction|].
        cbn [List.length]. lia. }
      now rewrite E0. }
  destruct (@evolves_get_forward _ _ _ _ _ _ _ He G) as (a' & G' & HR & _).
  - apply negb_true_iff.
    destruct (DecayScheduler.includes _ k) eqn:Ei; auto.
    apply includes_In in Ei. apply in_map_iff in Ei.
    destruct Ei as [b [Hid Hb]]. apply filter_In in Hb.
    destruct Hb as [Hb Hiso'].
    unfold JsMap.values in Hb. apply in_map_iff in Hb.
    destruct Hb as [[k0 b0] [Eb Hb]]. simpl in Eb. subst b0.
    apply JsMap_In_map_values in Hb. destruct Hb as [a0 [Hin ->]].
    destruct (Hat k0 a0 Hin) as [Hid0 _].
    destruct (removeWeakConnections_conn_only a0) as [m E].
    assert (Hk0 : k0 = k).
    { rewrite <- Hid0, <- Hid, E. now destruct a0. }
    subst k0. apply JsMap_In_get in Hin; [|exact Hnd].
    rewrite Hk0 in Hin.
    assert (a0 = a) by congruence. subst a0. congruence.
  - exists a'. auto.
Qed.

Lemma optimize_keeps_witness :
  exists a a',
    RelationalGraph.getAtom symmetricGraph "z" = Some a
    /\ RelationalGraph.getAtom
         (fst (RelationalGraph.optimize symmetricGraph exampleClock)) "z"
       = Some a'
    /\ conn_sub a a'.
Proof.
  assert (G : exists a,
             RelationalGraph.getAtom symmetricGraph "z" = Some a
             /\ Qle_bool 0.1 (SenseAtom.senseWeight a) = true)
    by (eexists; split; vm_compute; reflexivity).
  destruct G as [a [G W]].
  destruct (@optimize_keeps symmetricGraph exampleClock "z" a)
    as [a' [G' S]].
  - reflexivity.
  - exact G.
  - left. apply Qle_bool_iff. exact W.
  - exists a, a'. auto.
Defined.

(** ** The decay rate *)

Lemma Math_min_le_l x y : Math_min x y <= x.
Proof.
  unfold Math_min. destruct (Qle_bool x y) eqn:E; [apply Qle_refl|].
  destruct (Qlt_le_dec y x) as [H|H]; [now apply Qlt_le_weak|].
  apply Qle_bool_iff in H. congruence.
Qed.

Lemma Math_min_le_r x y : Math_min x y <= y.
Proof.
  unfold Math_min. destruct (Qle_bool x y) eqn:E; [|apply Qle_refl].
  now apply Qle_bool_iff.
Qed.

Lemma Math_min_glb x y z : z <= x -> z <= y -> z <= Math_min x y.
Proof. unfold Math_min. now destruct (Qle_bool x y). Qed.

Lemma NS_WEIGHTS_decayModifier k d :
  JsMap.get k NS_WEIGHTS = Some d -> 0 <= NeuroSemanticWeight.decayModifier d.
Proof.
  intros G. apply JsMap_get_In in G.
  assert (H : forallb
                (fun e => Qle_bool 0 (NeuroSemanticWeight.decayModifier (snd e)))
                NS_WEIGHTS = true) by reflexivity.
  rewrite forallb_forall in H. apply H in G. now apply Qle_bool_iff.
Qed.















(** ** Protection from removal *)

Lemma includes_In_iff l x : DecayScheduler.includes l x = true <-> In x l.
Proof. split; [apply includes_In | apply In_includes]. Qed.

(** X12. [processAtomDecay] never marks for removal an atom of HIGH or
    EXTREME emotional level, an atom that carries one of the critical
    elements (ISKRA_ZYCIA, SEKUNDNIK, PIERWIASTEK_MILOSCI), an atom with
    five or more connections, or an atom consolidated less than 24 hours
    before the clock is read for it, however low its weight has fallen. *)
Theorem protected_atoms_not_marked :
  forall (this : DecayScheduler.t) (a : SenseAtom.t) (c : Clock),
    (SenseAtom.amygdalaActivationLevel a = Some HIGH
     \/ SenseAtom.amygdalaActivationLevel a = Some EXTREME
     \/ (exists l e, SenseAtom.detectedPierwiastki a = Some l /\ In e l
                     /\ In e DecayScheduler.criticalElements)
     \/ (5 <= JsMap.size (SenseAtom.connections a))%Z
     \/ (exists t, SenseAtom.consolidationTime a = Some t /\ t <> 0%Z
                   /\ (reading c (S (calls c)) - t < 24 * 60 * 60 * 1000)%Z))
    ->
    DecayResult.shouldRemove
      (fst (fst (DecayScheduler.processAtomDecay this a c))) = false.
Proof.
  intros this a c H. rewrite processAtomDecay_unfold. cbv zeta.
  cbn [fst DecayResult.shouldRemove].
  destruct (Qltb _ _); [|reflexivity]. cbn [fst].
  apply negb_false_iff.
  unfold DecayScheduler.isProtectedFromRemoval, decayedAtom.
  destruct a as [id label createdAt w bw dr dp pp np lat ct ta am conn cl tg os].
  cbn [SenseAtom.amygdalaActivationLevel SenseAtom.detectedPierwiastki
       SenseAtom.connections SenseAtom.consolidationTime
       SenseAtom.set_senseWeight] in *.
  destruct H as [H|[H|[H|[H|H]]]].
  - subst am. reflexivity.
  - subst am. reflexivity.
  - destruct H as (l & e & -> & Hin & Hc).
    assert (Hx : existsb
                   (DecayScheduler.includes DecayScheduler.criticalElements) l
                 = true).
    { apply existsb_exists. exists e. split; [exact Hin|].
      now apply In_includes. }
    rewrite Hx. now destruct am as [[]|].
  - assert (Hx : (JsMap.size conn >=? 5)%Z = true) by (apply Z.geb_le; lia).
    rewrite Hx.
    destruct am as [[]|]; try reflexivity;
      destruct dp as [l|]; try reflexivity;
      destruct (existsb _ l); reflexivity.
  - destruct H as (t & -> & Ht & Hlt).
    assert (Hx : SenseAtom.truthy (Some t) = true).
    { unfold SenseAtom.truthy. apply negb_true_iff. now apply Z.eqb_neq. }
    assert (Hy : (reading c (S (calls c)) - t <? 24 * 60 * 60 * 1000)%Z
                 = true) by (apply Z.ltb_lt; exact Hlt).
    rewrite Hx.
    destruct am as [[]|]; try reflexivity;
      destruct dp as [l|]; try reflexivity;
      try (destruct (existsb _ l); try reflexivity);
      destruct (JsMap.size conn >=? 5)%Z; try reflexivity;
      unfold bind, Date_now, ret; cbn [reading calls fst];
      exact Hy.
Qed.

Lemma protected_atoms_not_marked_witness :
  DecayResult.shouldRemove
    (fst (fst (DecayScheduler.processAtomDecay DecayScheduler.constructor
                 emotionalAtom exampleClock))) = false.
Proof.
  apply (@protected_atoms_not_marked DecayScheduler.constructor emotionalAtom
           exampleClock).
  left. reflexivity.
Defined.

(** ** What a Decay Pass may drop *)





(** ** Promotion by a Decay Pass *)








(** ** The atoms that an Excitation Pass returns *)

Lemma exciteAll_activated detected es :
  forall activated nsf c es' act' nsf' c',
    ExcitationEngine.exciteAll detected es activated nsf c
    = (es', act', nsf', c') ->
    let excited := filter (intersects detected) (JsMap.values es') in
    act' = activated ++ excited
    /\ NsfState.activeAtoms nsf'
       = fold_left (fun s x => JsSet.add x s) (map SenseAtom.id excited)
           (NsfState.activeAtoms nsf)
    /\ (excited = [] -> es' = es /\ nsf' = nsf /\ c' = c)
    /\ (existsb (intersects detected) (JsMap.values es) = false ->
        excited = []).
Proof.
  induction es as [|[k atom] rest IH];
    intros activated nsf c es' act' nsf' c'; simpl.
  - unfold ret. intros E. inversion E; subst. simpl.
    rewrite app_nil_r. repeat split; auto.
  - unfold bind at 1. rewrite exciteAtom_unfold.
    destruct (intersects detected atom) eqn:Ei.
    + set (c1 := mkClock (reading c) (S (calls c))).
      unfold bind.
      match goal with
      | |- context [ExcitationEngine.exciteAll detected rest ?act ?st c1] =>
          pose proof (IH act st c1) as IH1;
          destruct (ExcitationEngine.exciteAll detected rest act st c1)
            as [[[rest1 act1] nsf1] c2]
      end.
      destruct (IH1 _ _ _ _ eq_refl) as (Ha & Hn & _).
      unfold ret. intros E. inversion E; subst. clear E.
      cbn [JsMap.values map snd filter].
      assert (Hx : intersects detected
                     (SenseAtom.set_lastAccessTime (reading c (calls c))
                        (SenseAtom.set_senseWeight
                           (SenseAtom.senseWeight atom
                            * (1 + ExcitationEngine.qlength
                                     (ExcitationEngine.overlap detected atom)
                                   / ExcitationEngine.qlength detected))
                           atom)) = true) by exact Ei.
      rewrite Hx. fold (JsMap.values rest1).
      split; [now rewrite <- app_assoc|].
      split; [exact Hn|]. split; discriminate.
    + unfold bind.
      match goal with
      | |- context [ExcitationEngine.exciteAll detected rest ?act ?st c] =>
          pose proof (IH act st c) as IH1;
          destruct (ExcitationEngine.exciteAll detected rest act st c)
            as [[[rest1 act1] nsf1] c2]
      end.
      destruct (IH1 _ _ _ _ eq_refl) as (Ha & Hn & Hid & Hno).
      unfold ret. intros E. inversion E; subst. clear E.
      cbn [JsMap.values map snd filter]. rewrite Ei.
      fold (JsMap.values rest1). fold (JsMap.values rest).
      split; [reflexivity|]. split; [exact Hn|]. split.
      * intros H0. destruct (Hid H0) as (-> & -> & ->). auto.
      * cbn [orb]. exact Hno.
Qed.

Lemma detected_nil_intersects a : intersects [] a = false.
Proof.
  unfold intersects. destruct (SenseAtom.detectedPierwiastki a) as [l|]; auto.
  induction l; simpl; auto.
Qed.

(** X14. With a query that is not empty, the Excitation Pass returns
    exactly the atoms of the graph whose elements meet the elements derived
    from the query, each once, ordered by descending weight after the
    boost; the identities of these atoms, and no others, are added to the
    active set, which keeps no duplicates.  If no atom matches, the graph,
    the state and the clock are untouched and the result is empty; this is
    so whenever the query contains none of the keywords. *)
Theorem excitation_returns_activated :
  forall (toLowerCase : string -> string) (g : RelationalGraph.t)
         (query : string) (nsf : NsfState.t) (c : Clock),
    query <> EmptyString ->
    let detected := ExcitationEngine.detectPierwiastkiInQuery toLowerCase
                      query in
    let r := ExcitationEngine.processContextExcitation toLowerCase g
               (Some query) nsf c in
    let out := fst (fst (fst r)) in
    let g' := snd (fst (fst r)) in
    let nsf' := snd (fst r) in
    Permutation out
      (filter (intersects detected) (RelationalGraph.getAllAtoms g'))
    /\ StronglySorted
         (fun x y => SenseAtom.senseWeight y <= SenseAtom.senseWeight x) out
    /\ (forall id,
          In id (NsfState.activeAtoms nsf')
          <-> In id (NsfState.activeAtoms nsf)
              \/ exists a, In a out /\ SenseAtom.id a = id)
    /\ (NoDup (NsfState.activeAtoms nsf) ->
        NoDup (NsfState.activeAtoms nsf'))
    /\ (out = [] -> g' = g /\ nsf' = nsf /\ snd r = c)
    /\ (detected = [] -> out = []).
Proof.
  intros toLowerCase g query nsf c Hq detected r out g' nsf'.
  subst out g' nsf' r.
  unfold ExcitationEngine.processContextExcitation.
  destruct query as [|ch query']; [congruence|].
  fold detected. cbv zeta. unfold bind.
  destruct (ExcitationEngine.exciteAll detected (RelationalGraph.atoms g)
              [] nsf c) as [[[atoms1 act] nsf1] c1] eqn:E.
  destruct (exciteAll_activated _ _ _ _ _ E) as (Ha & Hn & Hid & Hno).
  cbv zeta in Ha, Hn, Hid, Hno. cbn [app] in Ha.
  unfold ret. cbn [fst snd].
  unfold RelationalGraph.getAllAtoms.
  cbn [RelationalGraph.atoms RelationalGraph.set_atoms].
  set (excited := filter (intersects detected) (JsMap.values atoms1)) in *.
  destruct (JsSet_fold_add_spec (map SenseAtom.id excited)
              (NsfState.activeAtoms nsf)) as [Nd Hin].
  subst act.
  split; [apply sortByWeight_perm|].
  split; [apply sortByWeight_sorted|].
  split; [|split; [|split]].
  - intros id. rewrite Hn, Hin. split.
    + intros [H|H]; [now left|right].
      apply in_map_iff in H. destruct H as [a [Ea Hina]].
      exists a. split; [|exact Ea]. now apply sortByWeight_In.
    + intros [H|[a [Hina Ea]]]; [now left|right].
      apply in_map_iff. exists a. split; [exact Ea|].
      now apply sortByWeight_In in Hina.
  - rewrite Hn. exact Nd.
  - intros H0.
    assert (He : excited = []).
    { destruct excited as [|x l]; auto.
      assert (Hx : In x (ExcitationEngine.sortByWeight SenseAtom.senseWeight
                           (x :: l)))
        by (apply sortByWeight_In; now left).
      rewrite H0 in Hx. contradiction. }
    destruct (Hid He) as (-> & -> & ->).
    split; [now destruct g|]. auto.
  - intros Hd. rewrite Hno; [reflexivity|].
    rewrite Hd. clear. induction (JsMap.values (RelationalGraph.atoms g));
      simpl; auto.
    now rewrite detected_nil_intersects.
Qed.

Lemma excitation_returns_activated_witness :
  let detected := ExcitationEngine.detectPierwiastkiInQuery asciiLower
                    loveQuery in
  let r := ExcitationEngine.processContextExcitation asciiLower loveGraph
             (Some loveQuery) NsfState.initial exampleClock in
  let out := fst (fst (fst r)) in
  let g' := snd (fst (fst r)) in
  let nsf' := snd (fst r) in
  Permutation out
    (filter (intersects detected) (RelationalGraph.getAllAtoms g'))
  /\ StronglySorted
       (fun x y => SenseAtom.senseWeight y <= SenseAtom.senseWeight x) out
  /\ (forall id,
        In id (NsfState.activeAtoms nsf')
        <-> In id (NsfState.activeAtoms NsfState.initial)
            \/ exists a, In a out /\ SenseAtom.id a = id)
  /\ (NoDup (NsfState.activeAtoms NsfState.initial) ->
      NoDup (NsfState.activeAtoms nsf'))
  /\ (out = [] -> g' = loveGraph /\ nsf' = NsfState.initial
                  /\ snd r = exampleClock)
  /\ (detected = [] -> out = []).
Proof.
  apply (@excitation_returns_activated asciiLower loveGraph loveQuery
           NsfState.initial exampleClock).
  discriminate.
Defined.

(** ** Spontaneous excitation *)

Lemma touchAll_spec top : forall atoms nsf c out atoms1 nsf1 c1,
  ExcitationEngine.touchAll top atoms nsf c = (out, atoms1, nsf1, c1) ->
  NoDup (map fst top) ->
  incl (map fst top) (JsMap.keys atoms) ->
  Forall2
    (fun e a' =>
       exists now,
         read_between c c1 now
         /\ a' = SenseAtom.set_lastAccessTime now (snd e)
         /\ JsMap.get (fst e) atoms1 = Some a')
    top out
  /\ JsMap.keys atoms1 = JsMap.keys atoms
  /\ (forall k, ~ In k (map fst top) -> JsMap.get k atoms1 = JsMap.get k atoms)
  /\ clock_le c c1
  /\ NsfState.activeAtoms nsf1
     = fold_left (fun s x => JsSet.add x s) (map SenseAtom.id out)
         (NsfState.activeAtoms nsf).
Proof.
  induction top as [|[k atom] rest IH];
    intros atoms nsf c out atoms1 nsf1 c1; cbn [ExcitationEngine.touchAll].
  - unfold ret. intros E. inversion E; subst. intros _ _.
    split; [constructor|]. split; [reflexivity|]. split; [reflexivity|].
    split; [apply clock_le_refl | reflexivity].
  - unfold bind at 1. unfold Date_now at 1. cbv beta iota zeta.
    set (c0 := mkClock (reading c) (S (calls c))).
    set (atom1 := SenseAtom.set_lastAccessTime (reading c (calls c)) atom).
    unfold bind.
    match goal with
    | |- context [ExcitationEngine.touchAll rest ?m ?st c0] =>
        pose proof (IH m st c0) as IH1;
        destruct (ExcitationEngine.touchAll rest m st c0)
          as [[[out0 atoms0] nsf0] c2]
    end.
    unfold ret. intros E. inversion E; subst. clear E.
    intros Hnd Hincl. cbn [map fst] in Hnd, Hincl.
    inversion Hnd as [|x l Hk Hnd']; subst.
    assert (Hkin : In k (JsMap.keys atoms)) by (apply Hincl; now left).
    assert (Hkeys : JsMap.keys (JsMap.set k atom1 atoms) = JsMap.keys atoms).
    { rewrite JsMap_set_keys. unfold JsMap.has.
      destruct (JsMap.get k atoms) eqn:G; auto.
      apply JsMap_get_None_keys in G. contradiction. }
    destruct (IH1 _ _ _ _ eq_refl Hnd') as (HF & HK & HG & HC & HA).
    { rewrite Hkeys. intros x Hx. apply Hincl. now right. }
    assert (Hc0 : clock_le c c0) by apply clock_le_tick.
    split; [|split; [|split; [|split]]].
    + constructor.
      * exists (reading c (calls c)). split; [|split; [reflexivity|]].
        -- eapply read_between_widen;
             [apply clock_le_refl | exact HC | apply read_between_now].
        -- cbn [fst]. rewrite (HG k Hk). apply JsMap_get_set_eq.
      * eapply Forall2_impl; [|exact HF].
        intros e a' (now & Hr & Ea & Hg). exists now.
        split; [|auto].
        eapply read_between_widen; [exact Hc0 | apply clock_le_refl | exact Hr].
    + now rewrite HK.
    + intros k' Hk'. cbn [map fst In] in Hk'.
      rewrite HG by tauto. apply JsMap_get_set_neq. tauto.
    + exact (clock_le_trans Hc0 HC).
    + rewrite HA. reflexivity.
Qed.

Lemma firstn_In (A : Type) (n : nat) (l : list A) x :
  In x (firstn n l) -> In x l.
Proof.
  revert l. induction n as [|n IH]; intros [|y l]; simpl; try tauto.
  intros [H|H]; auto.
Qed.

Lemma skipn_In (A : Type) (n : nat) (l : list A) x :
  In x (skipn n l) -> In x l.
Proof.
  revert l. induction n as [|n IH]; intros [|y l]; simpl; try tauto.
  intros H. right. now apply IH.
Qed.

Lemma sorted_firstn_skipn (A : Type) (R : A -> A -> Prop) (l : list A) :
  StronglySorted R l ->
  forall n x y, In x (firstn n l) -> In y (skipn n l) -> R x y.
Proof.
  intros Hs. induction Hs as [|z l Hs IH Hall]; intros [|n] x y; simpl;
    try tauto.
  intros [->|Hx] Hy.
  - rewrite Forall_forall in Hall. apply Hall. eapply skipn_In; eauto.
  - eapply IH; eauto.
Qed.

Lemma sorted_firstn (A : Type) (R : A -> A -> Prop) (l : list A) :
  StronglySorted R l -> forall n, StronglySorted R (firstn n l).
Proof.
  intros Hs. induction Hs as [|x l Hs IH Hall]; intros [|n]; simpl;
    try constructor.
  - apply IH.
  - rewrite Forall_forall in *. intros y Hy. apply Hall.
    eapply firstn_In; eauto.
Qed.

Lemma Forall2_In_right (A B : Type) (P : A -> B -> Prop) l l' y' :
  Forall2 P l l' -> In y' l' -> exists y, In y l /\ P y y'.
Proof.
  induction 1 as [|x x' l l' Hx HF IH]; simpl; [tauto|].
  intros [<-|H]; [eauto|]. destruct (IH H) as [y [Hy Py]]. eauto.
Qed.

Lemma Forall2_In_left (A B : Type) (P : A -> B -> Prop) l l' y :
  Forall2 P l l' -> In y l -> exists y', In y' l' /\ P y y'.
Proof.
  induction 1 as [|x x' l l' Hx HF IH]; simpl; [tauto|].
  intros [<-|H]; [eauto|]. destruct (IH H) as [y' [Hy Py]]. eauto.
Qed.

Lemma sorted_Forall2 (A B : Type) (R : A -> A -> Prop) (R' : B -> B -> Prop)
    (P : A -> B -> Prop) (l : list A) (l' : list B) :
  (forall x y x' y', P x x' -> P y y' -> R x y -> R' x' y') ->
  Forall2 P l l' -> StronglySorted R l -> StronglySorted R' l'.
Proof.
  intros HP HF. induction HF as [|x x' l l' Hx HF IH]; intros Hs.
  - constructor.
  - inversion Hs as [|? ? Hs' Hall]; subst. constructor; [auto|].
    rewrite Forall_forall in *. intros y' Hy'.
    destruct (@Forall2_In_right _ _ _ _ _ _ HF Hy') as [y [Hy Py]]. eauto.
Qed.

Lemma NoDup_firstn (A : Type) (n : nat) (l : list A) :
  NoDup l -> NoDup (firstn n l).
Proof.
  intros H. rewrite <- (firstn_skipn n l) in H.
  now apply NoDup_app_remove_r in H.
Qed.

Lemma touchAll_times top : forall atoms nsf c out atoms1 nsf1 c1,
  ExcitationEngine.touchAll top atoms nsf c = (out, atoms1, nsf1, c1) ->
  map SenseAtom.lastAccessTime out
  = map (reading c) (seq (calls c) (List.length top))
  /\ List.length out = List.length top
  /\ c1 = mkClock (reading c) (calls c + List.length top).
Proof.
  induction top as [|[k atom] rest IH];
    intros atoms nsf c out atoms1 nsf1 c1; cbn [ExcitationEngine.touchAll].
  - unfold ret. intros E. inversion E; subst. cbn [List.length].
    rewrite Nat.add_0_r. repeat split. now destruct c1.
  - unfold bind at 1. unfold Date_now at 1. cbv beta iota zeta.
    set (c0 := mkClock (reading c) (S (calls c))).
    unfold bind.
    match goal with
    | |- context [ExcitationEngine.touchAll rest ?m ?st c0] =>
        pose proof (IH m st c0) as IH1;
        destruct (ExcitationEngine.touchAll rest m st c0)
          as [[[out0 atoms0] nsf0] c2]
    end.
    destruct (IH1 _ _ _ _ eq_refl) as (HT & HL & HE).
    unfold ret. intros E. inversion E; subst. clear E.
    cbn [map List.length seq SenseAtom.lastAccessTime
         SenseAtom.set_lastAccessTime].
    split; [|split].
    + f_equal. exact HT.
    + now rewrite HL.
    + cbn [reading calls c0]. f_equal. lia.
Qed.

(** X15. Without a query ([null] or the empty string) the Excitation Pass
    changes no weight.  In a graph with distinct keys it returns
    min(3, size) atoms, ordered by descending weight, none lighter than an
    atom it does not return.  Each returned atom is stored in the new graph
    under the key of an atom of the old graph, and is that atom with its
    access time set to a reading of the clock; the access times of the
    returned atoms are successive readings, one per atom, and the clock has
    advanced by that many readings.  The keys are as before and an atom that
    is not returned is untouched.  The identities of the returned atoms,
    and no others, join the active set. *)
Theorem spontaneous_excitation :
  forall (toLowerCase : string -> string) (g : RelationalGraph.t)
         (query : option string) (nsf : NsfState.t) (c : Clock),
    query = None \/ query = Some EmptyString ->
    JsMap.wf (RelationalGraph.atoms g) ->
    let r := ExcitationEngine.processContextExcitation toLowerCase g query
               nsf c in
    let out := fst (fst (fst r)) in
    let g' := snd (fst (fst r)) in
    let nsf' := snd (fst r) in
    List.length out = Nat.min 3 (List.length (RelationalGraph.atoms g))
    /\ StronglySorted
         (fun x y => SenseAtom.senseWeight y <= SenseAtom.senseWeight x) out
    /\ JsMap.keys (RelationalGraph.atoms g')
       = JsMap.keys (RelationalGraph.atoms g)
    /\ (forall k a,
          RelationalGraph.getAtom g k = Some a ->
          exists a',
            RelationalGraph.getAtom g' k = Some a'
            /\ SenseAtom.senseWeight a' = SenseAtom.senseWeight a
            /\ (a' = a
                \/ In a' out
                   /\ exists now,
                        read_between c (snd r) now
                        /\ a' = SenseAtom.set_lastAccessTime now a))
    /\ (forall a' k b,
          In a' out -> RelationalGraph.getAtom g' k = Some b ->
          ~ In b out ->
          SenseAtom.senseWeight b <= SenseAtom.senseWeight a')
    /\ (forall id,
          In id (NsfState.activeAtoms nsf')
          <-> In id (NsfState.activeAtoms nsf)
              \/ exists a, In a out /\ SenseAtom.id a = id)
    /\ (forall a',
          In a' out ->
          exists k a now,
            RelationalGraph.getAtom g k = Some a
            /\ RelationalGraph.getAtom g' k = Some a'
            /\ read_between c (snd r) now
            /\ a' = SenseAtom.set_lastAccessTime now a)
    /\ map SenseAtom.lastAccessTime out
       = map (reading c) (seq (calls c) (List.length out))
    /\ snd r = mkClock (reading c) (calls c + List.length out).
Proof.
  intros toLowerCase g query nsf c Hq Hwf r out g' nsf'.
  subst out g' nsf' r.
  assert (Er : ExcitationEngine.processContextExcitation toLowerCase g query
                 nsf c
               = ExcitationEngine.activateTopWeightAtoms g 3 nsf c)
    by (destruct Hq as [->| ->]; reflexivity).
  rewrite Er. clear Er Hq. unfold ExcitationEngine.activateTopWeightAtoms.
  cbv zeta. unfold JsMap.entries.
  set (wt := fun e : string * SenseAtom.t => SenseAtom.senseWeight (snd e)).
  set (sorted := ExcitationEngine.sortByWeight wt (RelationalGraph.atoms g)).
  set (top := firstn 3 sorted).
  assert (Hp : Permutation sorted (RelationalGraph.atoms g))
    by apply sortByWeight_perm.
  assert (Hs : StronglySorted (fun x y => wt y <= wt x) sorted)
    by apply sortByWeight_sorted.
  assert (Hnd : NoDup (map fst top)).
  { unfold top. rewrite <- firstn_map. apply NoDup_firstn.
    eapply Permutation_NoDup; [|exact Hwf].
    apply Permutation_sym. apply Permutation_map. exact Hp. }
  assert (Htop : forall e, In e top -> In e (RelationalGraph.atoms g)).
  { intros e He. eapply Permutation_in; [exact Hp|].
    eapply firstn_In; exact He. }
  assert (Hincl : incl (map fst top) (JsMap.keys (RelationalGraph.atoms g))).
  { intros k Hk. apply in_map_iff in Hk. destruct Hk as [e [<- He]].
    unfold JsMap.keys. apply in_map. now apply Htop. }
  unfold bind.
  destruct (ExcitationEngine.touchAll top (RelationalGraph.atoms g) nsf c)
    as [[[out atoms1] nsf1] c1] eqn:E.
  destruct (touchAll_spec _ _ _ _ E Hnd Hincl) as (HF & HK & HG & HC & HA).
  destruct (touchAll_times _ _ _ _ E) as (HT & HL & HE).
  unfold ret. cbn [fst snd]. unfold RelationalGraph.getAtom.
  cbn [RelationalGraph.atoms RelationalGraph.set_atoms].
  assert (Htouched : forall k a,
            JsMap.get k (RelationalGraph.atoms g) = Some a ->
            In k (map fst top) ->
            exists a', JsMap.get k atoms1 = Some a' /\ In a' out
                       /\ exists now, read_between c c1 now
                            /\ a' = SenseAtom.set_lastAccessTime now a).
  { intros k a G Hk. apply in_map_iff in Hk. destruct Hk as [[k0 a0] [Ek He]].
    cbn [fst] in Ek. subst k0.
    assert (a0 = a).
    { apply Htop in He. apply JsMap_In_get in He; [|exact Hwf]. congruence. }
    subst a0.
    destruct (@Forall2_In_left _ _ _ _ _ _ HF He)
      as (a' & Hin & now & Hr & Ea & Hg).
    exists a'. split; [exact Hg|]. split; [exact Hin|]. exists now. auto. }
  split; [|split; [|split; [|split; [|split; [|split; [|split; [|split]]]]]]].
  - rewrite <- (Forall2_length HF). unfold top. rewrite length_firstn.
    unfold sorted. now rewrite sortByWeight_length.
  - eapply sorted_Forall2; [|exact HF|apply sorted_firstn; exact Hs].
    intros x y x' y' (n1 & _ & -> & _) (n2 & _ & -> & _) Hxy. exact Hxy.
  - exact HK.
  - intros k a G.
    destruct (in_dec string_dec k (map fst top)) as [Hk|Hk].
    + destruct (Htouched k a G Hk) as (a' & Hg & Hin & now & Hr & Ea).
      exists a'. split; [exact Hg|]. split; [now subst a'|].
      right. split; [exact Hin|]. exists now. auto.
    + exists a. split; [now rewrite (HG k Hk)|]. split; [reflexivity|].
      now left.
  - intros a' k b Hin Hg Hnot.
    destruct (@Forall2_In_right _ _ _ _ _ _ HF Hin)
      as (e & He & now & _ & -> & _).
    assert (Hk : ~ In k (map fst top)).
    { intros Hk.
      assert (Hin0 : In k (JsMap.keys (RelationalGraph.atoms g)))
        by (now apply Hincl).
      destruct (JsMap.get k (RelationalGraph.atoms g)) as [a0|] eqn:G0.
      - destruct (Htouched k a0 G0 Hk) as (a1 & Hg1 & Hin1 & _).
        assert (a1 = b) by congruence. subst a1. contradiction.
      - apply JsMap_get_None_keys in G0. contradiction. }
    rewrite (HG k Hk) in Hg. apply JsMap_get_In in Hg.
    assert (Hsk : In (k, b) (skipn 3 sorted)).
    { apply Permutation_sym in Hp.
      pose proof (Permutation_in _ Hp Hg) as Hin0.
      rewrite <- (firstn_skipn 3 sorted) in Hin0.
      apply in_app_or in Hin0. destruct Hin0 as [H0|H0]; [|exact H0].
      exfalso. apply Hk. apply in_map_iff. exists (k, b). auto. }
    exact (sorted_firstn_skipn Hs 3 e (k, b) He Hsk).
  - intros id. rewrite HA.
    destruct (JsSet_fold_add_spec (map SenseAtom.id out)
                (NsfState.activeAtoms nsf)) as [_ Hin].
    rewrite Hin. split.
    + intros [H|H]; [now left|right].
      apply in_map_iff in H. destruct H as [a [Ea Hina]]. eauto.
    + intros [H|[a [Hina Ea]]]; [now left|right].
      apply in_map_iff. eauto.
  - intros a' Hin.
    destruct (@Forall2_In_right _ _ _ _ _ _ HF Hin)
      as ([k a] & He & now & Hr & Ea & Hg).
    cbn [fst snd] in Ea, Hg. exists k, a, now.
    split; [|auto]. apply JsMap_In_get; [exact Hwf | now apply Htop].
  - rewrite HL. exact HT.
  - rewrite HL. exact HE.
Qed.

Lemma spontaneous_excitation_witness :
  let r := ExcitationEngine.processContextExcitation asciiLower symmetricGraph
             None NsfState.initial exampleClock in
  let out := fst (fst (fst r)) in
  let g' := snd (fst (fst r)) in
  List.length out = 3%nat
  /\ map SenseAtom.id out = ["z"; "x"; "y"]
  /\ map SenseAtom.lastAccessTime out
     = [1700000000000; 1700000000001; 1700000000002]%Z
  /\ (forall a',
        In a' out ->
        exists k a now,
          RelationalGraph.getAtom symmetricGraph k = Some a
          /\ RelationalGraph.getAtom g' k = Some a'
          /\ read_between exampleClock (snd r) now
          /\ a' = SenseAtom.set_lastAccessTime now a)
  /\ snd r = mkClock (reading exampleClock) 3.
Proof.
  intros r out g'.
  destruct (@spontaneous_excitation asciiLower symmetricGraph None
              NsfState.initial exampleClock)
    as (H1 & _ & _ & _ & _ & _ & H7 & H8 & H9).
  - now left.
  - apply JsMap_wfb_spec. reflexivity.
  - fold r in H1, H7, H8, H9. fold out in H1, H7, H8, H9. fold g' in H7.
    split; [exact H1|]. split; [vm_compute; reflexivity|].
    split; [rewrite H8, H1; reflexivity|]. split; [exact H7|].
    rewrite H9, H1. reflexivity.
Defined.

(** ** The emotional boost *)

Lemma NS_WEIGHTS_weight k d :
  JsMap.get k NS_WEIGHTS = Some d ->
  0 <= NeuroSemanticWeight.weight d /\ NeuroSemanticWeight.weight d <= 1.
Proof.
  intros G. apply JsMap_get_In in G.
  assert (H : forallb
                (fun e =>
                   Qle_bool 0 (NeuroSemanticWeight.weight (snd e))
                   && Qle_bool (NeuroSemanticWeight.weight (snd e)) 1)
                NS_WEIGHTS = true) by reflexivity.
  rewrite forallb_forall in H. apply H in G.
  apply andb_true_iff in G. destruct G as [G1 G2].
  split; now apply Qle_bool_iff.
Qed.

Lemma accumulate_fold l : forall acc,
  0 <= EmotionalBoost.totalWeight acc ->
  0 <= EmotionalBoost.minDecayModifier acc ->
  EmotionalBoost.minDecayModifier acc <= 1 ->
  let acc' := fold_left EmotionalBoost.accumulate l acc in
  0 <= EmotionalBoost.totalWeight acc'
  /\ 0 <= EmotionalBoost.minDecayModifier acc'
  /\ EmotionalBoost.minDecayModifier acc' <= 1
  /\ EmotionalBoost.processed acc'
     = EmotionalBoost.processed acc
       ++ filter (fun p => JsMap.has p NS_WEIGHTS) l.
Proof.
  induction l as [|p r IH]; intros acc H1 H2 H3; cbn [fold_left filter].
  - rewrite app_nil_r. auto.
  - assert (Hacc :
      0 <= EmotionalBoost.totalWeight (EmotionalBoost.accumulate acc p)
      /\ 0 <= EmotionalBoost.minDecayModifier
                (EmotionalBoost.accumulate acc p)
      /\ EmotionalBoost.minDecayModifier (EmotionalBoost.accumulate acc p)
         <= 1
      /\ EmotionalBoost.processed (EmotionalBoost.accumulate acc p)
         = EmotionalBoost.processed acc
           ++ (if JsMap.has p NS_WEIGHTS then [p] else [])).
    { unfold EmotionalBoost.accumulate, JsMap.has.
      destruct (JsMap.get p NS_WEIGHTS) as [d|] eqn:G;
        cbn [EmotionalBoost.totalWeight EmotionalBoost.minDecayModifier
             EmotionalBoost.processed].
      - destruct (NS_WEIGHTS_weight _ G) as [W0 W1].
        pose proof (NS_WEIGHTS_decayModifier _ G) as D0.
        split; [lra|]. split; [now apply Math_min_glb|].
        split; [|reflexivity].
        eapply Qle_trans; [apply Math_min_le_l | exact H3].
      - rewrite app_nil_r. auto. }
    destruct Hacc as (A1 & A2 & A3 & A4).
    destruct (IH _ A1 A2 A3) as (I1 & I2 & I3 & I4).
    split; [exact I1|]. split; [exact I2|]. split; [exact I3|].
    rewrite I4, A4, <- app_assoc. f_equal.
    now destruct (JsMap.has p NS_WEIGHTS).
Qed.

Lemma intensity_fold l : forall acc : Q,
  acc <= fold_left
           (fun acc count =>
              if (count >? 0)%Z then acc + inject_Z count * 0.2 else acc)
           l acc.
Proof.
  induction l as [|n r IH]; intros acc; cbn [fold_left].
  - apply Qle_refl.
  - destruct (n >? 0)%Z eqn:E; [|apply IH].
    eapply Qle_trans; [|apply IH].
    assert (0 <= inject_Z n).
    { unfold Qle. simpl. apply Z.gtb_lt in E. lia. }
    lra.
Qed.

Lemma calculateEmotionalIntensity_range l :
  0 <= EmotionalBoost.calculateEmotionalIntensity l
  /\ EmotionalBoost.calculateEmotionalIntensity l <= 1.
Proof.
  unfold EmotionalBoost.calculateEmotionalIntensity.
  destruct l as [|p r]; [split; lra|]. cbv zeta.
  match goal with
  | |- context [fold_left ?f ?cats 0] =>
      pose proof (intensity_fold cats 0) as Hi;
      set (intensity := fold_left f cats 0) in *
  end.
  split.
  - apply Math_min_glb; [|lra].
    destruct (2 <? _)%nat; lra.
  - eapply Qle_trans; [apply Math_min_le_r | lra].
Qed.

Lemma calculateEmotionalBoost_bounds_aux (pierwiastki : list string) :
  let r := EmotionalBoost.calculateEmotionalBoost pierwiastki in
  EmotionalBoostResult.processedElements r
  = filter (fun p => JsMap.has p NS_WEIGHTS) pierwiastki
  /\ 1 <= EmotionalBoostResult.weightMultiplier r
  /\ EmotionalBoostResult.weightMultiplier r <= 3
  /\ 0.001 <= EmotionalBoostResult.finalDecayRate r
  /\ EmotionalBoostResult.finalDecayRate r <= 1
  /\ 0 <= EmotionalBoostResult.emotionalIntensity r
  /\ EmotionalBoostResult.emotionalIntensity r <= 1.
Proof.
  intros r. subst r.
  unfold EmotionalBoost.calculateEmotionalBoost. cbv zeta.
  destruct (@accumulate_fold pierwiastki (EmotionalBoost.mkAcc 0 1.0 0 []))
    as (T & D0 & D1 & P);
    cbn [EmotionalBoost.totalWeight EmotionalBoost.minDecayModifier]; try lra.
  cbv zeta in T, D0, D1, P. cbn [EmotionalBoost.processed app] in P.
  set (acc := fold_left EmotionalBoost.accumulate pierwiastki
                (EmotionalBoost.mkAcc 0 1.0 0 [])) in *.
  set (avgWeight :=
         if (0 <? List.length (EmotionalBoost.processed acc))%nat
         then EmotionalBoost.totalWeight acc
              / ExcitationEngine.qlength (EmotionalBoost.processed acc)
         else 0).
  assert (Ha : 0 <= avgWeight).
  { subst avgWeight.
    destruct (0 <? List.length (EmotionalBoost.processed acc))%nat eqn:E;
      [|lra].
    apply Nat.ltb_lt in E. apply Qle_shift_div_l.
    - unfold ExcitationEngine.qlength, Qlt. simpl. lia.
    - lra. }
  set (high := filter EmotionalBoost.isHighEmotional
                 (EmotionalBoost.processed acc)).
  assert (Hh : 0 <= ExcitationEngine.qlength high).
  { unfold ExcitationEngine.qlength, Qle. simpl. lia. }
  match goal with
  | |- context [let '(x, y) := ?p in _] =>
      assert (Hm : 1 <= snd p)
        by (repeat match goal with
                   | |- context [if ?b then _ else _] => destruct b
                   end; cbn [snd]; nra);
      destruct p as [level wm]
  end.
  cbn [snd] in Hm.
  cbn [EmotionalBoostResult.processedElements
       EmotionalBoostResult.weightMultiplier
       EmotionalBoostResult.finalDecayRate
       EmotionalBoostResult.emotionalIntensity].
  split; [exact P|]. split.
  { apply Math_min_glb; [|lra].
    destruct (0 <? List.length high)%nat; lra. }
  split.
  { eapply Qle_trans; [apply Math_min_le_r | lra]. }
  assert (K : NSF_CONSTANTS.MIN_SENSE_WEIGHT / 10 == 0.001) by reflexivity.
  set (floor := NSF_CONSTANTS.MIN_SENSE_WEIGHT / 10) in *.
  split.
  { unfold Math_max.
    destruct (Qle_bool _ _) eqn:E; [lra|].
    destruct (Qlt_le_dec floor (EmotionalBoost.minDecayModifier acc))
      as [L|L]; [lra|].
    apply Qle_bool_iff in L. congruence. }
  split.
  { unfold Math_max. destruct (Qle_bool _ _); lra. }
  apply calculateEmotionalIntensity_range.
Qed.

(** X16. For a list of plain element names, [calculateEmotionalBoost]
    takes into account exactly the names found in the table, in their
    order; the weight multiplier lies between 1 and 3, the final decay rate
    between 0.001 and 1, and the emotional intensity between 0 and 1. *)
Theorem calculateEmotionalBoost_bounds :
  forall pierwiastki : list string,
    plainElements (Some pierwiastki) = true ->
    let r := EmotionalBoost.calculateEmotionalBoost pierwiastki in
    EmotionalBoostResult.processedElements r
    = filter (fun p => JsMap.has p NS_WEIGHTS) pierwiastki
    /\ 1 <= EmotionalBoostResult.weightMultiplier r
    /\ EmotionalBoostResult.weightMultiplier r <= 3
    /\ 0.001 <= EmotionalBoostResult.finalDecayRate r
    /\ EmotionalBoostResult.finalDecayRate r <= 1
    /\ 0 <= EmotionalBoostResult.emotionalIntensity r
    /\ EmotionalBoostResult.emotionalIntensity r <= 1.
Proof.
  intros pierwiastki _. apply calculateEmotionalBoost_bounds_aux.
Qed.

Lemma calculateEmotionalBoost_bounds_witness :
  let r :=
    EmotionalBoost.calculateEmotionalBoost
      ["ALGORYTM_ZAKOCHANIA"; "nieznany"; "PIERWIASTEK_MILOSCI"] in
  EmotionalBoostResult.processedElements r
  = filter (fun p => JsMap.has p NS_WEIGHTS)
      ["ALGORYTM_ZAKOCHANIA"; "nieznany"; "PIERWIASTEK_MILOSCI"]
  /\ 1 <= EmotionalBoostResult.weightMultiplier r
  /\ EmotionalBoostResult.weightMultiplier r <= 3
  /\ 0.001 <= EmotionalBoostResult.finalDecayRate r
  /\ EmotionalBoostResult.finalDecayRate r <= 1
  /\ 0 <= EmotionalBoostResult.emotionalIntensity r
  /\ EmotionalBoostResult.emotionalIntensity r <= 1.
Proof.
  apply (@calculateEmotionalBoost_bounds
           ["ALGORYTM_ZAKOCHANIA"; "nieznany"; "PIERWIASTEK_MILOSCI"]).
  reflexivity.
Defined.

(** X17. [applyEmotionalBoost] on an atom of non-negative weight, with a
    list of plain element names.  Without a list, or with an empty one,
    nothing happens: the atom is unchanged and the clock is not read.
    Otherwise the weight is multiplied by the multiplier of
    [calculateEmotionalBoost], so it does not fall and at most triples; the
    decay rate becomes the smaller of the atom's rate and the final decay
    rate, so it never rises and is at most 1; the emotional level is set;
    the time of processing is one reading of the clock; no other property
    of the atom changes. *)
Theorem applyEmotionalBoost_effect :
  forall (a : SenseAtom.t) (elements : option (list string)) (c : Clock),
    plainElements elements = true ->
    0 <= SenseAtom.senseWeight a ->
    let r := EmotionalBoost.applyEmotionalBoost a elements c in
    let a' := fst (fst r) in
    match elements with
    | None | Some [] => r = (a, None, c)
    | Some l =>
        let b := EmotionalBoost.calculateEmotionalBoost l in
        SenseAtom.senseWeight a'
        = SenseAtom.senseWeight a * EmotionalBoostResult.weightMultiplier b
        /\ SenseAtom.senseWeight a <= SenseAtom.senseWeight a'
        /\ SenseAtom.senseWeight a' <= 3 * SenseAtom.senseWeight a
        /\ SenseAtom.decayRate a'
           = Math_min (SenseAtom.decayRate a)
               (EmotionalBoostResult.finalDecayRate b)
        /\ SenseAtom.decayRate a' <= SenseAtom.decayRate a
        /\ SenseAtom.decayRate a' <= 1
        /\ SenseAtom.amygdalaActivationLevel a'
           = Some (EmotionalBoostResult.activationLevel b)
        /\ a' = EmotionalBoost.set_boost (SenseAtom.senseWeight a')
                  (SenseAtom.decayRate a')
                  (EmotionalBoostResult.activationLevel b) a
        /\ snd (fst r)
           = Some (EmotionalBoost.mkMarks (reading c (calls c)) true)
        /\ snd r = mkClock (reading c) (S (calls c))
    end.
Proof.
  intros a elements c Hp Hw r a'. subst a' r.
  destruct elements as [[|p l]|]; [reflexivity| |reflexivity].
  destruct (calculateEmotionalBoost_bounds_aux (p :: l))
    as (_ & M1 & M3 & _ & D1 & _).
  cbv zeta.
  set (b := EmotionalBoost.calculateEmotionalBoost (p :: l)) in *.
  unfold EmotionalBoost.applyEmotionalBoost. fold b.
  cbv zeta. unfold bind, Date_now, ret.
  cbn [fst snd EmotionalBoost.set_boost SenseAtom.senseWeight
       SenseAtom.decayRate SenseAtom.amygdalaActivationLevel].
  set (w := SenseAtom.senseWeight a) in *.
  set (m := EmotionalBoostResult.weightMultiplier b) in *.
  split; [reflexivity|]. split; [nra|]. split; [nra|].
  split; [reflexivity|]. split; [apply Math_min_le_l|].
  split; [eapply Qle_trans; [apply Math_min_le_r | exact D1]|].
  repeat split.
Qed.

Lemma applyEmotionalBoost_effect_witness :
  let r :=
    EmotionalBoost.applyEmotionalBoost emotionalAtom
      (Some ["NAMIENTNOSC_POZADANIA"]) exampleClock in
  let a' := fst (fst r) in
  let b := EmotionalBoost.calculateEmotionalBoost ["NAMIENTNOSC_POZADANIA"] in
  SenseAtom.senseWeight a'
  = SenseAtom.senseWeight emotionalAtom
    * EmotionalBoostResult.weightMultiplier b
  /\ SenseAtom.senseWeight emotionalAtom <= SenseAtom.senseWeight a'
  /\ SenseAtom.senseWeight a' <= 3 * SenseAtom.senseWeight emotionalAtom
  /\ SenseAtom.decayRate a'
     = Math_min (SenseAtom.decayRate emotionalAtom)
         (EmotionalBoostResult.finalDecayRate b)
  /\ SenseAtom.decayRate a' <= SenseAtom.decayRate emotionalAtom
  /\ SenseAtom.decayRate a' <= 1
  /\ SenseAtom.amygdalaActivationLevel a'
     = Some (EmotionalBoostResult.activationLevel b)
  /\ a' = EmotionalBoost.set_boost (SenseAtom.senseWeight a')
            (SenseAtom.decayRate a')
            (EmotionalBoostResult.activationLevel b) emotionalAtom
  /\ snd (fst r)
     = Some (EmotionalBoost.mkMarks
               (reading exampleClock (calls exampleClock)) true)
  /\ snd r = mkClock (reading exampleClock) (S (calls exampleClock)).
Proof.
  apply (@applyEmotionalBoost_effect emotionalAtom
           (Some ["NAMIENTNOSC_POZADANIA"]) exampleClock).
  - reflexivity.
  - apply Qle_bool_iff. reflexivity.
Defined.

(** ** Oxidative stress *)

Lemma inverse_bounds f lo hi inv :
  0 < lo -> lo <= f -> f <= hi -> inv * f == 1 ->
  inv * lo <= 1 /\ 1 <= inv * hi /\ 0 < inv.
Proof.
  intros Hlo Hf Hhi E.
  assert (Hf0 : 0 < f) by lra.
  assert (Hi : 0 < inv).
  { destruct (Qlt_le_dec 0 inv) as [H|H]; auto. exfalso.
    assert (inv * f <= 0) by nra. lra. }
  split; [|split]; [nra|nra|exact Hi].
Qed.

(** X18. [applyOxidativeStress] on an atom of non-negative weight, for n
    activated atoms.  Up to 8000 nothing happens.  Above 8000 the stress
    factor is min(n / 10000, 2) and the weight is divided by it, no other
    property of the atom changes: between 8000 and 10000 the factor is
    below 1, so the weight does not fall and grows by at most a quarter;
    from 10000 on the weight does not grow and keeps at least its half. *)
Theorem applyOxidativeStress_effect :
  forall (a : SenseAtom.t) (n : Z),
    0 <= SenseAtom.senseWeight a ->
    let r := EmotionalBoost.applyOxidativeStress a n in
    let w := SenseAtom.senseWeight a in
    let w' := SenseAtom.senseWeight (fst r) in
    ((n <= 8000)%Z -> r = (a, None))
    /\ ((8000 < n)%Z ->
        exists f,
          snd r = Some f
          /\ f = Math_min (inject_Z n / inject_Z 10000) 2.0
          /\ 0.8 < f /\ f <= 2
          /\ w' * f == w
          /\ fst r = SenseAtom.set_senseWeight w' a)
    /\ ((8000 < n < 10000)%Z -> w <= w' /\ w' <= 1.25 * w)
    /\ ((10000 <= n)%Z -> 0.5 * w <= w' /\ w' <= w).
Proof.
  intros a n Hw r w w'. subst r w' w.
  unfold EmotionalBoost.applyOxidativeStress.
  unfold NSF_CONSTANTS.MAX_ACTIVE_ATOMS.
  assert (Hcond : Qgtb (inject_Z n) (inject_Z 10000 * 0.8)
                  = (8000 <? n)%Z).
  { unfold Qgtb, Qltb, Qle_bool. cbn [Qnum Qden inject_Z Qmult].
    destruct (8000 <? n)%Z eqn:E.
    - apply Z.ltb_lt in E. apply negb_true_iff, Z.leb_gt. lia.
    - apply Z.ltb_ge in E. apply negb_false_iff, Z.leb_le. lia. }
  rewrite Hcond.
  destruct (8000 <? n)%Z eqn:E.
  - apply Z.ltb_lt in E. cbv zeta. cbn [fst snd SenseAtom.senseWeight
                                         SenseAtom.set_senseWeight].
    set (w := SenseAtom.senseWeight a) in *.
    set (x := inject_Z n / inject_Z 10000).
    assert (Hx : x * 10000 == inject_Z n) by (unfold x; field).
    assert (Hn : 8000 < inject_Z n) by (unfold Qlt; simpl; lia).
    set (f := Math_min x 2.0).
    assert (Hf : 0.8 < f /\ f <= 2 /\ f <= x /\ (x <= 2 -> f == x)
                 /\ (2 <= x -> f == 2)).
    { unfold f, Math_min. destruct (Qle_bool x 2.0) eqn:Eb.
      - apply Qle_bool_iff in Eb. repeat split; lra.
      - assert (2 < x).
        { destruct (Qlt_le_dec 2 x) as [H|H]; auto.
          assert (H' : x <= 2.0) by lra.
          apply Qle_bool_iff in H'. congruence. }
        repeat split; lra. }
    destruct Hf as (F1 & F2 & F3 & F4 & F5).
    assert (Hinv : (1.0 / f) * f == 1) by (field; lra).
    set (inv := 1.0 / f) in *.
    destruct (@inverse_bounds f 0.8 2 inv) as (I1 & I2 & I3);
      [lra|lra|lra|exact Hinv|].
    split; [lia|]. split; [|split].
    + intros _. exists f. split; [reflexivity|]. split; [reflexivity|].
      split; [exact F1|]. split; [exact F2|].
      split; [|reflexivity].
      transitivity (w * (inv * f)); [ring|]. rewrite Hinv. ring.
    + intros [_ Hlt].
      assert (Hq : inject_Z n < 10000) by (unfold Qlt; simpl; lia).
      assert (Hf1 : f <= 1) by lra.
      assert (Hi1 : 1 <= inv) by nra.
      assert (Hi2 : inv <= 1.25) by lra.
      split; nra.
    + intros Hge.
      assert (Hq : 10000 <= inject_Z n) by (unfold Qle; simpl; lia).
      assert (Hf1 : 1 <= f).
      { destruct (Qlt_le_dec x 2) as [L|L].
        - rewrite F4 by lra. lra.
        - rewrite F5 by lra. lra. }
      assert (Hi1 : inv <= 1) by nra.
      assert (Hi2 : 0.5 <= inv) by lra.
      split; nra.
  - apply Z.ltb_ge in E. cbn [fst snd].
    split; [reflexivity|]. split; [lia|]. split; lia.
Qed.

Lemma applyOxidativeStress_effect_witness :
  let r := EmotionalBoost.applyOxidativeStress emotionalAtom 9000 in
  let w := SenseAtom.senseWeight emotionalAtom in
  let w' := SenseAtom.senseWeight (fst r) in
  w <= w' /\ w' <= 1.25 * w.
Proof.
  intros r w w'.
  destruct (@applyOxidativeStress_effect emotionalAtom 9000)
    as (_ & _ & H & _).
  - apply Qle_bool_iff. reflexivity.
  - apply H. lia.
Defined.

(** ** What export and import keep of an atom *)

Lemma importAtoms_payload Math_log (es : JsMap.t SenseAtom.t) :
  forall graph c,
    NoDup (JsMap.keys (RelationalGraph.atoms graph ++ es)) ->
    Forall (fun e => SenseAtom.id (snd e) = fst e) es ->
    exists es',
      RelationalGraph.atoms
        (fst (RelationalGraph.importAtoms graph
                (map (SenseAtom.toJSON Math_log) (JsMap.values es)) c))
      = RelationalGraph.atoms graph ++ es'
      /\ Forall2
           (fun e e' =>
              fst e' = fst e
              /\ imported_from (snd e) (snd e')
              /\ SenseAtom.clusters (snd e') = []
              /\ SenseAtom.overallStrength (snd e')
                 = Some (SenseAtom.calculateOverallStrength Math_log (snd e)))
           es es'.
Proof.
  induction es as [|[k a] rest IH]; intros graph c Hnd Hwf; simpl.
  - exists []. split; [now rewrite app_nil_r | constructor].
  - inversion Hwf as [|? ? Hid Hrest]; subst. simpl in Hid.
    unfold bind. rewrite importAtom_unfold.
    set (d := SenseAtom.toJSON Math_log a).
    set (c1 := mkClock (reading c) (S (S (S (calls c))))).
    assert (Hfresh : JsMap.get k (RelationalGraph.atoms graph) = None).
    { apply JsMap_get_None_keys. unfold JsMap.keys in *.
      rewrite map_app in Hnd. simpl in Hnd. apply NoDup_remove_2 in Hnd.
      intros Hin. apply Hnd. apply in_or_app. now left. }
    assert (Ek : AtomData.id d = k) by exact Hid.
    rewrite Ek. rewrite (@JsMap_set_fresh _ _ _ _ Hfresh).
    match goal with
    | |- context [RelationalGraph.importAtoms ?g1 _ c1] =>
        destruct (IH g1 c1) as [es' [E F]]
    end.
    + cbn [RelationalGraph.atoms]. unfold JsMap.keys in *.
      rewrite !map_app in *. cbn [map fst] in *.
      rewrite <- app_assoc. exact Hnd.
    + exact Hrest.
    + exists ((k, importedAtom d c) :: es'). split.
      * rewrite E. simpl. now rewrite <- app_assoc.
      * constructor; [|exact F]. split; [reflexivity|].
        repeat split.
Qed.

Lemma createCluster_fold_clusters name ids : forall m,
  evolves (fun _ => true) clusters_only m
    (fold_left
       (fun m id =>
          match JsMap.get id m with
          | Some atom =>
              JsMap.set id
                (SenseAtom.set_clusters
                   (SenseAtom.clusters atom ++ [name]) atom) m
          | None => m
          end) ids m).
Proof.
  assert (Hrefl : forall a, clusters_only a a)
    by (intros a; exists (SenseAtom.clusters a); now destruct a).
  induction ids as [|id rest IH]; intros m; simpl.
  - apply evolves_refl, Hrefl.
  - destruct (JsMap.get id m) as [atom|] eqn:E; [|apply IH].
    eapply evolves_step;
      [eapply evolves_set; exact E | apply IH | | reflexivity].
    intros v v1 v' [->|[-> ->]] [l ->]; [now exists l|].
    exists l. reflexivity.
Qed.

Lemma createClusters_clusters cl : forall g,
  evolves (fun _ => true) clusters_only (RelationalGraph.atoms g)
    (RelationalGraph.atoms
       (fold_left
          (fun g clusterData =>
             RelationalGraph.createCluster g (fst clusterData)
               (snd clusterData)) cl g)).
Proof.
  induction cl as [|[name ids] rest IH]; intros g; simpl.
  - apply evolves_refl. intros a. exists (SenseAtom.clusters a).
    now destruct a.
  - eapply evolves_step
      with (m2 := RelationalGraph.atoms
                    (RelationalGraph.createCluster g name ids)).
    + unfold RelationalGraph.createCluster. simpl.
      apply createCluster_fold_clusters.
    + apply (IH (RelationalGraph.createCluster g name ids)).
    + intros v v1 v' [l ->] [l' ->]. now exists l'.
    + reflexivity.
Qed.

(** X19. An export followed by an import, on a graph whose atoms are stored
    under their own identities: every atom comes back under its key with
    its label, elements, primary element, access time, number of
    activations and emotional level; its base weight is now its weight, its
    neural pathways and tags are empty, and its overall strength is the
    one computed at the export. *)
Theorem export_import_keeps_payload :
  forall (Math_log : Q -> Q) (g : RelationalGraph.t) (c : Clock)
         (k : string) (a : SenseAtom.t),
    graph_wfb g = true ->
    RelationalGraph.getAtom g k = Some a ->
    let g' :=
      fst (RelationalGraph.fromJSON (RelationalGraph.toJSON Math_log g) c) in
    exists a',
      RelationalGraph.getAtom g' k = Some a'
      /\ imported_from a a'
      /\ SenseAtom.overallStrength a'
         = Some (SenseAtom.calculateOverallStrength Math_log a).
Proof.
  intros Math_log g c k a Hwf G g'. subst g'.
  unfold RelationalGraph.getAtom in *.
  destruct (graph_wfb_spec g Hwf) as [Hnd Hid].
  assert (He : evolves (fun _ => true)
                 (fun x x' =>
                    imported_from x x'
                    /\ SenseAtom.overallStrength x'
                       = Some (SenseAtom.calculateOverallStrength Math_log x))
                 (RelationalGraph.atoms g)
                 (RelationalGraph.atoms
                    (fst (RelationalGraph.fromJSON
                            (RelationalGraph.toJSON Math_log g) c)))).
  { unfold RelationalGraph.fromJSON. unfold bind at 1.
    unfold RelationalGraph.constructor. unfold bind at 1.
    unfold Date_now at 1. cbv beta iota. unfold ret at 1. unfold bind.
    set (c1 := mkClock (reading c) (S (calls c))).
    set (g0 := RelationalGraph.mk JsMap.empty JsMap.empty _).
    destruct (@importAtoms_payload Math_log (RelationalGraph.atoms g) g0 c1)
      as [es' [E F]].
    - exact Hnd.
    - apply Forall_forall. intros [k0 a0] Hin. apply (Hid _ _ Hin).
    - simpl GraphData.atoms.
      destruct (RelationalGraph.importAtoms g0
                  (map (SenseAtom.toJSON Math_log)
                     (JsMap.values (RelationalGraph.atoms g))) c1)
        as [g1 c2].
      unfold ret. cbn [fst] in E |- *.
      assert (E1 : RelationalGraph.atoms g1 = es') by exact E.
      eapply evolves_step
        with (keep1 := fun _ => true)
             (R1 := fun x x' =>
                      imported_from x x'
                      /\ SenseAtom.overallStrength x'
                         = Some (SenseAtom.calculateOverallStrength
                                   Math_log x))
             (m2 := RelationalGraph.atoms g1).
      + rewrite E1. apply evolves_all_intro.
        eapply Forall2_impl; [|exact F].
        intros e e' (H1 & H2 & _ & H4). auto.
      + apply (createClusters_clusters
                 (GraphData.clusters (RelationalGraph.toJSON Math_log g)) g1).
      + intros v v1 v' [H1 H2] [l ->]. split; [exact H1 | exact H2].
      + reflexivity. }
  pose proof (@evolves_all_get _ _ _ _ k He) as Hk. rewrite G in Hk.
  cbv beta iota in Hk.
  destruct (JsMap.get k
              (RelationalGraph.atoms
                 (fst (RelationalGraph.fromJSON
                         (RelationalGraph.toJSON Math_log g) c))))
    as [a'|]; [|contradiction].
  exists a'. destruct Hk as [H1 H2]. auto.
Qed.

Lemma export_import_keeps_payload_witness :
  exists a a',
    RelationalGraph.getAtom exampleGraph "love_001" = Some a
    /\ RelationalGraph.getAtom
         (fst (RelationalGraph.fromJSON
                 (RelationalGraph.toJSON exampleLog exampleGraph)
                 exampleClock)) "love_001" = Some a'
    /\ imported_from a a'.
Proof.
  assert (G : exists a,
             RelationalGraph.getAtom exampleGraph "love_001" = Some a)
    by (eexists; reflexivity).
  destruct G as [a G].
  destruct (@export_import_keeps_payload exampleLog exampleGraph exampleClock
              "love_001" a) as (a' & G' & H & _).
  - reflexivity.
  - exact G.
  - exists a, a'. auto.
Defined.

(** ** The counters of a Decay Pass *)

Lemma JsMap_delete_length (V : Type) k (m : JsMap.t V) :
  JsMap.has k m = true ->
  (List.length (JsMap.delete k m) < List.length m)%nat.
Proof.
  unfold JsMap.has, JsMap.delete.
  induction m as [|[k' v] r IH]; simpl; [discriminate|].
  destruct (String.eqb k k') eqn:E; simpl.
  - intros _. pose proof (filter_length_le
                            (fun e : string * V => negb (String.eqb k (fst e)))
                            r). lia.
  - intros H. apply IH in H. lia.
Qed.

Lemma removeAtom_size g id c :
  let r := RelationalGraph.removeAtom g id c in
  (RelationalGraph.size (snd (fst r))
   + (if fst (fst r) then 1 else 0)
   <= RelationalGraph.size g)%Z.
Proof.
  cbv zeta. destruct (JsMap.has id (RelationalGraph.atoms g)) eqn:E.
  - destruct (removeAtom_present g id c E) as (-> & Ha & _).
    unfold RelationalGraph.size, JsMap.size. rewrite Ha.
    assert (H : JsMap.has id
                  (JsMap.map_values
                     (fun otherAtom =>
                        snd (SenseAtom.removeConnection otherAtom id))
                     (RelationalGraph.atoms g)) = true)
      by (rewrite JsMap_has_map_values; exact E).
    apply JsMap_delete_length in H.
    unfold JsMap.map_values in H at 2. rewrite length_map in H. lia.
  - assert (Hn : JsMap.get id (RelationalGraph.atoms g) = None).
    { unfold JsMap.has in E.
      now destruct (JsMap.get id (RelationalGraph.atoms g)). }
    rewrite (removeAtom_absent _ _ c Hn). cbn [fst snd]. lia.
Qed.

Lemma removeMarked_counts ids : forall g n c,
  let r := DecayScheduler.removeMarked g ids n c in
  (n <= snd (fst r))%Z
  /\ (RelationalGraph.size (fst (fst r)) + (snd (fst r) - n)
      <= RelationalGraph.size g)%Z.
Proof.
  induction ids as [|id rest IH]; intros g n c; simpl.
  - lia.
  - unfold bind.
    pose proof (removeAtom_size g id c) as Hs.
    destruct (RelationalGraph.removeAtom g id c) as [[removed g1] c1].
    cbn [fst snd] in Hs.
    destruct (IH g1 (if removed then (n + 1)%Z else n) c1) as [H1 H2].
    destruct removed; lia.
Qed.

Lemma consolidateMarked_counts ids : forall g n c,
  (n <= snd (fst (DecayScheduler.consolidateMarked g ids n c)))%Z.
Proof.
  induction ids as [|id rest IH]; intros g n c; simpl.
  - lia.
  - destruct (RelationalGraph.getAtom g id).
    + unfold bind.
      destruct (RelationalGraph.mutate id DecayScheduler.consolidateAtom
                  (RelationalGraph.atoms g) c) as [atoms1 c1].
      specialize (IH (RelationalGraph.set_atoms atoms1 g) (n + 1)%Z c1). lia.
    + apply IH.
Qed.

Lemma decayAll_counts this es : forall acc c es' acc' c',
  DecayScheduler.decayAll this es acc c = (es', acc', c') ->
  DecayScheduler.totalProcessed acc'
  = (DecayScheduler.totalProcessed acc + Z.of_nat (List.length es))%Z
  /\ (DecayScheduler.atomsDecayed acc <= DecayScheduler.atomsDecayed acc')%Z
  /\ (DecayScheduler.atomsDecayed acc'
      <= DecayScheduler.atomsDecayed acc + Z.of_nat (List.length es))%Z.
Proof.
  induction es as [|[k atom] rest IH]; intros acc c es' acc' c'.
  - cbn. intros E. inversion E; subst. lia.
  - cbn [DecayScheduler.decayAll]. unfold bind at 1.
    destruct (DecayScheduler.processAtomDecay this atom c)
      as [[decayResult atom1] c1].
    cbv beta iota zeta. unfold bind at 1.
    match goal with
    | |- context [DecayScheduler.decayAll this rest ?a c1] =>
        pose proof (IH a c1) as IH1;
        destruct (DecayScheduler.decayAll this rest a c1)
          as [[rest1 acc2] c2]
    end.
    specialize (IH1 _ _ _ eq_refl).
    cbn [DecayScheduler.totalProcessed DecayScheduler.atomsDecayed] in IH1.
    destruct IH1 as (I1 & I2 & I3).
    unfold ret. intros E. inversion E; subst. cbn [List.length].
    destruct (Qgtb (DecayResult.decayApplied decayResult) 0); lia.
Qed.

(** X20. The counters that a Decay Pass leaves in the scheduler, for any
    graph: the configuration is untouched; the number of atoms processed is
    the size of the graph before the pass; the number of atoms counted as
    decayed lies between 0 and that size; the counts of removed and of
    consolidated atoms are not negative; the graph has shrunk by at least
    the number of atoms reported as removed; the time of the run is a
    reading of the clock taken during the pass. *)
Theorem decay_pass_counters :
  forall (this : DecayScheduler.t) (g : RelationalGraph.t) (c : Clock),
    let r := DecayScheduler.applyDecay this g c in
    let st := DecayScheduler.statistics (fst (fst r)) in
    let g' := snd (fst r) in
    DecayScheduler.config (fst (fst r)) = DecayScheduler.config this
    /\ DecayStatistics.totalProcessed st = RelationalGraph.size g
    /\ (0 <= DecayStatistics.atomsDecayed st <= RelationalGraph.size g)%Z
    /\ (0 <= DecayStatistics.atomsRemoved st)%Z
    /\ (0 <= DecayStatistics.atomsConsolidated st)%Z
    /\ (RelationalGraph.size g' + DecayStatistics.atomsRemoved st
        <= RelationalGraph.size g)%Z
    /\ read_between c (snd r) (DecayStatistics.lastDecayRun st).
Proof.
  intros this g c r st g'. subst st g' r.
  destruct (DecayScheduler.applyDecay this g c) as [[this' g'] c'] eqn:E.
  cbn [fst snd].
  unfold DecayScheduler.applyDecay in E. cbv zeta in E.
  unfold bind at 1 in E.
  pose proof (@decayAll_counts this (RelationalGraph.atoms g)
                (DecayScheduler.mkLoop 0 0 0 [] []) c) as K1.
  pose proof (decayAll_evolves this (RelationalGraph.atoms g)
                (DecayScheduler.mkLoop 0 0 0 [] []) c) as [H1 C1].
  destruct (DecayScheduler.decayAll this (RelationalGraph.atoms g)
              (DecayScheduler.mkLoop 0 0 0 [] []) c) as [[atoms1 loop] c1].
  specialize (K1 _ _ _ eq_refl). cbn [fst snd] in H1, C1.
  cbn [DecayScheduler.totalProcessed DecayScheduler.atomsDecayed] in K1.
  destruct K1 as (K1 & K2 & K3).
  apply evolves_length in H1.
  cbv beta iota in E. unfold bind at 1 in E.
  set (g1 := RelationalGraph.set_atoms atoms1 g) in *.
  pose proof (removeMarked_counts (DecayScheduler.atomsToRemove loop) g1
                0%Z c1) as [R1 R2].
  pose proof (removeMarked_evolves (DecayScheduler.atomsToRemove loop) g1
                0%Z c1) as [_ C2].
  destruct (DecayScheduler.removeMarked g1
              (DecayScheduler.atomsToRemove loop) 0%Z c1)
    as [[g2 atomsRemoved] c2].
  cbn [fst snd] in R1, R2, C2. cbv beta iota in E. unfold bind at 1 in E.
  pose proof (consolidateMarked_counts
                (DecayScheduler.atomsToConsolidate loop) g2 0%Z c2) as S1.
  pose proof (consolidateMarked_evolves
                (DecayScheduler.atomsToConsolidate loop) g2 0%Z c2)
    as [H3 C3].
  destruct (DecayScheduler.consolidateMarked g2
              (DecayScheduler.atomsToConsolidate loop) 0%Z c2)
    as [[g3 atomsConsolidated] c3].
  cbn [fst snd] in S1, H3, C3. apply evolves_length in H3.
  cbv beta iota in E. unfold bind at 1 in E.
  unfold Date_now at 1 in E. cbv beta iota in E.
  set (c4 := mkClock (reading c3) (S (calls c3))) in *.
  assert (C03 : clock_le c c3)
    by exact (clock_le_trans C1 (clock_le_trans C2 C3)).
  assert (Hsz1 : (RelationalGraph.size g1 <= RelationalGraph.size g)%Z).
  { unfold RelationalGraph.size, JsMap.size, g1.
    cbn [RelationalGraph.atoms RelationalGraph.set_atoms]. lia. }
  assert (Hsz3 : (RelationalGraph.size g3 <= RelationalGraph.size g2)%Z).
  { unfold RelationalGraph.size, JsMap.size. lia. }
  assert (Hfin : forall g4 c5,
            clock_le c4 c5 ->
            (RelationalGraph.size g4 <= RelationalGraph.size g3)%Z ->
            (this', g', c')
            = (DecayScheduler.mk
                 (DecayStatistics.mk (DecayScheduler.totalProcessed loop)
                    (DecayScheduler.atomsDecayed loop) atomsRemoved
                    atomsConsolidated
                    (if (DecayScheduler.totalProcessed loop >? 0)%Z
                     then DecayScheduler.totalDecayApplied loop
                          / inject_Z (DecayScheduler.totalProcessed loop)
                     else 0)
                    (reading c3 (calls c3))
                    (if (RelationalGraph.size g >? 0)%Z
                     then inject_Z atomsRemoved
                          / inject_Z (RelationalGraph.size g) * 100
                     else 0))
                 (DecayScheduler.config this), g4, c5) ->
            DecayScheduler.config this' = DecayScheduler.config this
            /\ DecayStatistics.totalProcessed
                 (DecayScheduler.statistics this') = RelationalGraph.size g
            /\ (0 <= DecayStatistics.atomsDecayed
                       (DecayScheduler.statistics this')
                <= RelationalGraph.size g)%Z
            /\ (0 <= DecayStatistics.atomsRemoved
                       (DecayScheduler.statistics this'))%Z
            /\ (0 <= DecayStatistics.atomsConsolidated
                       (DecayScheduler.statistics this'))%Z
            /\ (RelationalGraph.size g'
                + DecayStatistics.atomsRemoved
                    (DecayScheduler.statistics this')
                <= RelationalGraph.size g)%Z
            /\ read_between c c'
                 (DecayStatistics.lastDecayRun
                    (DecayScheduler.statistics this'))).
  { intros g4 c5 Hc5 Hs4 Eq. inversion Eq; subst this' g' c'.
    cbn [DecayScheduler.config DecayScheduler.statistics
         DecayStatistics.totalProcessed DecayStatistics.atomsDecayed
         DecayStatistics.atomsRemoved DecayStatistics.atomsConsolidated
         DecayStatistics.lastDecayRun].
    unfold RelationalGraph.size, JsMap.size in *.
    split; [reflexivity|]. split; [lia|]. split; [lia|].
    split; [lia|]. split; [lia|]. split; [lia|].
    exists (calls c3). destruct C03 as [Hr Hc]. destruct Hc5 as [_ Hc5].
    cbn [calls c4] in Hc5. split; [lia|]. now rewrite Hr. }
  destruct (atomsRemoved >? 0)%Z.
  - unfold bind in E.
    pose proof (optimize_prunes_evolves g3 c4) as He. cbv zeta in He.
    pose proof (optimize_evolves g3 c4) as [_ C5].
    destruct (RelationalGraph.optimize g3 c4) as [g4 c5].
    cbn [fst snd] in He, C5. apply evolves_length in He.
    apply (Hfin g4 c5 C5).
    + unfold RelationalGraph.size, JsMap.size. lia.
    + symmetry. exact E.
  - apply (Hfin g3 c4 (clock_le_refl c4)); [lia|].
    symmetry. exact E.
Qed.

(** ** addConnection, removeConnection *)

(** X21. On an atom that has no connection to a target, [removeConnection]
    returns false and changes nothing; [addConnection] adds one entry, with
    the given strength, the given kind (SEMANTIC when none is given) and
    the reading of the clock as its time of creation; and [removeConnection]
    after it returns true and gives back the atom as it was. *)
Theorem addConnection_removeConnection :
  forall (a : SenseAtom.t) (targetId : string) (strength : Q)
         (type : option ConnectionType) (c : Clock),
    JsMap.has targetId (SenseAtom.connections a) = false ->
    let a1 := fst (SenseAtom.addConnection a targetId strength type c) in
    SenseAtom.removeConnection a targetId = (false, a)
    /\ JsMap.get targetId (SenseAtom.connections a1)
       = Some (ConnectionStrength.mk strength
                 (match type with Some k => k | None => SEMANTIC end)
                 (reading c (calls c)))
    /\ JsMap.size (SenseAtom.connections a1)
       = (JsMap.size (SenseAtom.connections a) + 1)%Z
    /\ SenseAtom.removeConnection a1 targetId = (true, a).
Proof.
  intros a targetId strength type c H a1. subst a1.
  assert (Hn : JsMap.get targetId (SenseAtom.connections a) = None).
  { unfold JsMap.has in H.
    now destruct (JsMap.get targetId (SenseAtom.connections a)). }
  assert (Hk : ~ In targetId (JsMap.keys (SenseAtom.connections a)))
    by (now apply JsMap_get_None_keys).
  unfold SenseAtom.addConnection, SenseAtom.removeConnection.
  unfold bind, Date_now, ret. cbn [fst snd].
  cbn [SenseAtom.connections SenseAtom.set_connections].
  split; [|split; [|split]].
  - rewrite H, (@JsMap_delete_absent _ _ _ Hk). now rewrite set_connections_same.
  - apply JsMap_get_set_eq.
  - unfold JsMap.size. rewrite JsMap_set_length, H. lia.
  - f_equal.
    + unfold JsMap.has. now rewrite JsMap_get_set_eq.
    + rewrite (@JsMap_set_fresh _ _ _ _ Hn). unfold JsMap.delete.
      rewrite filter_app. cbn [filter fst]. rewrite String.eqb_refl.
      cbn [negb]. rewrite app_nil_r.
      fold (JsMap.delete targetId (SenseAtom.connections a)).
      rewrite (@JsMap_delete_absent _ _ _ Hk). now destruct a.
Qed.

Lemma addConnection_removeConnection_witness :
  let a1 := fst (SenseAtom.addConnection oldAtom "love_001" 0.8 None
                   exampleClock) in
  SenseAtom.removeConnection oldAtom "love_001" = (false, oldAtom)
  /\ JsMap.get "love_001" (SenseAtom.connections a1)
     = Some (ConnectionStrength.mk 0.8 SEMANTIC
               (reading exampleClock (calls exampleClock)))
  /\ JsMap.size (SenseAtom.connections a1)
     = (JsMap.size (SenseAtom.connections oldAtom) + 1)%Z
  /\ SenseAtom.removeConnection a1 "love_001" = (true, oldAtom).
Proof.
  apply (@addConnection_removeConnection oldAtom "love_001" 0.8 None
           exampleClock).
  reflexivity.
Defined.

(** ** NSUtils.calculateAverageWeight *)


